(** * State synchronisation core of the chart editor (src/src/App.tsx)

    A shallow embedding of the state handlers of the [App] component: the
    column registry ([series]), the row store ([rows]), the mapping slots,
    the multi-series selection, the two React effects that repair them, the
    reorder handlers, the sweep-toggle handlers and the histogram binning.

    JavaScript values are modelled as they are at run time: numbers are
    IEEE-754 binary64 values (Rocq's primitive floats), strings are
    [string], objects are association lists in property insertion order,
    arrays are lists.  React state is passed explicitly: a handler is a
    function from the state it reads to the state it leaves. *)

From Stdlib Require Import List String Ascii Bool Arith ZArith Lia Floats DecimalString Permutation.
Import ListNotations.
Local Open Scope string_scope.
Local Open Scope list_scope.

(** ** JavaScript values *)

(** The values a [DataRow] property can hold
    ([string | number | boolean | undefined]). *)
Inductive jsval : Type :=
  | JUndefined
  | JBool (b : bool)
  | JNum (x : float)
  | JStr (s : string).

(** [a === b]. Numbers compare as IEEE values: [NaN] differs from itself
    and the two zeros are equal. *)
Definition strict_eq (a b : jsval) : bool :=
  match a, b with
  | JUndefined, JUndefined => true
  | JBool x, JBool y => Bool.eqb x y
  | JNum x, JNum y => PrimFloat.eqb x y
  | JStr x, JStr y => String.eqb x y
  | _, _ => false
  end.

(** SameValueZero, the comparison of [Set.prototype.has] and [add]. *)
Definition same_value_zero (a b : jsval) : bool :=
  match a, b with
  | JNum x, JNum y => PrimFloat.eqb x y || (PrimFloat.is_nan x && PrimFloat.is_nan y)
  | _, _ => strict_eq a b
  end.

(** ToBoolean. *)
Definition truthy (v : jsval) : bool :=
  match v with
  | JUndefined => false
  | JBool b => b
  | JNum x => negb (PrimFloat.is_zero x || PrimFloat.is_nan x)
  | JStr s => negb (s =? "")
  end.

(** The text primitives of the host that the handlers call.  The handlers
    are written against this interface; what is proved of them holds for
    every implementation of it. *)
Class JsText : Type := {
  (** [String.prototype.trim] *)
  trim : string -> string;
  (** [String.prototype.toLowerCase] *)
  toLowerCase : string -> string;
  (** [Number(text)] *)
  Number : string -> float;
  (** [String(n)] for a number [n] *)
  numberToString : float -> string;
  (** [n.toFixed(digits)] *)
  toFixed : float -> nat -> string
}.

(** [String(v)]. *)
Definition String_ `{JsText} (v : jsval) : string :=
  match v with
  | JUndefined => "undefined"
  | JBool true => "true"
  | JBool false => "false"
  | JNum x => numberToString x
  | JStr s => s
  end.


(** ** Numbers *)

(** The number with the integer value [z], rounded to binary64. *)
Definition ofZ (z : Z) : float :=
  SF2Prim (binary_normalize prec emax z 0 false).

Definition isNegZero (x : float) : bool :=
  PrimFloat.is_zero x && PrimFloat.get_sign x.

(** [Math.floor(x)] *)
Definition mathFloor (x : float) : float :=
  match Prim2SF x with
  | S754_finite s m e =>
      if (0 <=? e)%Z then x
      else
        let d := (2 ^ (- e))%Z in
        if (Zpos m mod d =? 0)%Z then x
        else if s then PrimFloat.opp (ofZ (Zpos m / d + 1))
        else ofZ (Zpos m / d)
  | _ => x
  end.

(** [Math.max(a, b)] and [Math.min(a, b)]: [NaN] if either is, and [-0]
    below [+0]. *)
Definition mathMax2 (a b : float) : float :=
  if PrimFloat.is_nan a || PrimFloat.is_nan b then PrimFloat.nan
  else if PrimFloat.ltb a b then b
  else if PrimFloat.ltb b a then a
  else if isNegZero a then b else a.

Definition mathMin2 (a b : float) : float :=
  if PrimFloat.is_nan a || PrimFloat.is_nan b then PrimFloat.nan
  else if PrimFloat.ltb a b then a
  else if PrimFloat.ltb b a then b
  else if isNegZero a then a else b.

(** [Math.max(...values)] and [Math.min(...values)] *)
Definition mathMax (values : list float) : float :=
  fold_left mathMax2 values PrimFloat.neg_infinity.

Definition mathMin (values : list float) : float :=
  fold_left mathMin2 values PrimFloat.infinity.

(** The integer value of a number that is a non-negative integer below
    [2^32], as an array length or index is. *)
Definition smallInteger (x : float) : option nat :=
  match Prim2SF x with
  | S754_zero _ => Some 0%nat
  | S754_finite false m e =>
      if (0 <=? e)%Z then
        if (e <? 32)%Z && (Zpos m * 2 ^ e <? 2 ^ 32)%Z
        then Some (Z.to_nat (Zpos m * 2 ^ e)) else None
      else if (Zpos m mod 2 ^ (- e) =? 0)%Z && (Zpos m / 2 ^ (- e) <? 2 ^ 32)%Z
           then Some (Z.to_nat (Zpos m / 2 ^ (- e))) else None
  | _ => None
  end.

(** The length [Array.from({ length: x })] creates: [x] truncated, [0] for
    [NaN] and negative numbers; [None] where the array cannot be created
    (a [RangeError] from [2^32] on). *)
Definition arrayLength (x : float) : option nat :=
  match Prim2SF x with
  | S754_finite false m e =>
      if (0 <=? e)%Z then
        if (e <? 32)%Z && (Zpos m * 2 ^ e <? 2 ^ 32)%Z
        then Some (Z.to_nat (Zpos m * 2 ^ e)) else None
      else if (Zpos m / 2 ^ (- e) <? 2 ^ 32)%Z
           then Some (Z.to_nat (Zpos m / 2 ^ (- e))) else None
  | S754_infinity false => None
  | _ => Some 0%nat
  end.

(** ** Arrays *)

(** [arr.includes(x)] on an array of strings. *)
Definition includes (l : list string) (x : string) : bool :=
  existsb (fun y => y =? x) l.

(** [arr.findIndex(p)]; [None] stands for [-1]. *)
Fixpoint findIndex {A : Type} (p : A -> bool) (l : list A) : option nat :=
  match l with
  | [] => None
  | x :: t => if p x then Some 0 else option_map S (findIndex p t)
  end.

(** [arr.map((x, i) => f(x, i))], the index starting at [k]. *)
Fixpoint mapi_from {A B : Type} (k : nat) (f : A -> nat -> B) (l : list A) : list B :=
  match l with
  | [] => []
  | x :: t => f x k :: mapi_from (S k) f t
  end.

Definition mapi {A B : Type} (f : A -> nat -> B) (l : list A) : list B :=
  mapi_from 0 f l.

(** [arr.splice(i, 1)]: the array without its element at [i]. *)
Definition splice_out {A : Type} (i : nat) (l : list A) : list A :=
  firstn i l ++ skipn (S i) l.

(** [arr.splice(i, 0, x)]: [x] inserted at [i] (at the end when [i] is past it). *)
Definition splice_in {A : Type} (i : nat) (x : A) (l : list A) : list A :=
  firstn i l ++ x :: skipn i l.

(** ** Objects: a [DataRow] *)

(** A row object: its own properties in insertion order ([key], the series
    cells, and [_hidden] once it was set). *)
Definition DataRow : Type := list (string * jsval).

(** [r[k]] *)
Fixpoint getProp (r : DataRow) (k : string) : jsval :=
  match r with
  | [] => JUndefined
  | (k', v) :: t => if k' =? k then v else getProp t k
  end.

(** [{ ...r, [k]: v }]: an existing property keeps its place. *)
Fixpoint setProp (r : DataRow) (k : string) (v : jsval) : DataRow :=
  match r with
  | [] => [(k, v)]
  | (k', v') :: t => if k' =? k then (k', v) :: t else (k', v') :: setProp t k v
  end.

(** ** The component state *)

Record SeriesMeta : Type := mkSeries {
  id : string;
  label : string;
  color : string;
  visible : bool
}.

Inductive ChartType : Type :=
  | line | bar | stackedBar | area | radar | pie | donut | histogram | scatter.

Definition ChartType_eqb (a b : ChartType) : bool :=
  match a, b with
  | line, line | bar, bar | stackedBar, stackedBar | area, area | radar, radar
  | pie, pie | donut, donut | histogram, histogram | scatter, scatter => true
  | _, _ => false
  end.

(** The single-column mapping slots ([useState<string>] each). *)
Record Mapping : Type := mkMapping {
  labelColumn : string;
  scatterXColumn : string;
  scatterYColumn : string;
  scatterSizeColumn : string;
  scatterColorColumn : string;
  barColorColumn : string;
  pieSeriesColumn : string;
  histogramColumn : string
}.

Inductive DragPosition : Type := above | below.

Inductive SweepKind : Type := SweepRow | SweepSeries.

(** The three refs of the sweep gesture. A [Set] is kept as the list of its
    members in insertion order. *)
Record Sweep : Type := mkSweep {
  sweepActive : option SweepKind;
  sweepRowSet : list jsval;
  sweepSeriesSet : list string
}.

(** The rename buffers of the column and row headers. *)
Record Editing : Type := mkEditing {
  editingSeriesId : option string;
  editingValue : string;
  editingRowIndex : option nat;
  editingRowValue : string
}.

(** The drag refs and the row drop indicator. *)
Record Drag : Type := mkDrag {
  dragSeriesId : option string;
  dragRowKey : option jsval;
  rowDragOverKey : option jsval;
  rowDragPosition : option DragPosition
}.

Record App : Type := mkApp {
  rows : list DataRow;
  series : list SeriesMeta;
  selectedSeriesIds : list string;
  mapping : Mapping;
  chartType : ChartType;
  histogramBins : float;
  editing : Editing;
  drag : Drag;
  sweep : Sweep
}.

Definition set_rows (v : list DataRow) (st : App) : App :=
  mkApp v (series st) (selectedSeriesIds st) (mapping st) (chartType st)
        (histogramBins st) (editing st) (drag st) (sweep st).

Definition set_series (v : list SeriesMeta) (st : App) : App :=
  mkApp (rows st) v (selectedSeriesIds st) (mapping st) (chartType st)
        (histogramBins st) (editing st) (drag st) (sweep st).

Definition set_selectedSeriesIds (v : list string) (st : App) : App :=
  mkApp (rows st) (series st) v (mapping st) (chartType st)
        (histogramBins st) (editing st) (drag st) (sweep st).

Definition set_mapping (v : Mapping) (st : App) : App :=
  mkApp (rows st) (series st) (selectedSeriesIds st) v (chartType st)
        (histogramBins st) (editing st) (drag st) (sweep st).

Definition set_editing (v : Editing) (st : App) : App :=
  mkApp (rows st) (series st) (selectedSeriesIds st) (mapping st) (chartType st)
        (histogramBins st) v (drag st) (sweep st).

Definition set_drag (v : Drag) (st : App) : App :=
  mkApp (rows st) (series st) (selectedSeriesIds st) (mapping st) (chartType st)
        (histogramBins st) (editing st) v (sweep st).

Definition set_sweep (v : Sweep) (st : App) : App :=
  mkApp (rows st) (series st) (selectedSeriesIds st) (mapping st) (chartType st)
        (histogramBins st) (editing st) (drag st) v.

(** ** Column visibility and the two effects *)

(** [series.filter(s => s.visible).map(s => s.id)] *)
Definition visibleIds (ser : list SeriesMeta) : list string :=
  map id (filter visible ser).

(** [{ ...s, visible: !s.visible }] *)
Definition flipVisible (s : SeriesMeta) : SeriesMeta :=
  mkSeries (id s) (label s) (color s) (negb (visible s)).

(** The [setSeries] update of [toggleSeriesVisible]. *)
Definition toggleVisibleIn (i : string) (ser : list SeriesMeta) : list SeriesMeta :=
  map (fun s => if id s =? i then flipVisible s else s) ser.

(** [toggleSeriesVisible(id)] (lines 118-121). *)
Definition toggleSeriesVisible (i : string) (st : App) : App :=
  set_selectedSeriesIds
    (filter (fun sid => negb (sid =? i)) (selectedSeriesIds st))
    (set_series (toggleVisibleIn i (series st)) st).

(** [showAllSeries()] *)
Definition showAllSeries (st : App) : App :=
  set_series (map (fun s => mkSeries (id s) (label s) (color s) true) (series st)) st.

(** The updater of the [selectedSeriesIds] effect (lines 123-130). *)
Definition selectionEffect (ser : list SeriesMeta) (prev : list string) : list string :=
  let visibleIds := visibleIds ser in
  let filtered := filter (fun i => includes visibleIds i) prev in
  if negb (Nat.eqb (List.length filtered) 0) then filtered
  else firstn (Nat.min 3 (List.length visibleIds)) visibleIds.

(** [visibleIds[0] || '']: the empty string is falsy as [undefined] is. *)
Definition firstOrEmpty (l : list string) : string :=
  match nth_error l 0 with
  | Some s => if s =? "" then "" else s
  | None => ""
  end.

(** The reconciler effect (lines 335-341). Each test reads the slot as it was
    when the effect ran; each setter writes its own slot. *)
Definition reconciler (ser : list SeriesMeta) (m : Mapping) : Mapping :=
  let visibleIds := visibleIds ser in
  mkMapping
    (if negb (labelColumn m =? "key") && negb (includes visibleIds (labelColumn m))
     then "key" else labelColumn m)
    (scatterXColumn m)
    (if negb (includes visibleIds (scatterYColumn m))
     then firstOrEmpty visibleIds else scatterYColumn m)
    (scatterSizeColumn m)
    (scatterColorColumn m)
    (barColorColumn m)
    (if negb (includes visibleIds (pieSeriesColumn m))
     then firstOrEmpty visibleIds else pieSeriesColumn m)
    (if negb (includes visibleIds (histogramColumn m))
     then firstOrEmpty visibleIds else histogramColumn m).

(** One pass of the effects after a render, in the order the component
    declares them. *)
Definition runEffects (st : App) : App :=
  set_mapping (reconciler (series st) (mapping st))
    (set_selectedSeriesIds (selectionEffect (series st) (selectedSeriesIds st)) st).

(** The condition under which [MappingControls] shows
    "Selected Y axis series hidden." (lines 642-644). *)
Definition hiddenYWarning (st : App) : bool :=
  ChartType_eqb (chartType st) scatter
  && negb (existsb (fun s => (id s =? scatterYColumn (mapping st)) && visible s) (series st)).

(** A slot is dangling when it names a column of the registry whose
    [visible] flag is false. *)
Definition refersHidden (ser : list SeriesMeta) (slot : string) : bool :=
  existsb (fun s => (id s =? slot) && negb (visible s)) ser.

(** ** Column rename (lines 154-174) *)

(** [startRenameSeries(id)] *)
Definition startRenameSeries (i : string) (st : App) : App :=
  match find (fun s => id s =? i) (series st) with
  | None => st
  | Some target =>
      set_editing (mkEditing (Some i) (label target)
                     (editingRowIndex (editing st)) (editingRowValue (editing st))) st
  end.

(** [setEditingValue(text)], the [onChange] of the header input. *)
Definition setEditingValue (text : string) (st : App) : App :=
  set_editing (mkEditing (editingSeriesId (editing st)) text
                 (editingRowIndex (editing st)) (editingRowValue (editing st))) st.

(** [setEditingSeriesId(null)] *)
Definition clearEditingSeriesId (st : App) : App :=
  set_editing (mkEditing None (editingValue (editing st))
                 (editingRowIndex (editing st)) (editingRowValue (editing st))) st.

(** [{ ...s, label: trimmed }] *)
Definition withLabel (l : string) (s : SeriesMeta) : SeriesMeta :=
  mkSeries (id s) l (color s) (visible s).

(** [commitRenameSeries()] (lines 161-170). [!editingSeriesId] holds for
    [null] and for the empty string. *)
Definition commitRenameSeries `{JsText} (st : App) : App :=
  match editingSeriesId (editing st) with
  | None => st
  | Some eid =>
      if eid =? "" then st
      else
        let trimmed := trim (editingValue (editing st)) in
        if trimmed =? "" then clearEditingSeriesId st
        else
          let dup :=
            existsb (fun s => negb (id s =? eid)
                              && (toLowerCase (label s) =? toLowerCase trimmed))
                    (series st) in
          if dup then clearEditingSeriesId st
          else
            clearEditingSeriesId
              (set_series
                 (map (fun s => if id s =? eid then withLabel trimmed s else s) (series st))
                 st)
  end.

(** The registry operation [rename(id, newLabel)] as the user performs it:
    open the header for renaming, type the text, commit. *)
Definition rename `{JsText} (i newLabel : string) (st : App) : App :=
  commitRenameSeries (setEditingValue newLabel (startRenameSeries i st)).

(** ** Column reorder (lines 176-196) *)

(** [onSeriesDragStart(id, e)] *)
Definition onSeriesDragStart (i : string) (st : App) : App :=
  set_drag (mkDrag (Some i) (dragRowKey (drag st))
              (rowDragOverKey (drag st)) (rowDragPosition (drag st))) st.

(** The [setSeries] updater of [onSeriesDrop]. *)
Definition reorderSeries (sourceId targetId : string) (prev : list SeriesMeta)
  : list SeriesMeta :=
  match findIndex (fun s => id s =? sourceId) prev,
        findIndex (fun s => id s =? targetId) prev with
  | Some srcIdx, Some tgtIdx =>
      match nth_error prev srcIdx with
      | Some moved => splice_in tgtIdx moved (splice_out srcIdx prev)
      | None => prev
      end
  | _, _ => prev
  end.

(** [onSeriesDrop(targetId)] (lines 183-196). *)
Definition onSeriesDrop (targetId : string) (st : App) : App :=
  let st' := set_drag (mkDrag None (dragRowKey (drag st))
                         (rowDragOverKey (drag st)) (rowDragPosition (drag st))) st in
  match dragSeriesId (drag st) with
  | None => st'
  | Some sourceId =>
      if (sourceId =? "") || (sourceId =? targetId) then st'
      else set_series (reorderSeries sourceId targetId (series st')) st'
  end.

(** ** Row reorder (lines 198-237) *)

(** [onRowDragStart(rowKey, e)]: refused while a row header is edited. *)
Definition onRowDragStart (rowKey : jsval) (st : App) : App :=
  match editingRowIndex (editing st) with
  | Some _ => st
  | None =>
      set_drag (mkDrag (dragSeriesId (drag st)) (Some rowKey)
                  (rowDragOverKey (drag st)) (rowDragPosition (drag st))) st
  end.

(** [onRowDragOver(e, targetKey)], [pos] being the half of the target the
    pointer is over. *)
Definition onRowDragOver (targetKey : jsval) (pos : DragPosition) (st : App) : App :=
  set_drag (mkDrag (dragSeriesId (drag st)) (dragRowKey (drag st))
              (Some targetKey) (Some pos)) st.

(** [clearRowDragState()] *)
Definition clearRowDragState (st : App) : App :=
  set_drag (mkDrag (dragSeriesId (drag st)) (dragRowKey (drag st)) None None) st.

(** The [setRows] updater of [onRowDrop]. *)
Definition reorderRows (sourceKey targetKey : jsval) (pos : option DragPosition)
    (prev : list DataRow) : list DataRow :=
  match findIndex (fun r => strict_eq (getProp r "key") sourceKey) prev,
        findIndex (fun r => strict_eq (getProp r "key") targetKey) prev with
  | Some srcIdx, Some tgtIdx =>
      let insertIndex :=
        (tgtIdx + match pos with Some below => 1 | _ => 0 end)%nat in
      let insertIndex :=
        if (srcIdx <? insertIndex)%nat then (insertIndex - 1)%nat else insertIndex in
      if (insertIndex =? srcIdx)%nat then prev
      else
        match nth_error prev srcIdx with
        | Some moved => splice_in insertIndex moved (splice_out srcIdx prev)
        | None => prev
        end
  | _, _ => prev
  end.

(** [onRowDrop(targetKey)] (lines 218-236). *)
Definition onRowDrop (targetKey : jsval) (st : App) : App :=
  let st' := set_drag (mkDrag (dragSeriesId (drag st)) None
                         (rowDragOverKey (drag st)) (rowDragPosition (drag st))) st in
  match dragRowKey (drag st) with
  | None => clearRowDragState st'
  | Some sourceKey =>
      clearRowDragState
        (set_rows (reorderRows sourceKey targetKey (rowDragPosition (drag st)) (rows st')) st')
  end.

(** ** Row header rename (lines 239-269) *)

Definition isDigit (c : ascii) : bool :=
  (48 <=? nat_of_ascii c)%nat && (nat_of_ascii c <=? 57)%nat.

Fixpoint skipDigits (s : string) : string :=
  match s with
  | String c t => if isDigit c then skipDigits t else s
  | EmptyString => s
  end.

(** One or more digits, then the end of the text. *)
Definition digitsToEnd (s : string) : bool :=
  match s with
  | String c _ => isDigit c && (skipDigits s =? "")
  | EmptyString => false
  end.

(** [value.match(/^[-+]?\d+(\.\d+)?$/)] as a test. *)
Definition matchesDecimal (value : string) : bool :=
  let unsigned :=
    match value with
    | String "-" t => t
    | String "+" t => t
    | _ => value
    end in
  match unsigned with
  | String c _ =>
      isDigit c &&
      match skipDigits unsigned with
      | EmptyString => true
      | String "." frac => digitsToEnd frac
      | _ => false
      end
  | EmptyString => false
  end.

(** [clone[i] = row]. Past the end JavaScript lengthens the array and leaves
    holes before [i]; the model writes them as empty objects, which read as
    [undefined] at every property as a hole does. No handler reaches that
    case: [startEditRowHeader] reads [rows[i][labelColumn]] first and no
    handler changes the length of [rows]. *)
Fixpoint arraySet (i : nat) (row : DataRow) (l : list DataRow) : list DataRow :=
  match i, l with
  | O, [] => [row]
  | O, _ :: t => row :: t
  | S j, [] => [] :: arraySet j row []
  | S j, x :: t => x :: arraySet j row t
  end.

(** [prev.some((r, i) => i !== idx && String(r[col]) === String(value))] *)
Definition duplicateKey `{JsText} (idx : nat) (col value : string) (prev : list DataRow)
  : bool :=
  existsb (fun b : bool => b)
    (mapi (fun r i => negb (i =? idx)%nat && (String_ (getProp r col) =? value)) prev).

(** The [setRows] updater of [commitEditRowHeader] (lines 252-267). *)
Definition commitRowUpdater `{JsText} (idx : nat) (value col : string)
    (prev : list DataRow) : list DataRow :=
  let row := match nth_error prev idx with Some r => r | None => [] end in
  if col =? "key" then
    let num := Number value in
    if duplicateKey idx col value prev then prev
    else
      arraySet idx
        (setProp row col
           (if negb (PrimFloat.is_nan num) && matchesDecimal value
            then JNum num else JStr value))
        prev
  else arraySet idx (setProp row col (JStr value)) prev.

(** [startEditRowHeader(rowIndex)] *)
Definition startEditRowHeader `{JsText} (rowIndex : nat) (st : App) : App :=
  let cell :=
    match nth_error (rows st) rowIndex with
    | Some r => getProp r (labelColumn (mapping st))
    | None => JUndefined
    end in
  set_editing
    (mkEditing (editingSeriesId (editing st)) (editingValue (editing st))
       (Some rowIndex)
       (match cell with JUndefined => "" | v => String_ v end))
    st.

(** [setEditingRowValue(text)] *)
Definition setEditingRowValue (text : string) (st : App) : App :=
  set_editing (mkEditing (editingSeriesId (editing st)) (editingValue (editing st))
                 (editingRowIndex (editing st)) text) st.

(** [cancelEditRowHeader()] *)
Definition cancelEditRowHeader (st : App) : App :=
  set_editing (mkEditing (editingSeriesId (editing st)) (editingValue (editing st))
                 None "") st.

(** [commitEditRowHeader()] (lines 248-269). *)
Definition commitEditRowHeader `{JsText} (st : App) : App :=
  match editingRowIndex (editing st) with
  | None => st
  | Some idx =>
      let value := trim (editingRowValue (editing st)) in
      if value =? "" then cancelEditRowHeader st
      else
        cancelEditRowHeader
          (set_rows (commitRowUpdater idx value (labelColumn (mapping st)) (rows st)) st)
  end.

(** The string-rendered keys of the row store. *)
Definition renderedKeys `{JsText} (rs : list DataRow) : list string :=
  map (fun r => String_ (getProp r "key")) rs.

(** ** Row visibility *)

(** [hideRow(index)] (lines 145-147). *)
Definition hideRowIn (index : nat) (prev : list DataRow) : list DataRow :=
  mapi (fun r i =>
          if (i =? index)%nat
          then setProp r "_hidden" (JBool (negb (truthy (getProp r "_hidden"))))
          else r)
       prev.

Definition hideRow (index : nat) (st : App) : App :=
  set_rows (hideRowIn index (rows st)) st.

(** [showAllRows()] *)
Definition showAllRows (st : App) : App :=
  set_rows (map (fun r => setProp r "_hidden" (JBool false)) (rows st)) st.

(** ** The sweep-toggle gesture (lines 103-116 and 271-298) *)

(** What the handlers read of the [mousedown] event: the button, and whether
    the target lies inside the header's drag handle, rename button or
    visibility button ([e.target.closest(...)]). *)
Record MouseEvent : Type := mkMouseEvent {
  button : nat;
  inDragHandle : bool;
  inRenameBtn : bool;
  inVisibilityBtn : bool
}.

(** [set.has(x)] and [set.add(x)] on a set of column ids. *)
Definition setHas (l : list string) (x : string) : bool := includes l x.

Definition setAdd (l : list string) (x : string) : list string :=
  if setHas l x then l else l ++ [x].

(** [set.has(k)] and [set.add(k)] on a set of row keys. Membership is
    SameValueZero, under which the two zeros are one member; the set is
    never iterated, so which zero it keeps is not observed. *)
Definition keySetHas (l : list jsval) (k : jsval) : bool :=
  existsb (fun y => same_value_zero y k) l.

Definition keySetAdd (l : list jsval) (k : jsval) : list jsval :=
  if keySetHas l k then l else l ++ [k].

(** [endSweep()], the [mouseup] listener of the window. *)
Definition endSweep (st : App) : App :=
  set_sweep (mkSweep None [] []) st.

Definition optionEqb {A : Type} (eqb : A -> A -> bool) (o : option A) (x : A) : bool :=
  match o with
  | Some y => eqb y x
  | None => false
  end.

Definition handleSeriesHeaderMouseDown (s : SeriesMeta) (e : MouseEvent) (st : App) : App :=
  if negb (button e =? 0)%nat then st
  else if inDragHandle e || inRenameBtn e || inVisibilityBtn e
          || optionEqb String.eqb (editingSeriesId (editing st)) (id s)
  then st
  else
    let st1 := toggleSeriesVisible (id s) st in
    set_sweep (mkSweep (Some SweepSeries) (sweepRowSet (sweep st1))
                 (setAdd (sweepSeriesSet (sweep st1)) (id s))) st1.

Definition handleSeriesHeaderMouseEnter (s : SeriesMeta) (st : App) : App :=
  match sweepActive (sweep st) with
  | Some SweepSeries =>
      if negb (setHas (sweepSeriesSet (sweep st)) (id s)) then
        let st1 := toggleSeriesVisible (id s) st in
        set_sweep (mkSweep (sweepActive (sweep st1)) (sweepRowSet (sweep st1))
                     (setAdd (sweepSeriesSet (sweep st1)) (id s))) st1
      else st
  | _ => st
  end.

Definition handleRowHeaderMouseDown (ri : nat) (key : jsval) (e : MouseEvent) (st : App)
  : App :=
  if negb (button e =? 0)%nat then st
  else if inDragHandle e || inRenameBtn e || inVisibilityBtn e
          || optionEqb Nat.eqb (editingRowIndex (editing st)) ri
  then st
  else
    let st1 := hideRow ri st in
    set_sweep (mkSweep (Some SweepRow) (keySetAdd (sweepRowSet (sweep st1)) key)
                 (sweepSeriesSet (sweep st1))) st1.

Definition handleRowHeaderMouseEnter (ri : nat) (key : jsval) (st : App) : App :=
  match sweepActive (sweep st) with
  | Some SweepRow =>
      if negb (keySetHas (sweepRowSet (sweep st)) key) then
        let st1 := hideRow ri st in
        set_sweep (mkSweep (sweepActive (sweep st1)) (keySetAdd (sweepRowSet (sweep st1)) key)
                     (sweepSeriesSet (sweep st1))) st1
      else st
  | _ => st
  end.

(** The pointer events of the table headers. The header passes the handler
    what it was rendered with: the column, or the row's index and key. *)
Inductive Event : Type :=
  | SeriesMouseDown (s : SeriesMeta) (e : MouseEvent)
  | SeriesMouseEnter (s : SeriesMeta)
  | RowMouseDown (ri : nat) (key : jsval) (e : MouseEvent)
  | RowMouseEnter (ri : nat) (key : jsval)
  | MouseUp.

Definition handle (ev : Event) (st : App) : App :=
  match ev with
  | SeriesMouseDown s e => handleSeriesHeaderMouseDown s e st
  | SeriesMouseEnter s => handleSeriesHeaderMouseEnter s st
  | RowMouseDown ri key e => handleRowHeaderMouseDown ri key e st
  | RowMouseEnter ri key => handleRowHeaderMouseEnter ri key st
  | MouseUp => endSweep st
  end.

(** Whether the handler of a pointer event reaches [toggleSeriesVisible],
    the one call of [setSeries] in these handlers: the press is one that
    starts a column sweep, or the pointer enters a column not yet touched
    during one. *)
Definition setsSeries (ev : Event) (st : App) : bool :=
  match ev with
  | SeriesMouseDown s e =>
      (button e =? 0)%nat
      && negb (inDragHandle e || inRenameBtn e || inVisibilityBtn e
               || optionEqb String.eqb (editingSeriesId (editing st)) (id s))
  | SeriesMouseEnter s =>
      match sweepActive (sweep st) with
      | Some SweepSeries => negb (setHas (sweepSeriesSet (sweep st)) (id s))
      | _ => false
      end
  | _ => false
  end.

(** An event is handled and the component renders. Both effects have
    [series] among their dependencies and run after a render in which it is
    a new array; the row handlers and the release of the button change
    nothing the effects depend on, and no effect runs after them. *)
Definition dispatch (st : App) (ev : Event) : App :=
  if setsSeries ev st then runEffects (handle ev st) else handle ev st.

Definition run (evs : list Event) (st : App) : App :=
  fold_left dispatch evs st.

(** A press of the primary button on the header itself. *)
Definition plainPress : MouseEvent := mkMouseEvent 0 false false false.

(** The distinct members of a list of ids, each at its first occurrence. *)
Fixpoint distinctIds (seen l : list string) : list string :=
  match l with
  | [] => []
  | x :: t => if includes seen x then distinctIds seen t
              else x :: distinctIds (seen ++ [x]) t
  end.

(** ** The host's text primitives, for ASCII text

    [trim] and [toLowerCase] on ASCII text, and ECMAScript's StringToNumber,
    Number::toString and Number.prototype.toFixed computed exactly on the
    binary64 value: a number is unpacked into its integer mantissa and
    exponent and every decimal conversion is done in integer arithmetic. *)
Module Host.

Definition isSpace (c : ascii) : bool :=
  let n := nat_of_ascii c in
  ((9 <=? n)%nat && (n <=? 13)%nat) || (n =? 32)%nat.

Fixpoint trimStart (s : string) : string :=
  match s with
  | String c t => if isSpace c then trimStart t else s
  | EmptyString => s
  end.

Fixpoint trimEnd (s : string) : string :=
  match s with
  | EmptyString => EmptyString
  | String c t =>
      let t' := trimEnd t in
      if isSpace c && (t' =? "") then "" else String c t'
  end.

Definition trim (s : string) : string := trimEnd (trimStart s).

Definition lowerChar (c : ascii) : ascii :=
  let n := nat_of_ascii c in
  if (65 <=? n)%nat && (n <=? 90)%nat then ascii_of_nat (n + 32) else c.

Fixpoint toLowerCase (s : string) : string :=
  match s with
  | EmptyString => EmptyString
  | String c t => String (lowerChar c) (toLowerCase t)
  end.

(** Decimal digits of a natural number. *)
Definition digitsOf (n : Z) : string :=
  NilZero.string_of_uint (N.to_uint (Z.to_N n)).

(** The binary64 value nearest to [num / den] (ties to even), signed. *)
Definition roundRatio (neg : bool) (num den : Z) : float :=
  if (num =? 0)%Z then (if neg then neg_zero else zero)
  else
    let '(mz, ez, lz) := SFdiv_core_binary prec emax num 0 den 0 in
    SF2Prim (binary_round_aux prec emax neg mz ez lz).

(** [s * 10^p] rounded to binary64. *)
Definition roundDecimal (neg : bool) (s p : Z) : float :=
  if (0 <=? p)%Z then roundRatio neg (s * 10 ^ p) 1
  else roundRatio neg s (10 ^ (- p)).

Fixpoint readDigits (s : string) (acc : Z) (cnt : nat) : Z * nat * string :=
  match s with
  | String c t =>
      if isDigit c
      then readDigits t (10 * acc + (Z.of_nat (nat_of_ascii c) - 48)) (S cnt)
      else (acc, cnt, s)
  | EmptyString => (acc, cnt, s)
  end.

Definition hexValue (c : ascii) : option Z :=
  let n := nat_of_ascii c in
  if isDigit c then Some (Z.of_nat n - 48)%Z
  else if (97 <=? n)%nat && (n <=? 102)%nat then Some (Z.of_nat n - 87)%Z
  else if (65 <=? n)%nat && (n <=? 70)%nat then Some (Z.of_nat n - 55)%Z
  else None.

Fixpoint readRadix (radix : Z) (s : string) (acc : Z) : option Z :=
  match s with
  | EmptyString => Some acc
  | String c t =>
      match hexValue c with
      | Some d => if (d <? radix)%Z then readRadix radix t (radix * acc + d) else None
      | None => None
      end
  end.

Definition radixLiteral (radix : Z) (digits : string) : float :=
  match digits with
  | EmptyString => nan
  | _ => match readRadix radix digits 0 with
         | Some n => roundRatio false n 1
         | None => nan
         end
  end.

(** The exponent part of a decimal literal: absent, or [e] with a signed
    run of digits up to the end. *)
Definition readExponent (s : string) : option Z :=
  match s with
  | EmptyString => Some 0%Z
  | String c t =>
      if (c =? "e")%char || (c =? "E")%char then
        let '(neg, u) :=
          match t with
          | String "-" u => (true, u)
          | String "+" u => (false, u)
          | _ => (false, t)
          end in
        match readDigits u 0 0 with
        | (v, S _, EmptyString) => Some (if neg then - v else v)%Z
        | _ => None
        end
      else None
  end.

(** [Number(text)]: StringToNumber. *)
Definition Number (text : string) : float :=
  let s := trim text in
  match s with
  | EmptyString => zero
  | String "0" (String "x" d) | String "0" (String "X" d) => radixLiteral 16 d
  | String "0" (String "o" d) | String "0" (String "O" d) => radixLiteral 8 d
  | String "0" (String "b" d) | String "0" (String "B" d) => radixLiteral 2 d
  | _ =>
      let '(neg, u) :=
        match s with
        | String "-" t => (true, t)
        | String "+" t => (false, t)
        | _ => (false, s)
        end in
      if u =? "Infinity" then (if neg then neg_infinity else infinity)
      else
        let '(ip, ni, r1) := readDigits u 0 0 in
        let '(fp, nf, r2) :=
          match r1 with
          | String "." t => readDigits t ip 0
          | _ => (ip, 0%nat, r1)
          end in
        if (ni + nf =? 0)%nat then nan
        else
          match readExponent r2 with
          | Some ex => roundDecimal neg fp (ex - Z.of_nat nf)
          | None => nan
          end
  end.

(** The exact value [num / den] of a positive finite number. *)
Definition exactRatio (x : float) : Z * Z :=
  match Prim2SF x with
  | S754_finite _ m e =>
      if (0 <=? e)%Z then (Zpos m * 2 ^ e, 1)%Z else (Zpos m, 2 ^ (- e))%Z
  | _ => (0, 1)%Z
  end.

(** [num / den] against [10^n]. *)
Definition ltPow10 (num den n : Z) : bool :=
  if (0 <=? n)%Z then (num <? den * 10 ^ n)%Z else (num * 10 ^ (- n) <? den)%Z.

(** The [n] with [10^(n-1) <= num/den < 10^n], searched from a guess. *)
Fixpoint decimalExponent (fuel : nat) (num den n : Z) : Z :=
  match fuel with
  | O => n
  | S f =>
      if ltPow10 num den (n - 1) then decimalExponent f num den (n - 1)
      else if ltPow10 num den n then n
      else decimalExponent f num den (n + 1)
  end.

(** For [k] digits: the digit string [s] and exponent [n] of the ES
    Number::toString algorithm, when a [k]-digit [s] reads back as [x]. *)
Definition shortestAt (x : float) (num den n : Z) (k : Z) : option (Z * Z) :=
  let p := (n - k)%Z in
  (* x / 10^p = a / b *)
  let '(a, b) := if (0 <=? p)%Z then (num, den * 10 ^ p)%Z else (num * 10 ^ (- p), den)%Z in
  let lo := (a / b)%Z in
  let r := (a mod b)%Z in
  let hi := (lo + 1)%Z in
  let ok s := (10 ^ (k - 1) <=? s)%Z && PrimFloat.eqb (roundDecimal false s p) x in
  let okHi := PrimFloat.eqb (roundDecimal false hi p) x in
  let hiPair := if (hi =? 10 ^ k)%Z then (10 ^ (k - 1), n + 1)%Z else (hi, n) in
  match ok lo, okHi with
  | true, true =>
      match (2 * r ?= b)%Z with
      | Lt => Some (lo, n)
      | Gt => Some hiPair
      | Eq => if Z.even lo then Some (lo, n) else Some hiPair
      end
  | true, false => Some (lo, n)
  | false, true => Some hiPair
  | false, false => None
  end.

Fixpoint shortest (fuel : nat) (x : float) (num den n : Z) (k : Z) : Z * Z * Z :=
  match fuel with
  | O => (0, n, k)%Z
  | S f =>
      match shortestAt x num den n k with
      | Some (s, n') => (s, n', k)
      | None => shortest f x num den n (k + 1)
      end
  end.

Fixpoint zeros (n : nat) : string :=
  match n with
  | O => ""
  | S m => String "0" (zeros m)
  end.

Definition takeStr (n : nat) (s : string) : string := substring 0 n s.
Definition dropStr (n : nat) (s : string) : string := substring n (String.length s - n) s.

(** [String(x)] for a number: Number::toString in radix 10. *)
Definition positiveToString (x : float) : string :=
  let '(num, den) := exactRatio x in
  let guess := ((Z.log2 num - Z.log2 den) * 30103 / 100000)%Z in
  let n0 := decimalExponent 400 num den guess in
  let '(s, n, k) := shortest 17 x num den n0 1 in
  let ds := digitsOf s in
  if (k <=? n)%Z && (n <=? 21)%Z then (ds ++ zeros (Z.to_nat (n - k)))%string
  else if (0 <? n)%Z && (n <=? 21)%Z
  then (takeStr (Z.to_nat n) ds ++ "." ++ dropStr (Z.to_nat n) ds)%string
  else if (-6 <? n)%Z && (n <=? 0)%Z then ("0." ++ zeros (Z.to_nat (- n)) ++ ds)%string
  else
    let e := (n - 1)%Z in
    let es := ((if (e <? 0)%Z then "-" else "+") ++ digitsOf (Z.abs e))%string in
    if (k =? 1)%Z then (ds ++ "e" ++ es)%string
    else (takeStr 1 ds ++ "." ++ dropStr 1 ds ++ "e" ++ es)%string.

Definition numberToString (x : float) : string :=
  if PrimFloat.is_nan x then "NaN"
  else if PrimFloat.is_zero x then "0"
  else if PrimFloat.is_infinity x then (if PrimFloat.ltb x zero then "-Infinity" else "Infinity")
  else if PrimFloat.ltb x zero then ("-" ++ positiveToString (PrimFloat.opp x))%string
  else positiveToString x.

(** [x.toFixed(f)] *)
Definition toFixed (x : float) (f : nat) : string :=
  if PrimFloat.is_nan x then "NaN"
  else if PrimFloat.leb 1e21 (PrimFloat.abs x) then numberToString x
  else
    let neg := PrimFloat.ltb x zero in
    let '(num, den) := exactRatio (PrimFloat.abs x) in
    let n := ((2 * num * 10 ^ Z.of_nat f + den) / (2 * den))%Z in
    let m := digitsOf n in
    let m :=
      match f with
      | O => m
      | _ =>
          let m := (zeros (S f - String.length m) ++ m)%string in
          let k := String.length m in
          (takeStr (k - f) m ++ "." ++ dropStr (k - f) m)%string
      end in
    ((if neg then "-" else "") ++ m)%string.

End Host.

(** The host on ASCII text. *)
#[export] Instance HostText : JsText := {
  trim := Host.trim;
  toLowerCase := Host.toLowerCase;
  Number := Host.Number;
  numberToString := Host.numberToString;
  toFixed := Host.toFixed
}.

(** ** Histogram binning (lines 420-439) *)

(** [rows.filter(r => !r._hidden)] *)
Definition activeRows (rs : list DataRow) : list DataRow :=
  filter (fun r => negb (truthy (getProp r "_hidden"))) rs.

(** [vs.filter(v => typeof v === 'number')] *)
Fixpoint numbersOf (vs : list jsval) : list float :=
  match vs with
  | [] => []
  | JNum x :: t => x :: numbersOf t
  | _ :: t => numbersOf t
  end.

(** One bar of the histogram: [{ bin, count }]. *)
Record Bin : Type := mkBin {
  bin : string;
  count : nat
}.

(** [x || 1]: zero and [NaN] are falsy. *)
Definition orOne (x : float) : float :=
  if PrimFloat.is_zero x || PrimFloat.is_nan x then 1%float else x.

(** [(max - min) / binCount || 1] *)
Definition binSizeOf (min max binCount : float) : float :=
  orOne ((max - min) / binCount)%float.

(** The index the [forEach] computes for a value. *)
Definition binIndex (min binSize binCount v : float) : float :=
  let idx := mathFloor ((v - min) / binSize)%float in
  if PrimFloat.leb binCount idx then (binCount - 1)%float else idx.

(** [bins[i].count += 1]; [None] when [bins[i]] is [undefined], where the
    statement throws a [TypeError]. *)
Definition bump (i : nat) (bins : list Bin) : option (list Bin) :=
  match nth_error bins i with
  | Some b => Some (firstn i bins ++ mkBin (bin b) (S (count b)) :: skipn (S i) bins)
  | None => None
  end.

(** The counting [values.forEach]. *)
Fixpoint countValues (min binSize binCount : float) (values : list float)
    (bins : list Bin) : option (list Bin) :=
  match values with
  | [] => Some bins
  | v :: t =>
      match smallInteger (binIndex min binSize binCount v) with
      | Some i =>
          match bump i bins with
          | Some bins' => countValues min binSize binCount t bins'
          | None => None
          end
      | None => None
      end
  end.

(** The text of a boundary: [`${Number(x.toFixed(2))}`]. *)
Definition boundary `{JsText} (x : float) : string :=
  numberToString (Number (toFixed x 2)).

(** The labelling [bins.forEach]. *)
Definition labelBins `{JsText} (min binSize : float) (bins : list Bin) : list Bin :=
  mapi (fun b i =>
          let start := (min + ofZ (Z.of_nat i) * binSize)%float in
          let end_ := (start + binSize)%float in
          mkBin (boundary start ++ "–" ++ boundary end_)%string (count b))
       bins.

(** What the histogram branch hands to the chart. *)
Inductive HistogramResult : Type :=
  | NoNumericData (column : string)
  | HistogramBars (bins : list Bin)
  | Thrown.

(** The binning of the numeric values of the chosen column. *)
Definition histogramOf `{JsText} (column : string) (values : list float)
    (histogramBins : float) : HistogramResult :=
  match values with
  | [] => NoNumericData column
  | _ =>
      let min := mathMin values in
      let max := mathMax values in
      let binCount := mathMax [1%float; histogramBins] in
      let binSize := binSizeOf min max binCount in
      match arrayLength binCount with
      | None => Thrown
      | Some n =>
          match countValues min binSize binCount values (repeat (mkBin "" 0) n) with
          | Some bins => HistogramBars (labelBins min binSize bins)
          | None => Thrown
          end
      end
  end.

(** The histogram branch of [renderChartContents]. *)
Definition renderHistogram `{JsText} (st : App) : HistogramResult :=
  let chartRows := activeRows (rows st) in
  let column := histogramColumn (mapping st) in
  histogramOf column (numbersOf (map (fun r => getProp r column) chartRows))
    (histogramBins st).

(** The number of values whose bin is [j]. *)
Definition valuesInBin (min binSize binCount : float) (values : list float) (j : nat)
  : nat :=
  List.length
    (filter (fun v => match smallInteger (binIndex min binSize binCount v) with
                      | Some i => (i =? j)%nat
                      | None => false
                      end)
            values).

(** Every value's index names one of [n] bins. *)
Definition indicesWithin (min binSize binCount : float) (values : list float) (n : nat)
  : bool :=
  forallb (fun v => match smallInteger (binIndex min binSize binCount v) with
                    | Some i => (i <? n)%nat
                    | None => false
                    end)
          values.

(** ** The initial state of the component (lines 45-101) *)

Definition palette : list string :=
  ["#ef4444"; "#f59e0b"; "#3b82f6"; "#10b981"; "#6366f1"; "#ec4899"; "#14b8a6"].

Definition mkRow (key revenue cogs opex rnd profit : float) : DataRow :=
  [("key", JNum key); ("Revenue", JNum revenue); ("COGS", JNum cogs);
   ("Operating Expenses", JNum opex); ("R&D", JNum rnd); ("Net Profit", JNum profit)].

Definition initialRows : list DataRow :=
  [mkRow 2019 120 48 30 12 30;
   mkRow 2020 135 53 33 14 35;
   mkRow 2021 155 60 36 16 43;
   mkRow 2022 178 68 40 18 52;
   mkRow 2023 205 78 44 20 63;
   mkRow 2024 236 90 49 22 75;
   mkRow 2025 264 100 53 24 87]%float.

Definition initialSeries : list SeriesMeta :=
  [mkSeries "Revenue" "Revenue" "#ef4444" true;
   mkSeries "COGS" "COGS" "#f59e0b" true;
   mkSeries "Operating Expenses" "Operating Expenses" "#3b82f6" true;
   mkSeries "R&D" "R&D" "#10b981" true;
   mkSeries "Net Profit" "Net Profit" "#6366f1" true].

Definition initialApp : App :=
  mkApp initialRows initialSeries (visibleIds initialSeries)
        (mkMapping "key" "key" "Revenue" "" "" "" "Revenue" "Revenue")
        line 10%float
        (mkEditing None "" None "")
        (mkDrag None None None None)
        (mkSweep None [] []).

(** ** The mapping pickers *)

(** [onChange] of the mapping pickers: the slot setters. *)
Definition setScatterYColumn (v : string) (st : App) : App :=
  let m := mapping st in
  set_mapping (mkMapping (labelColumn m) (scatterXColumn m) v (scatterSizeColumn m)
                 (scatterColorColumn m) (barColorColumn m) (pieSeriesColumn m)
                 (histogramColumn m)) st.

Definition setScatterSizeColumn (v : string) (st : App) : App :=
  let m := mapping st in
  set_mapping (mkMapping (labelColumn m) (scatterXColumn m) (scatterYColumn m) v
                 (scatterColorColumn m) (barColorColumn m) (pieSeriesColumn m)
                 (histogramColumn m)) st.

Definition setScatterColorColumn (v : string) (st : App) : App :=
  let m := mapping st in
  set_mapping (mkMapping (labelColumn m) (scatterXColumn m) (scatterYColumn m)
                 (scatterSizeColumn m) v (barColorColumn m) (pieSeriesColumn m)
                 (histogramColumn m)) st.

Definition setBarColorColumn (v : string) (st : App) : App :=
  let m := mapping st in
  set_mapping (mkMapping (labelColumn m) (scatterXColumn m) (scatterYColumn m)
                 (scatterSizeColumn m) (scatterColorColumn m) v (pieSeriesColumn m)
                 (histogramColumn m)) st.

(** [setChartType(t)] *)
Definition setChartType (t : ChartType) (st : App) : App :=
  mkApp (rows st) (series st) (selectedSeriesIds st) (mapping st) t
        (histogramBins st) (editing st) (drag st) (sweep st).

(** ** Operations as the user performs them, invariants and scenarios *)

(** The id of the first visible column in registry order, or the empty
    sentinel when no column is visible. *)
Definition firstVisibleId (ser : list SeriesMeta) : string :=
  match find visible ser with
  | Some s => id s
  | None => ""
  end.

(** The registry and mapping of the two-column scenario: [Revenue] and
    [COGS] visible, the Y axis on [COGS], the scatter chart shown. *)
Definition twoColumnApp : App :=
  mkApp [] [mkSeries "Revenue" "Revenue" "#ef4444" true;
            mkSeries "COGS" "COGS" "#f59e0b" true]
        ["Revenue"; "COGS"]
        (mkMapping "key" "key" "COGS" "" "" "" "Revenue" "Revenue")
        scatter 10%float
        (mkEditing None "" None "")
        (mkDrag None None None None)
        (mkSweep None [] []).

(** The update [commitRenameSeries] makes when it accepts the text. *)
Definition relabel (eid trimmed : string) (ser : list SeriesMeta) : list SeriesMeta :=
  map (fun s => if id s =? eid then withLabel trimmed s else s) ser.

(** The text is not empty and no other column's label equals it up to case. *)
Definition renameAccepted `{JsText} (eid trimmed : string) (ser : list SeriesMeta) : bool :=
  negb (trimmed =? "")
  && negb (existsb (fun s => negb (id s =? eid)
                             && (toLowerCase (label s) =? toLowerCase trimmed)) ser).

(** No two columns have labels that are equal up to case. *)
Definition labelsDistinct `{JsText} (ser : list SeriesMeta) : Prop :=
  NoDup (map (fun s => toLowerCase (label s)) ser).

(** A sequence of rename operations, each a column id and the text typed. *)
Definition renameAll `{JsText} (ops : list (string * string)) (st : App) : App :=
  fold_left (fun st op => rename (fst op) (snd op) st) ops st.

(** The registry operation [reorder(sourceId, targetId)] as the user
    performs it: drag the handle of the source column, drop on the target. *)
Definition reorderColumn (sourceId targetId : string) (st : App) : App :=
  onSeriesDrop targetId (onSeriesDragStart sourceId st).

(** The row operation [reorder(sourceKey, targetKey, position)]: drag the
    handle of the source row, hover the target's upper or lower half, drop. *)
Definition reorderRow (sourceKey targetKey : jsval) (pos : DragPosition) (st : App) : App :=
  onRowDrop targetKey (onRowDragOver targetKey pos (onRowDragStart sourceKey st)).

(** No two rows have keys that are [===]. *)
Definition keysDistinct (rs : list DataRow) : Prop :=
  forall i j ri rj,
    nth_error rs i = Some ri -> nth_error rs j = Some rj -> i <> j ->
    strict_eq (getProp ri "key") (getProp rj "key") = false.

(** [keysDistinct] as a test. *)
Fixpoint keysDistinctb (rs : list DataRow) : bool :=
  match rs with
  | [] => true
  | r :: t =>
      forallb (fun z => negb (strict_eq (getProp r "key") (getProp z "key"))
                        && negb (strict_eq (getProp z "key") (getProp r "key"))) t
      && keysDistinctb t
  end.

(** The registry of the three-column scenario. *)
Definition threeColumnApp : App :=
  mkApp [] [mkSeries "Revenue" "Revenue" "#ef4444" true;
            mkSeries "COGS" "COGS" "#f59e0b" true;
            mkSeries "R&D" "R&D" "#10b981" true]
        ["Revenue"; "COGS"; "R&D"]
        (mkMapping "key" "key" "Revenue" "" "" "" "Revenue" "Revenue")
        line 10%float
        (mkEditing None "" None "")
        (mkDrag None None None None)
        (mkSweep None [] []).

(** The row operation [renameKey(rowIndex, text)] as the user performs it:
    open the row header for editing, type the text, commit. *)
Definition renameRow `{JsText} (rowIndex : nat) (text : string) (st : App) : App :=
  commitEditRowHeader (setEditingRowValue text (startEditRowHeader rowIndex st)).

(** The row store of the two-row scenario: the rows keyed 2019 and 2020. *)
Definition twoRowApp : App := set_rows (firstn 2 initialRows) initialApp.

(** The ten values of the binning scenario. *)
Definition oneToTen : list float := [1; 2; 3; 4; 5; 6; 7; 8; 9; 10]%float.

(** The press is one [handleSeriesHeaderMouseDown] and
    [handleRowHeaderMouseDown] act on, as far as the event decides: the
    primary button, outside the handle and the two buttons of the header. *)
Definition onHeaderItself (e : MouseEvent) : bool :=
  (button e =? 0)%nat && negb (inDragHandle e || inRenameBtn e || inVisibilityBtn e).

(** The row headers the pointer passes over, each with the index and the key
    it was rendered with. *)
Definition enterRows (touches : list (nat * jsval)) : list Event :=
  map (fun p => RowMouseEnter (fst p) (snd p)) touches.

(** The indices of the touches whose key was not met before. *)
Fixpoint distinctRows (seen : list jsval) (l : list (nat * jsval)) : list nat :=
  match l with
  | [] => []
  | (ri, k) :: t =>
      if keySetHas seen k then distinctRows seen t
      else ri :: distinctRows (seen ++ [k]) t
  end.

(** The distinct members of a list of indices, each at its first occurrence. *)
Fixpoint distinctNats (seen l : list nat) : list nat :=
  match l with
  | [] => []
  | i :: t => if existsb (Nat.eqb i) seen then distinctNats seen t
              else i :: distinctNats (seen ++ [i]) t
  end.

(** [{ ...r, _hidden: !r._hidden }] *)
Definition toggleHidden (r : DataRow) : DataRow :=
  setProp r "_hidden" (JBool (negb (truthy (getProp r "_hidden")))).

(** The touches name rows as the table renders them: two touches carry the
    same key exactly when they are of the same row. *)
Definition touchesOfRows (touches : list (nat * jsval)) : Prop :=
  forall p q, In p touches -> In q touches ->
              same_value_zero (snd p) (snd q) = (fst p =? fst q)%nat.

(** The row store after the accepted rename of the second row's key to
    [2019.0]: both rows hold the key 2019. *)
Definition sharedKeyApp : App := renameRow 1 "2019.0" twoRowApp.

(** ** Cell edits and the end of a drag *)

(** The value [handleCellChange] stores for the text of the cell input:
    [parsed = value === '' ? '' : Number(value)], then
    [isNaN(parsed) ? value : parsed]. The empty text is kept as text, since
    [isNaN('')] is false. *)
Definition cellValue `{JsText} (value : string) : jsval :=
  if value =? "" then JStr ""
  else
    let parsed := Number value in
    if PrimFloat.is_nan parsed then JStr value else JNum parsed.

(** The [setRows] updater of [handleCellChange] (lines 134-139). *)
Definition handleCellChangeIn `{JsText} (rowIndex : nat) (field value : string)
    (prev : list DataRow) : list DataRow :=
  let row := match nth_error prev rowIndex with Some r => r | None => [] end in
  arraySet rowIndex (setProp row field (cellValue value)) prev.

(** [handleCellChange(rowIndex, field, value)] (lines 132-142). *)
Definition handleCellChange `{JsText} (rowIndex : nat) (field value : string) (st : App)
  : App :=
  set_rows (handleCellChangeIn rowIndex field value (rows st)) st.

(** [cancelRename()] (lines 172-174). *)
Definition cancelRename (st : App) : App := clearEditingSeriesId st.

(** [onRowDragEnd()] (line 237). *)
Definition onRowDragEnd (st : App) : App :=
  let st' := clearRowDragState st in
  set_drag (mkDrag (dragSeriesId (drag st')) None
              (rowDragOverKey (drag st')) (rowDragPosition (drag st'))) st'.

(** The [dragover] events of a row drag: the rows hovered, each with the
    half the pointer is over. *)
Definition hoverRows (overs : list (jsval * DragPosition)) (st : App) : App :=
  fold_left (fun st o => onRowDragOver (fst o) (snd o) st) overs st.

(** Whether a row is hidden: [r._hidden] as a condition. *)
Definition isHidden (r : DataRow) : bool := truthy (getProp r "_hidden").

(** ** The remaining pickers (lines 530-646) *)

(** [onChange] of the label, X-axis, value-series and histogram pickers. *)
Definition setLabelColumn (v : string) (st : App) : App :=
  let m := mapping st in
  set_mapping (mkMapping v (scatterXColumn m) (scatterYColumn m) (scatterSizeColumn m)
                 (scatterColorColumn m) (barColorColumn m) (pieSeriesColumn m)
                 (histogramColumn m)) st.

Definition setScatterXColumn (v : string) (st : App) : App :=
  let m := mapping st in
  set_mapping (mkMapping (labelColumn m) v (scatterYColumn m) (scatterSizeColumn m)
                 (scatterColorColumn m) (barColorColumn m) (pieSeriesColumn m)
                 (histogramColumn m)) st.

Definition setPieSeriesColumn (v : string) (st : App) : App :=
  let m := mapping st in
  set_mapping (mkMapping (labelColumn m) (scatterXColumn m) (scatterYColumn m)
                 (scatterSizeColumn m) (scatterColorColumn m) (barColorColumn m) v
                 (histogramColumn m)) st.

Definition setHistogramColumn (v : string) (st : App) : App :=
  let m := mapping st in
  set_mapping (mkMapping (labelColumn m) (scatterXColumn m) (scatterYColumn m)
                 (scatterSizeColumn m) (scatterColorColumn m) (barColorColumn m)
                 (pieSeriesColumn m) v) st.

(** [onToggleSelect(id)] of the multi-series picker (line 622):
    [prev.includes(id) ? prev.filter(x => x !== id) : [...prev, id]]. *)
Definition onToggleSelect (i : string) (st : App) : App :=
  let prev := selectedSeriesIds st in
  set_selectedSeriesIds
    (if includes prev i then filter (fun x => negb (x =? i)) prev else prev ++ [i]) st.

(** The number the bins input stores for its text (line 565):
    [Math.max(1, Math.min(50, Number(text) || 10))]. *)
Definition histogramBinsInput `{JsText} (text : string) : float :=
  let n := Number text in
  mathMax [1%float; mathMin [50%float; if truthy (JNum n) then n else 10%float]].

Definition setHistogramBins (v : float) (st : App) : App :=
  mkApp (rows st) (series st) (selectedSeriesIds st) (mapping st) (chartType st)
        v (editing st) (drag st) (sweep st).

(** ** What a render derives from the state (lines 300-333) *)

Definition dataVisibleSeries (st : App) : list SeriesMeta :=
  filter visible (series st).

Definition chartSeries (st : App) : list SeriesMeta :=
  filter (fun s => includes (selectedSeriesIds st) (id s)) (dataVisibleSeries st).

(** [activeRows.map(r => String(r[labelColumn] ?? r.key))] *)
Definition visibleRowLabels `{JsText} (st : App) : list string :=
  map (fun r => String_ (match getProp r (labelColumn (mapping st)) with
                         | JUndefined => getProp r "key"
                         | v => v
                         end))
      (activeRows (rows st)).

Definition dataVisibleSeriesLabels (st : App) : list string :=
  map label (dataVisibleSeries st).

(** [arr.join(', ')] *)
Fixpoint join (arr : list string) : string :=
  match arr with
  | [] => ""
  | [x] => x
  | x :: t => (x ++ ", " ++ join t)%string
  end.

(** The [for] loop of [summarize], [out] being what it has gathered and
    [arr] the items it has not read yet. Lengths are those of the model's
    strings, which are JavaScript's for ASCII text. *)
Fixpoint summarizeLoop (maxChars : nat) (out : string) (arr : list string) : string :=
  match arr with
  | [] => out
  | x :: t =>
      let next := ((if out =? "" then "" else out ++ ", ") ++ x)%string in
      if (maxChars <? String.length next)%nat then (out ++ "…")%string
      else summarizeLoop maxChars next t
  end.

(** [summarize(arr, maxChars)] (lines 308-318). *)
Definition summarize (arr : list string) (maxChars : nat) : string :=
  let full := join arr in
  if (String.length full <=? maxChars)%nat then full
  else summarizeLoop maxChars "" arr.

(** [currentXColumn] (line 321). *)
Definition currentXColumn (st : App) : string :=
  if ChartType_eqb (chartType st) scatter then scatterXColumn (mapping st)
  else labelColumn (mapping st).

(** The number a property name stands for when it is an array index: the
    decimal text, without a leading zero, of an integer below [2^32 - 1]. *)
Fixpoint decimalValue (s : string) (acc : Z) : option Z :=
  match s with
  | EmptyString => Some acc
  | String c t =>
      if isDigit c
      then decimalValue t (10 * acc + (Z.of_nat (nat_of_ascii c) - 48))%Z
      else None
  end.

Definition arrayIndex (k : string) : option Z :=
  match k with
  | EmptyString => None
  | String "0" EmptyString => Some 0%Z
  | String "0" _ => None
  | _ =>
      match decimalValue k 0 with
      | Some n => if (n <? 2 ^ 32 - 1)%Z then Some n else None
      | None => None
      end
  end.

Fixpoint insertKey (n : Z) (k : string) (l : list (Z * string)) : list (Z * string) :=
  match l with
  | [] => [(n, k)]
  | (m, k') :: t => if (n <? m)%Z then (n, k) :: l else (m, k') :: insertKey n k t
  end.

(** [Object.keys(r)]: the array indices among the property names in
    ascending order, then the other names in insertion order. *)
Definition objectKeys (r : DataRow) : list string :=
  let names := map fst r in
  map snd
    (fold_right (fun k acc => match arrayIndex k with
                              | Some n => insertKey n k acc
                              | None => acc
                              end) [] names)
  ++ filter (fun k => match arrayIndex k with Some _ => false | None => true end) names.

(** [labelOptions] (lines 329-333): the property names of the first row
    that are not ids of hidden columns. *)
Definition labelOptions (st : App) : list string :=
  match rows st with
  | [] => ["key"]
  | r0 :: _ =>
      let hidden := map id (filter (fun s => negb (visible s)) (series st)) in
      filter (fun c => negb (includes hidden c)) (objectKeys r0)
  end.

(** ** The colour-by scale (lines 349-359, 452-461 and 488-497) *)

(** [typeof raw === 'boolean' ? String(raw) : raw] *)
Definition colorKey `{JsText} (raw : jsval) : jsval :=
  match raw with
  | JBool _ => JStr (String_ raw)
  | _ => raw
  end.

(** [distinct.includes(v)], which compares by SameValueZero, and
    [distinct.indexOf(v)], which compares by [===]; [None] stands for [-1]. *)
Definition valueIncludes (l : list jsval) (v : jsval) : bool :=
  existsb (fun y => same_value_zero y v) l.

Definition indexOf (l : list jsval) (v : jsval) : option nat :=
  findIndex (fun y => strict_eq y v) l.

(** One round of the [forEach] that gathers [distinct]:
    [if (!distinct.includes(v)) distinct.push(v)]. *)
Definition gatherValue `{JsText} (distinct : list jsval) (raw : jsval) : list jsval :=
  let v := colorKey raw in
  if valueIncludes distinct v then distinct else distinct ++ [v].

(** The [distinct] array gathered from the raw values. *)
Definition distinctOf `{JsText} (raws : list jsval) : list jsval :=
  fold_left gatherValue raws [].

(** The function the scale returns, on [distinct]:
    [palette[idx % palette.length]], which is [undefined] ([None]) at the
    index [-1]. *)
Definition scaleColor `{JsText} (distinct : list jsval) (v : jsval) : option string :=
  match indexOf distinct (colorKey v) with
  | Some idx => nth_error palette (idx mod List.length palette)
  | None => None
  end.

(** [barColorScale] of the bar and stacked-bar branches. *)
Definition barColorScale `{JsText} (barColorColumn : string) (chartRows : list DataRow)
    (v : jsval) : option string :=
  if barColorColumn =? "" then None
  else scaleColor (distinctOf (map (fun r => getProp r barColorColumn) chartRows)) v.

(** The fill of the bar of series [s] at row [r]:
    [barColorScale(r[barColorColumn]) || s.color], and [s.color] when no
    colour column is chosen. *)
Definition barCellFill `{JsText} (barColorColumn : string) (chartRows : list DataRow)
    (s : SeriesMeta) (r : DataRow) : string :=
  match barColorScale barColorColumn chartRows (getProp r barColorColumn) with
  | Some c => if c =? "" then color s else c
  | None => color s
  end.

(** The fill of the scatter point of row [r]:
    [scatterColorColumn ? colorScale(d.colorVal) : palette[0]]. *)
Definition scatterCellFill `{JsText} (scatterColorColumn : string)
    (chartRows : list DataRow) (r : DataRow) : option string :=
  if scatterColorColumn =? "" then nth_error palette 0
  else scaleColor (distinctOf (map (fun r => getProp r scatterColorColumn) chartRows))
         (getProp r scatterColorColumn).

(** Not the number [NaN]. *)
Definition notNaN (v : jsval) : Prop :=
  match v with
  | JNum x => PrimFloat.is_nan x = false
  | _ => True
  end.

(** ** The component as a whole: what the user can do, and the states
    that can arise *)

(** The events of the user interface that reach a handler of the
    component, each with what the element it comes from passes on. *)
Inductive Action : Type :=
  | CellChange (rowIndex : nat) (field value : string)
  | HideRow (index : nat)
  | ShowAllRows
  | ShowAllSeries
  | ToggleSeriesVisible (i : string)
  | StartRenameSeries (i : string)
  | TypeSeriesName (text : string)
  | CommitRenameSeries
  | CancelRename
  | SeriesDragStart (i : string)
  | SeriesDrop (targetId : string)
  | RowDragStart (rowKey : jsval)
  | RowDragOver (targetKey : jsval) (pos : DragPosition)
  | RowDrop (targetKey : jsval)
  | RowDragEnd
  | StartEditRowHeader (rowIndex : nat)
  | TypeRowHeader (text : string)
  | CommitEditRowHeader
  | CancelEditRowHeader
  | Pointer (ev : Event)
  | PickChartType (t : ChartType)
  | PickLabelColumn (c : string)
  | PickScatterX (c : string)
  | PickScatterY (c : string)
  | PickScatterSize (c : string)
  | PickScatterColor (c : string)
  | PickBarColor (c : string)
  | PickPieSeries (c : string)
  | PickHistogramColumn (c : string)
  | TypeBins (text : string)
  | ToggleSelect (i : string).

(** The handler each event runs. *)
Definition perform `{JsText} (a : Action) (st : App) : App :=
  match a with
  | CellChange rowIndex field value => handleCellChange rowIndex field value st
  | HideRow index => hideRow index st
  | ShowAllRows => showAllRows st
  | ShowAllSeries => showAllSeries st
  | ToggleSeriesVisible i => toggleSeriesVisible i st
  | StartRenameSeries i => startRenameSeries i st
  | TypeSeriesName text => setEditingValue text st
  | CommitRenameSeries => commitRenameSeries st
  | CancelRename => cancelRename st
  | SeriesDragStart i => onSeriesDragStart i st
  | SeriesDrop targetId => onSeriesDrop targetId st
  | RowDragStart rowKey => onRowDragStart rowKey st
  | RowDragOver targetKey pos => onRowDragOver targetKey pos st
  | RowDrop targetKey => onRowDrop targetKey st
  | RowDragEnd => onRowDragEnd st
  | StartEditRowHeader rowIndex => startEditRowHeader rowIndex st
  | TypeRowHeader text => setEditingRowValue text st
  | CommitEditRowHeader => commitEditRowHeader st
  | CancelEditRowHeader => cancelEditRowHeader st
  | Pointer ev => handle ev st
  | PickChartType t => setChartType t st
  | PickLabelColumn c => setLabelColumn c st
  | PickScatterX c => setScatterXColumn c st
  | PickScatterY c => setScatterYColumn c st
  | PickScatterSize c => setScatterSizeColumn c st
  | PickScatterColor c => setScatterColorColumn c st
  | PickBarColor c => setBarColorColumn c st
  | PickPieSeries c => setPieSeriesColumn c st
  | PickHistogramColumn c => setHistogramColumn c st
  | TypeBins text => setHistogramBins (histogramBinsInput text) st
  | ToggleSelect i => onToggleSelect i st
  end.

(** What the render guarantees of an event. The cell inputs and the row
    header buttons are rendered by [rows.map((r, ri) => ...)], so the index
    they pass is the index of a row (lines 803-861); the multi-series
    picker is rendered with [dataVisibleSeries], so the id it passes is the
    id of a visible column (lines 619-624). Nothing is asked of the other
    events. *)
Definition offered (a : Action) (st : App) : bool :=
  match a with
  | CellChange rowIndex _ _ => (rowIndex <? List.length (rows st))%nat
  | StartEditRowHeader rowIndex => (rowIndex <? List.length (rows st))%nat
  | ToggleSelect i => includes (visibleIds (series st)) i
  | _ => true
  end.

(** The two effects, one by one. *)
Definition repairSelection (st : App) : App :=
  set_selectedSeriesIds (selectionEffect (series st) (selectedSeriesIds st)) st.

Definition reconcile (st : App) : App :=
  set_mapping (reconciler (series st) (mapping st)) st.

(** The states the component can be in after a render and its effects.
    The reconciler has run: it runs whenever the registry or one of its
    slots changed, and changes nothing when they did not. The selection
    effect runs only after a render in which [series] is a new array; both
    cases are allowed after every event. *)
Inductive reachable `{JsText} : App -> Prop :=
  | reach_initial : reachable initialApp
  | reach_event (st : App) (a : Action) :
      reachable st -> offered a st = true ->
      reachable (reconcile (perform a st))
  | reach_event_series (st : App) (a : Action) :
      reachable st -> offered a st = true ->
      reachable (reconcile (repairSelection (perform a st))).

(** A column as the data model identifies it: its id and its colour. *)
Definition idAndColor (s : SeriesMeta) : string * string := (id s, color s).

(** What every event and effect keeps of a state: the number of rows, the
    columns as the data model identifies them, a selection of visible
    columns without duplicates, a row header edit that names a row, and
    labels that differ up to case if the initial ones do. *)
Definition sound `{JsText} (st : App) : Prop :=
  List.length (rows st) = List.length initialRows
  /\ Permutation (map idAndColor (series st)) (map idAndColor initialSeries)
  /\ (forall i, In i (selectedSeriesIds st) -> In i (visibleIds (series st)))
  /\ NoDup (selectedSeriesIds st)
  /\ (forall idx, editingRowIndex (editing st) = Some idx ->
                  (idx < List.length (rows st))%nat)
  /\ (labelsDistinct initialSeries -> labelsDistinct (series st)).

(** ** Two states the user reaches from the initial one *)

(** The second row's key renamed to [2019.0]: the header of the row at
    index 1 is opened, the text typed and the edit committed. *)
Definition renamedKeyApp : App :=
  reconcile (perform (H := HostText) CommitEditRowHeader
    (reconcile (perform (H := HostText) (TypeRowHeader "2019.0")
      (reconcile (perform (H := HostText) (StartEditRowHeader 1) initialApp))))).

(** The histogram chosen as the chart type and [2.5] typed into the bins
    input. *)
Definition fractionalBinsApp : App :=
  reconcile (perform (H := HostText) (TypeBins "2.5")
    (reconcile (perform (H := HostText) (PickChartType histogram) initialApp))).

(** * Properties *)

(** ** Arrays and strings *)

Lemma includes_In (l : list string) (x : string) :
  includes l x = true <-> In x l.
Proof.
  unfold includes. rewrite existsb_exists. split.
  - intros [y [Hy He]]. apply String.eqb_eq in He. now subst.
  - intro Hx. exists x. split; [assumption | apply String.eqb_refl].
Qed.

Lemma includes_false (l : list string) (x : string) :
  includes l x = false <-> ~ In x l.
Proof.
  rewrite <- includes_In. destruct (includes l x); split; intro; congruence.
Qed.

Lemma firstOrEmpty_hd (l : list string) : firstOrEmpty l = hd "" l.
Proof.
  destruct l as [|s t]; [reflexivity|]. unfold firstOrEmpty. simpl.
  destruct (String.eqb_spec s ""); congruence.
Qed.

Lemma visibleIds_first (ser : list SeriesMeta) :
  hd "" (visibleIds ser) = firstVisibleId ser.
Proof.
  unfold visibleIds, firstVisibleId.
  induction ser as [|s t IH]; [reflexivity|].
  simpl. destruct (visible s); [reflexivity | exact IH].
Qed.

Lemma visibleIds_In (ser : list SeriesMeta) (i : string) :
  In i (visibleIds ser) <-> exists s, In s ser /\ visible s = true /\ id s = i.
Proof.
  unfold visibleIds. rewrite in_map_iff. split.
  - intros [s [Hi Hs]]. apply filter_In in Hs. exists s. tauto.
  - intros [s [Hs [Hv Hi]]]. exists s. split; [assumption|].
    apply filter_In. tauto.
Qed.

(** ** The effects leave the registry, the rows and the gesture alone *)

Lemma runEffects_series (st : App) : series (runEffects st) = series st.
Proof. reflexivity. Qed.

Lemma runEffects_rows (st : App) : rows (runEffects st) = rows st.
Proof. reflexivity. Qed.

Lemma runEffects_sweep (st : App) : sweep (runEffects st) = sweep st.
Proof. reflexivity. Qed.

Lemma runEffects_selected (st : App) :
  selectedSeriesIds (runEffects st) = selectionEffect (series st) (selectedSeriesIds st).
Proof. reflexivity. Qed.

Lemma runEffects_mapping (st : App) :
  mapping (runEffects st) = reconciler (series st) (mapping st).
Proof. reflexivity. Qed.

(** ** The multi-series selection *)

Lemma selectionEffect_kept (ser : list SeriesMeta) (prev : list string) (a : string)
    (l : list string) :
  filter (fun i => includes (visibleIds ser) i) prev = a :: l ->
  selectionEffect ser prev = a :: l.
Proof. unfold selectionEffect. intros ->. reflexivity. Qed.

Lemma selectionEffect_default (ser : list SeriesMeta) (prev : list string) :
  filter (fun i => includes (visibleIds ser) i) prev = [] ->
  selectionEffect ser prev
  = firstn (Nat.min 3 (List.length (visibleIds ser))) (visibleIds ser).
Proof. unfold selectionEffect. intros ->. reflexivity. Qed.

(** C3: after a change of column visibility the selection effect keeps every
    selected id whose column is visible; when none is, the selection becomes
    the first [min 3 n] visible ids in registry order; so the selection is
    not empty while a column is visible. Through a toggle of column [i] and
    the effects after it, every other selected id whose column is visible
    stays selected. *)
Theorem selection_reconciled :
  (forall st : App,
      let prev := selectedSeriesIds st in
      let vis := visibleIds (series st) in
      let next := selectedSeriesIds (runEffects st) in
      (forall i, In i prev -> In i vis -> In i next)
      /\ ((forall i, In i prev -> ~ In i vis) ->
          next = firstn (Nat.min 3 (List.length vis)) vis)
      /\ (vis <> [] -> next <> []))
  /\ (forall (st : App) (i j : string),
         let st' := runEffects (toggleSeriesVisible i st) in
         In j (selectedSeriesIds st) ->
         j <> i ->
         In j (visibleIds (series st')) ->
         In j (selectedSeriesIds st')).
Proof.
  assert (Hpass : forall st : App,
             let prev := selectedSeriesIds st in
             let vis := visibleIds (series st) in
             let next := selectedSeriesIds (runEffects st) in
             (forall i, In i prev -> In i vis -> In i next)
             /\ ((forall i, In i prev -> ~ In i vis) ->
                 next = firstn (Nat.min 3 (List.length vis)) vis)
             /\ (vis <> [] -> next <> [])); [|split; [exact Hpass|]].
  2:{ intros st i j st' Hsel Hne Hvis.
      apply (proj1 (Hpass (toggleSeriesVisible i st)) j); [|exact Hvis].
      unfold toggleSeriesVisible. simpl. apply filter_In. split; [exact Hsel|].
      apply negb_true_iff. now apply String.eqb_neq. }
  intros st prev vis next. subst next. rewrite runEffects_selected.
  fold prev. fold vis.
  destruct (filter (fun i => includes vis i) prev) as [|a l] eqn:F.
  - rewrite (selectionEffect_default _ _ F). fold vis. repeat split.
    + intros i Hp Hv. exfalso.
      assert (Hin : In i (filter (fun j => includes vis j) prev)).
      { apply filter_In. split; [assumption | now apply includes_In]. }
      rewrite F in Hin. exact Hin.
    + destruct vis as [|v vis']; [congruence|]. intros _. simpl. discriminate.
  - rewrite (selectionEffect_kept _ _ _ _ F). repeat split.
    + intros i Hp Hv. rewrite <- F. apply filter_In.
      split; [assumption | now apply includes_In].
    + intros Hnone. exfalso.
      assert (Hin : In a (filter (fun j => includes vis j) prev)).
      { rewrite F. now left. }
      apply filter_In in Hin. destruct Hin as [Hp Hv].
      apply includes_In in Hv. exact (Hnone a Hp Hv).
    + intros _. discriminate.
Qed.

(** With only [Revenue] selected, hiding [Revenue] selects the first three
    columns still visible. *)
Example selection_default_after_hide :
  selectedSeriesIds
    (runEffects (toggleSeriesVisible "Revenue"
                   (set_selectedSeriesIds ["Revenue"] initialApp)))
  = ["COGS"; "Operating Expenses"; "R&D"].
Proof. reflexivity. Qed.

(** C10: toggling a column's visibility takes its id out of the selection in
    either direction; after the effects the id is selected again only when
    no selected id was visible and the default repopulated the selection. *)
Theorem toggle_unselects :
  forall (i : string) (st : App),
    let st1 := toggleSeriesVisible i st in
    let st2 := runEffects st1 in
    ~ In i (selectedSeriesIds st1)
    /\ (In i (selectedSeriesIds st2) ->
        filter (fun j => includes (visibleIds (series st1)) j) (selectedSeriesIds st1) = []
        /\ selectedSeriesIds st2
           = firstn (Nat.min 3 (List.length (visibleIds (series st1))))
                    (visibleIds (series st1))).
Proof.
  intros i st st1 st2.
  assert (Hout : ~ In i (selectedSeriesIds st1)).
  { subst st1. unfold toggleSeriesVisible. simpl. rewrite filter_In.
    intros [_ H]. rewrite String.eqb_refl in H. discriminate. }
  split; [exact Hout|].
  subst st2. rewrite runEffects_selected.
  destruct (filter (fun j => includes (visibleIds (series st1)) j) (selectedSeriesIds st1))
    as [|a l] eqn:F.
  - intros _. split; [reflexivity|]. now apply selectionEffect_default.
  - rewrite (selectionEffect_kept _ _ _ _ F). intro Hin. exfalso.
    rewrite <- F in Hin. apply filter_In in Hin. tauto.
Qed.

(** ** The reconciler *)

Lemma NoDup_map_injective {A B : Type} (f : A -> B) (l : list A) (a b : A) :
  NoDup (map f l) -> In a l -> In b l -> f a = f b -> a = b.
Proof.
  induction l as [|x t IH]; simpl; [tauto|].
  intros Hnd Ha Hb Hf. inversion Hnd as [|y l' Hx Ht]; subst.
  destruct Ha as [Ha|Ha], Hb as [Hb|Hb]; subst.
  - reflexivity.
  - exfalso. apply Hx. rewrite Hf. now apply in_map.
  - exfalso. apply Hx. rewrite <- Hf. now apply in_map.
  - now apply IH.
Qed.

Lemma refersHidden_true (ser : list SeriesMeta) (slot : string) :
  refersHidden ser slot = true
  <-> exists s, In s ser /\ id s = slot /\ visible s = false.
Proof.
  unfold refersHidden. rewrite existsb_exists. split.
  - intros [s [Hs H]]. apply andb_true_iff in H. destruct H as [Hi Hv].
    apply String.eqb_eq in Hi. apply negb_true_iff in Hv. now exists s.
  - intros [s [Hs [Hi Hv]]]. exists s. split; [assumption|].
    rewrite Hi, Hv, String.eqb_refl. reflexivity.
Qed.

(** With unique ids, a slot that names a hidden column is not among the
    visible ids. *)
Lemma refersHidden_not_visible (ser : list SeriesMeta) (slot : string) :
  NoDup (map id ser) -> refersHidden ser slot = true -> ~ In slot (visibleIds ser).
Proof.
  intros Hnd Hh Hv. apply refersHidden_true in Hh. apply visibleIds_In in Hv.
  destruct Hh as [s [Hs [Hi Hf]]]. destruct Hv as [s' [Hs' [Ht Hi']]].
  assert (s = s') by (apply (NoDup_map_injective id ser); congruence).
  subst s'. congruence.
Qed.

(** With unique ids, a visible id names no hidden column. *)
Lemma visible_not_refersHidden (ser : list SeriesMeta) (slot : string) :
  NoDup (map id ser) -> In slot (visibleIds ser) -> refersHidden ser slot = false.
Proof.
  intros Hnd Hv. destruct (refersHidden ser slot) eqn:E; [|reflexivity].
  exfalso. exact (refersHidden_not_visible ser slot Hnd E Hv).
Qed.

Lemma hd_visibleIds_In (ser : list SeriesMeta) :
  visibleIds ser <> [] -> In (hd "" (visibleIds ser)) (visibleIds ser).
Proof. destruct (visibleIds ser); [congruence | intros _; now left]. Qed.

Lemma reconciler_slot (vis : list string) (slot : string) :
  ~ In slot vis ->
  (if negb (includes vis slot) then firstOrEmpty vis else slot) = hd "" vis.
Proof.
  intro H. apply includes_false in H. rewrite H. simpl. apply firstOrEmpty_hd.
Qed.

(** What one pass of the reconciler leaves in a slot it repairs: a visible
    id, or the empty sentinel. *)
Lemma reconciler_slot_result (vis : list string) (slot : string) :
  let r := if negb (includes vis slot) then firstOrEmpty vis else slot in
  r = "" \/ In r vis.
Proof.
  simpl. destruct (includes vis slot) eqn:E; simpl.
  - right. now apply includes_In.
  - rewrite firstOrEmpty_hd. destruct vis as [|v t]; [now left | right; now left].
Qed.

(** C2: a value/series, histogram or Y-axis slot that names a hidden column
    is reset to the first visible column id in registry order, or to the
    empty sentinel when no column is visible; a label slot that names a
    hidden column is reset to the row-key column. With [Revenue] and [COGS]
    visible and the Y axis on [COGS], hiding [COGS] puts the Y axis on
    [Revenue] and the hidden-Y warning does not show. *)
Theorem reconciler_resets :
  (forall (ser : list SeriesMeta) (m : Mapping),
     NoDup (map id ser) ->
     let m' := reconciler ser m in
     (refersHidden ser (pieSeriesColumn m) = true ->
      pieSeriesColumn m' = firstVisibleId ser)
     /\ (refersHidden ser (histogramColumn m) = true ->
         histogramColumn m' = firstVisibleId ser)
     /\ (refersHidden ser (scatterYColumn m) = true ->
         scatterYColumn m' = firstVisibleId ser)
     /\ (refersHidden ser (labelColumn m) = true -> labelColumn m' = "key"))
  /\ (let st := runEffects (toggleSeriesVisible "COGS" twoColumnApp) in
      scatterYColumn (mapping st) = "Revenue" /\ hiddenYWarning st = false).
Proof.
  split; [|split; reflexivity].
  intros ser m Hnd m'. subst m'. unfold reconciler. simpl.
  repeat split; intro Hh; apply (refersHidden_not_visible ser _ Hnd) in Hh.
  - rewrite reconciler_slot by assumption. apply visibleIds_first.
  - rewrite reconciler_slot by assumption. apply visibleIds_first.
  - rewrite reconciler_slot by assumption. apply visibleIds_first.
  - apply includes_false in Hh. rewrite Hh. simpl.
    destruct (String.eqb_spec (labelColumn m) "key") as [e|ne]; simpl; congruence.
Qed.

(** The registry of the scenario after [COGS] was hidden: its ids are
    unique, the Y axis names the hidden column, and the pass puts it on the
    first visible column. *)
Lemma reconciler_resets_witness :
  let ser := series (toggleSeriesVisible "COGS" twoColumnApp) in
  let m := mapping twoColumnApp in
  NoDup (map id ser)
  /\ refersHidden ser (scatterYColumn m) = true
  /\ scatterYColumn (reconciler ser m) = firstVisibleId ser.
Proof.
  split; [|split].
  - simpl. repeat constructor; simpl; intuition discriminate.
  - reflexivity.
  - apply (proj1 reconciler_resets).
    + simpl. repeat constructor; simpl; intuition discriminate.
    + reflexivity.
Defined.

(** The repaired slots after a reconciler pass: the value/series, histogram
    and Y-axis slots hold the empty sentinel or do not name a hidden column,
    and neither does the label slot (no column is called [key]). *)
Theorem reconciled_slots_not_dangling :
  forall (ser : list SeriesMeta) (m : Mapping),
    NoDup (map id ser) ->
    ~ In "key" (map id ser) ->
    let m' := reconciler ser m in
    (pieSeriesColumn m' = "" \/ refersHidden ser (pieSeriesColumn m') = false)
    /\ (histogramColumn m' = "" \/ refersHidden ser (histogramColumn m') = false)
    /\ (scatterYColumn m' = "" \/ refersHidden ser (scatterYColumn m') = false)
    /\ refersHidden ser (labelColumn m') = false.
Proof.
  intros ser m Hnd Hkey m'. subst m'. unfold reconciler. simpl.
  assert (Hslot : forall slot,
             let r := if negb (includes (visibleIds ser) slot)
                      then firstOrEmpty (visibleIds ser) else slot in
             r = "" \/ refersHidden ser r = false).
  { intros slot r. destruct (reconciler_slot_result (visibleIds ser) slot) as [H|H].
    - now left.
    - right. now apply visible_not_refersHidden. }
  repeat split; try apply Hslot.
  assert (Hk : refersHidden ser "key" = false).
  { destruct (refersHidden ser "key") eqn:E; [|reflexivity]. exfalso.
    apply refersHidden_true in E. destruct E as [s [Hs [Hi _]]].
    apply Hkey. rewrite <- Hi. now apply in_map. }
  destruct (String.eqb_spec (labelColumn m) "key") as [e|ne]; simpl.
  - now rewrite e.
  - destruct (includes (visibleIds ser) (labelColumn m)) eqn:E; simpl.
    + apply visible_not_refersHidden; [assumption | now apply includes_In].
    + exact Hk.
Qed.

(** The initial registry with [COGS] hidden and the Y axis on [COGS]: the
    pass leaves the Y axis on [Revenue], a visible column. *)
Lemma reconciled_slots_not_dangling_witness :
  let ser := series (toggleSeriesVisible "COGS" initialApp) in
  let m' := reconciler ser (mapping (setScatterYColumn "COGS" initialApp)) in
  scatterYColumn m' = "Revenue"
  /\ (scatterYColumn m' = "" \/ refersHidden ser (scatterYColumn m') = false).
Proof.
  split; [reflexivity|].
  apply (reconciled_slots_not_dangling
           (series (toggleSeriesVisible "COGS" initialApp))
           (mapping (setScatterYColumn "COGS" initialApp))).
  - simpl. repeat constructor; simpl; intuition discriminate.
  - simpl. intuition discriminate.
Defined.

(** C1, on the code: the reconciler never writes the size, colour and
    bar-colour slots. With the three slots on [COGS], hiding [COGS] leaves
    each of them naming the hidden column after the effects have run, and
    running the effects again changes nothing. *)
Theorem size_and_color_slots_stay_dangling :
  let picked :=
    setBarColorColumn "COGS"
      (setScatterColorColumn "COGS" (setScatterSizeColumn "COGS" initialApp)) in
  let st := runEffects (toggleSeriesVisible "COGS" picked) in
  (scatterSizeColumn (mapping st) = "COGS"
   /\ refersHidden (series st) (scatterSizeColumn (mapping st)) = true)
  /\ (scatterColorColumn (mapping st) = "COGS"
      /\ refersHidden (series st) (scatterColorColumn (mapping st)) = true)
  /\ (barColorColumn (mapping st) = "COGS"
      /\ refersHidden (series st) (barColorColumn (mapping st)) = true)
  /\ runEffects st = st.
Proof. repeat split. Qed.

(** *** One pass of the effects is enough *)

Lemma filter_all {A : Type} (p : A -> bool) (l : list A) :
  (forall x, In x l -> p x = true) -> filter p l = l.
Proof.
  induction l as [|x t IH]; intro H; simpl; [reflexivity|].
  rewrite (H x (or_introl eq_refl)). f_equal. apply IH. intros y Hy. apply H. now right.
Qed.

Lemma firstn_member {A : Type} (n : nat) (l : list A) (x : A) :
  In x (firstn n l) -> In x l.
Proof.
  revert l. induction n as [|n IH]; intros [|y t]; simpl; try tauto.
  intros [H|H]; [now left | right; now apply IH].
Qed.

Lemma selectionEffect_visible (ser : list SeriesMeta) (prev : list string) (i : string) :
  In i (selectionEffect ser prev) -> In i (visibleIds ser).
Proof.
  destruct (filter (fun j => includes (visibleIds ser) j) prev) as [|a l] eqn:F.
  - rewrite (selectionEffect_default _ _ F). apply firstn_member.
  - rewrite (selectionEffect_kept _ _ _ _ F), <- F. intro H.
    apply filter_In in H. now apply includes_In.
Qed.

Lemma selectionEffect_idempotent (ser : list SeriesMeta) (prev : list string) :
  selectionEffect ser (selectionEffect ser prev) = selectionEffect ser prev.
Proof.
  assert (Hf : filter (fun j => includes (visibleIds ser) j) (selectionEffect ser prev)
               = selectionEffect ser prev).
  { apply filter_all. intros x Hx. apply includes_In.
    now apply (selectionEffect_visible ser prev). }
  destruct (selectionEffect ser prev) as [|a l] eqn:E.
  - rewrite (selectionEffect_default ser [] eq_refl).
    destruct (filter (fun j => includes (visibleIds ser) j) prev) as [|b k] eqn:F.
    + rewrite (selectionEffect_default ser prev F) in E. exact E.
    + rewrite (selectionEffect_kept ser prev b k F) in E. discriminate.
  - now apply selectionEffect_kept.
Qed.

Lemma reconciler_slot_idempotent (vis : list string) (slot : string) :
  let r := if negb (includes vis slot) then firstOrEmpty vis else slot in
  (if negb (includes vis r) then firstOrEmpty vis else r) = r.
Proof.
  simpl. destruct (includes vis slot) eqn:E; simpl.
  - now rewrite E.
  - destruct (includes vis (firstOrEmpty vis)); reflexivity.
Qed.

Lemma reconciler_idempotent (ser : list SeriesMeta) (m : Mapping) :
  reconciler ser (reconciler ser m) = reconciler ser m.
Proof.
  unfold reconciler. simpl. f_equal; try apply reconciler_slot_idempotent.
  destruct (String.eqb_spec (labelColumn m) "key") as [e|ne]; simpl.
  - now rewrite e.
  - destruct (includes (visibleIds ser) (labelColumn m)) eqn:E; simpl.
    + apply String.eqb_neq in ne. now rewrite ne, E.
    + reflexivity.
Qed.

(** The effects reach their result in one pass: a second pass, which React
    makes when the first one wrote a slot, changes nothing. *)
Theorem runEffects_idempotent :
  forall st : App, runEffects (runEffects st) = runEffects st.
Proof.
  intro st. unfold runEffects. simpl.
  rewrite selectionEffect_idempotent, reconciler_idempotent. reflexivity.
Qed.

(** ** Column rename *)

Lemma existsb_false_In {A : Type} (f : A -> bool) (l : list A) (x : A) :
  existsb f l = false -> In x l -> f x = false.
Proof.
  intros H Hx. destruct (f x) eqn:E; [|reflexivity].
  rewrite <- H. symmetry. apply existsb_exists. now exists x.
Qed.

Section Rename.
Context {T : JsText}.

Lemma relabel_ids (eid trimmed : string) (ser : list SeriesMeta) :
  map id (relabel eid trimmed ser) = map id ser.
Proof.
  unfold relabel. rewrite map_map. apply map_ext. intro s.
  destruct (id s =? eid); reflexivity.
Qed.

Lemma relabel_absent (eid trimmed : string) (ser : list SeriesMeta) :
  ~ In eid (map id ser) -> relabel eid trimmed ser = ser.
Proof.
  intro H. unfold relabel. rewrite <- (map_id ser) at 2.
  apply map_ext_in. intros s Hs.
  destruct (String.eqb_spec (id s) eid) as [e|ne]; [|reflexivity].
  exfalso. apply H. rewrite <- e. now apply in_map.
Qed.

Lemma relabel_labels (eid trimmed : string) (ser : list SeriesMeta) (x : string) :
  In x (map (fun s => toLowerCase (label s)) (relabel eid trimmed ser)) ->
  x = toLowerCase trimmed
  \/ exists s, In s ser /\ id s <> eid /\ x = toLowerCase (label s).
Proof.
  unfold relabel. rewrite map_map, in_map_iff. intros [s [Hx Hs]].
  destruct (String.eqb_spec (id s) eid) as [e|ne].
  - left. now rewrite <- Hx.
  - right. exists s. now rewrite <- Hx.
Qed.

Lemma relabel_distinct (eid trimmed : string) (ser : list SeriesMeta) :
  NoDup (map id ser) ->
  labelsDistinct ser ->
  existsb (fun s => negb (id s =? eid)
                    && (toLowerCase (label s) =? toLowerCase trimmed)) ser = false ->
  labelsDistinct (relabel eid trimmed ser).
Proof.
  unfold labelsDistinct.
  induction ser as [|a t IH]; simpl; intros Hid Hlab Hdup; [constructor|].
  inversion Hid as [|x l Ha Ht]; subst. inversion Hlab as [|x l Hla Hlt]; subst.
  apply orb_false_iff in Hdup. destruct Hdup as [Hda Hdt].
  destruct (String.eqb_spec (id a) eid) as [e|ne].
  - subst eid. rewrite (relabel_absent _ _ _ Ha). constructor; [|assumption].
    simpl. intro Hin. apply in_map_iff in Hin. destruct Hin as [s [Hs Hin]].
    assert (Hf := existsb_false_In _ _ s Hdt Hin). simpl in Hf.
    rewrite Hs, String.eqb_refl, andb_true_r in Hf.
    apply negb_false_iff, String.eqb_eq in Hf.
    apply Ha. rewrite <- Hf. now apply in_map.
  - simpl in Hda. apply String.eqb_neq in Hda.
    constructor; [|now apply IH].
    intro Hin. apply relabel_labels in Hin. destruct Hin as [Hin|[s [Hs [_ Hin]]]].
    + congruence.
    + apply Hla. rewrite Hin. apply in_map_iff. now exists s.
Qed.

Lemma commitRenameSeries_series (st : App) (eid : string) :
  editingSeriesId (editing st) = Some eid ->
  eid <> "" ->
  series (commitRenameSeries st)
  = if renameAccepted eid (trim (editingValue (editing st))) (series st)
    then relabel eid (trim (editingValue (editing st))) (series st)
    else series st.
Proof.
  intros He Hne. unfold commitRenameSeries, renameAccepted. rewrite He.
  apply String.eqb_neq in Hne. rewrite Hne.
  destruct (trim (editingValue (editing st)) =? ""); [reflexivity|].
  simpl. destruct (existsb _ (series st)); reflexivity.
Qed.

Lemma commitRenameSeries_invariant (st : App) :
  NoDup (map id (series st)) ->
  labelsDistinct (series st) ->
  NoDup (map id (series (commitRenameSeries st)))
  /\ labelsDistinct (series (commitRenameSeries st)).
Proof.
  intros Hid Hlab.
  destruct (editingSeriesId (editing st)) as [eid|] eqn:He.
  2:{ unfold commitRenameSeries. rewrite He. now split. }
  destruct (String.eqb_spec eid "") as [e|ne].
  { unfold commitRenameSeries. rewrite He, e. now split. }
  rewrite (commitRenameSeries_series st eid He ne).
  unfold renameAccepted.
  destruct (trim (editingValue (editing st)) =? ""); simpl; [now split|].
  destruct (existsb _ (series st)) eqn:Hdup; simpl; [now split|].
  split; [now rewrite relabel_ids | now apply relabel_distinct].
Qed.

Lemma startRenameSeries_series (i : string) (st : App) :
  series (startRenameSeries i st) = series st.
Proof. unfold startRenameSeries. destruct (find _ (series st)); reflexivity. Qed.

Lemma rename_invariant (i txt : string) (st : App) :
  NoDup (map id (series st)) ->
  labelsDistinct (series st) ->
  NoDup (map id (series (rename i txt st)))
  /\ labelsDistinct (series (rename i txt st)).
Proof.
  intros Hid Hlab. unfold rename. apply commitRenameSeries_invariant.
  - simpl. now rewrite startRenameSeries_series.
  - simpl. now rewrite startRenameSeries_series.
Qed.

Lemma renameAll_invariant (ops : list (string * string)) (st : App) :
  NoDup (map id (series st)) ->
  labelsDistinct (series st) ->
  NoDup (map id (series (renameAll ops st)))
  /\ labelsDistinct (series (renameAll ops st)).
Proof.
  revert st. induction ops as [|op ops IH]; intros st Hid Hlab; [now split|].
  simpl. destruct (rename_invariant (fst op) (snd op) st Hid Hlab) as [H1 H2].
  now apply IH.
Qed.

End Rename.

(** C5: a column rename trims the text and writes it to the targeted column
    only when it is not empty and equals no other column's label up to case,
    and leaves the registry as it is otherwise; so a registry with unique
    ids whose labels are distinct up to case keeps them distinct through
    every sequence of renames. *)
Theorem rename_keeps_labels_distinct :
  forall T : JsText,
    (forall (st : App) (eid : string),
        editingSeriesId (editing st) = Some eid ->
        eid <> "" ->
        let trimmed := trim (editingValue (editing st)) in
        series (commitRenameSeries st)
        = if renameAccepted eid trimmed (series st)
          then relabel eid trimmed (series st)
          else series st)
    /\ (forall (st : App) (ops : list (string * string)),
           NoDup (map id (series st)) ->
           labelsDistinct (series st) ->
           labelsDistinct (series (renameAll ops st))).
Proof.
  intro T. split.
  - intros st eid He Hne trimmed. now apply commitRenameSeries_series.
  - intros st ops Hid Hlab. now apply renameAll_invariant.
Qed.

(** Three renames of the initial registry: a clash up to case with another
    label is refused, a fresh label is taken, and the label the column left
    can be given to another column. *)
Lemma rename_keeps_labels_distinct_witness :
  let ops := [("COGS", "  revenue "); ("COGS", " Cost of goods "); ("R&D", "cogs")] in
  NoDup (map id (series initialApp))
  /\ labelsDistinct (series initialApp)
  /\ map label (series (renameAll ops initialApp))
     = ["Revenue"; "Cost of goods"; "Operating Expenses"; "cogs"; "Net Profit"]
  /\ labelsDistinct (series (renameAll ops initialApp)).
Proof.
  assert (Hid : NoDup (map id (series initialApp))).
  { simpl. repeat constructor; simpl; intuition discriminate. }
  assert (Hlab : labelsDistinct (series initialApp)).
  { unfold labelsDistinct. vm_compute. repeat constructor; simpl; intuition discriminate. }
  split; [exact Hid|]. split; [exact Hlab|]. split; [vm_compute; reflexivity|].
  exact (proj2 (rename_keeps_labels_distinct HostText) initialApp _ Hid Hlab).
Defined.

(** ** Reordering *)

Lemma findIndex_skip {A : Type} (p : A -> bool) (a l : list A) :
  (forall z, In z a -> p z = false) ->
  findIndex p (a ++ l) = option_map (Nat.add (List.length a)) (findIndex p l).
Proof.
  induction a as [|z a IH]; simpl; intro H.
  - destruct (findIndex p l); reflexivity.
  - rewrite (H z (or_introl eq_refl)). rewrite IH by (intros; apply H; now right).
    destruct (findIndex p l); reflexivity.
Qed.

Lemma findIndex_at {A : Type} (p : A -> bool) (a : list A) (x : A) (b : list A) :
  (forall z, In z a -> p z = false) -> p x = true ->
  findIndex p (a ++ x :: b) = Some (List.length a).
Proof.
  intros Ha Hx. rewrite findIndex_skip by assumption. simpl. rewrite Hx. simpl.
  f_equal. lia.
Qed.

Lemma findIndex_None {A : Type} (p : A -> bool) (l : list A) :
  (forall z, In z l -> p z = false) -> findIndex p l = None.
Proof.
  intro H. rewrite <- (app_nil_r l). rewrite findIndex_skip by assumption. reflexivity.
Qed.

Lemma findIndex_Some {A : Type} (p : A -> bool) (l : list A) (i : nat) :
  findIndex p l = Some i ->
  exists a x b, l = a ++ x :: b /\ List.length a = i /\ p x = true
                /\ (forall z, In z a -> p z = false).
Proof.
  revert i. induction l as [|y l IH]; simpl; intros i H; [discriminate|].
  destruct (p y) eqn:Py.
  - injection H as <-. exists [], y, l. simpl. tauto.
  - destruct (findIndex p l) as [j|]; [|discriminate]. injection H as <-.
    destruct (IH j eq_refl) as [a [x [b [-> [<- [Px Ha]]]]]].
    exists (y :: a), x, b. simpl. repeat split; try assumption.
    intros z [<-|Hz]; [assumption | now apply Ha].
Qed.

Lemma findIndex_In {A : Type} (p : A -> bool) (l : list A) :
  findIndex p l = None -> forall z, In z l -> p z = false.
Proof.
  induction l as [|y l IH]; simpl; intros H z; [tauto|].
  destruct (p y) eqn:Py; [discriminate|].
  destruct (findIndex p l); [discriminate|].
  intros [<-|Hz]; [assumption | now apply IH].
Qed.

Lemma splice_out_at {A : Type} (a : list A) (x : A) (b : list A) :
  splice_out (List.length a) (a ++ x :: b) = a ++ b.
Proof.
  unfold splice_out. induction a as [|y a IH]; simpl; [reflexivity|].
  f_equal. exact IH.
Qed.

Lemma splice_in_at {A : Type} (a : list A) (x : A) (b : list A) :
  splice_in (List.length a) x (a ++ b) = a ++ x :: b.
Proof.
  unfold splice_in. induction a as [|y a IH]; simpl; [reflexivity|].
  f_equal. exact IH.
Qed.

Lemma nth_error_at {A : Type} (a : list A) (x : A) (b : list A) :
  nth_error (a ++ x :: b) (List.length a) = Some x.
Proof. rewrite nth_error_app2 by lia. now rewrite Nat.sub_diag. Qed.

(** A list cut at an index not past its end. *)
Lemma split_at {A : Type} (l : list A) (i : nat) :
  i <= List.length l -> exists a b, l = a ++ b /\ List.length a = i.
Proof.
  intro H. exists (firstn i l), (skipn i l). split.
  - symmetry. apply firstn_skipn.
  - apply firstn_length_le. exact H.
Qed.

(** Removing at [i] the element inserted at [i] gives the list back. *)
Lemma splice_out_in {A : Type} (i : nat) (x : A) (l : list A) :
  i <= List.length l -> splice_out i (splice_in i x l) = l.
Proof.
  intro H. destruct (split_at l i H) as [a [b [-> <-]]].
  rewrite splice_in_at. apply splice_out_at.
Qed.

Lemma splice_in_nth {A : Type} (i : nat) (x : A) (l : list A) :
  i <= List.length l -> nth_error (splice_in i x l) i = Some x.
Proof.
  intro H. destruct (split_at l i H) as [a [b [-> <-]]].
  rewrite splice_in_at. apply nth_error_at.
Qed.

Lemma splice_out_length {A : Type} (i : nat) (l : list A) :
  i < List.length l -> List.length (splice_out i l) = List.length l - 1.
Proof.
  intro H. unfold splice_out. rewrite length_app, firstn_length_le by lia.
  rewrite length_skipn. lia.
Qed.

(** Two neighbours [x], [y] of a list, [ps] and [pt] the tests that find
    them: where [findIndex] finds each before and after they swap, and what
    the two [splice] calls of a drop make of the list. *)
Section Swap.
Context {A : Type} (ps pt : A -> bool) (a b : list A) (x y : A).
Hypothesis Ha : forall z, In z a -> ps z = false /\ pt z = false.
Hypothesis Hsx : ps x = true.
Hypothesis Htx : pt x = false.
Hypothesis Hsy : ps y = false.
Hypothesis Hty : pt y = true.

Lemma swap_find_source_left : findIndex ps (a ++ x :: y :: b) = Some (List.length a).
Proof. apply findIndex_at; [intros z Hz; now apply Ha | assumption]. Qed.

Lemma swap_find_target_right :
  findIndex pt (a ++ x :: y :: b) = Some (S (List.length a)).
Proof.
  change (a ++ x :: y :: b) with (a ++ [x] ++ y :: b). rewrite app_assoc.
  rewrite findIndex_at; [rewrite length_app; simpl; f_equal; lia | | assumption].
  intros z Hz. apply in_app_or in Hz. destruct Hz as [Hz|[<-|[]]];
    [now apply Ha | assumption].
Qed.

Lemma swap_find_source_right :
  findIndex ps (a ++ y :: x :: b) = Some (S (List.length a)).
Proof.
  change (a ++ y :: x :: b) with (a ++ [y] ++ x :: b). rewrite app_assoc.
  rewrite findIndex_at; [rewrite length_app; simpl; f_equal; lia | | assumption].
  intros z Hz. apply in_app_or in Hz. destruct Hz as [Hz|[<-|[]]];
    [now apply Ha | assumption].
Qed.

Lemma swap_find_target_left : findIndex pt (a ++ y :: x :: b) = Some (List.length a).
Proof. apply findIndex_at; [intros z Hz; now apply Ha | assumption]. Qed.

End Swap.

Lemma nth_error_S_at {A : Type} (a : list A) (x y : A) (b : list A) :
  nth_error (a ++ x :: y :: b) (S (List.length a)) = Some y.
Proof.
  change (a ++ x :: y :: b) with (a ++ [x] ++ y :: b). rewrite app_assoc.
  replace (S (List.length a)) with (List.length (a ++ [x]))
    by (rewrite length_app; simpl; lia).
  apply nth_error_at.
Qed.

(** The source on the left of the target: out at [|a|], in at [|a| + 1]. *)
Lemma move_right {A : Type} (a b : list A) (x y : A) :
  splice_in (S (List.length a)) x (splice_out (List.length a) (a ++ x :: y :: b))
  = a ++ y :: x :: b.
Proof.
  rewrite splice_out_at.
  change (a ++ y :: b) with (a ++ [y] ++ b). rewrite app_assoc.
  replace (S (List.length a)) with (List.length (a ++ [y]))
    by (rewrite length_app; simpl; lia).
  rewrite splice_in_at, <- app_assoc. reflexivity.
Qed.

(** The source on the right of the target: out at [|a| + 1], in at [|a|]. *)
Lemma move_left {A : Type} (a b : list A) (x y : A) :
  splice_in (List.length a) x (splice_out (S (List.length a)) (a ++ y :: x :: b))
  = a ++ x :: y :: b.
Proof.
  change (a ++ y :: x :: b) with (a ++ [y] ++ x :: b). rewrite app_assoc.
  replace (S (List.length a)) with (List.length (a ++ [y]))
    by (rewrite length_app; simpl; lia).
  rewrite splice_out_at, <- app_assoc. simpl. apply splice_in_at.
Qed.

(** Two neighbours of a list and what is before and after them. *)
Lemma split_adjacent {A : Type} (l : list A) (i : nat) (x y : A) :
  nth_error l i = Some x -> nth_error l (S i) = Some y ->
  exists a b, l = a ++ x :: y :: b /\ List.length a = i.
Proof.
  intros Hx Hy. destruct (nth_error_split l i Hx) as [a [r [-> Hlen]]].
  exists a. subst i. rewrite nth_error_app2 in Hy by lia.
  replace (S (List.length a) - List.length a) with 1 in Hy by lia.
  destruct r as [|y' b]; simpl in Hy; [discriminate|]. injection Hy as ->.
  now exists b.
Qed.

(** *** Columns *)

Lemma reorderColumn_series (sourceId targetId : string) (st : App) :
  series (reorderColumn sourceId targetId st)
  = if (sourceId =? "") || (sourceId =? targetId) then series st
    else reorderSeries sourceId targetId (series st).
Proof.
  unfold reorderColumn, onSeriesDrop. simpl.
  destruct ((sourceId =? "") || (sourceId =? targetId)); reflexivity.
Qed.

Lemma reorderColumn_drag (sourceId targetId : string) (st : App) :
  dragSeriesId (drag (reorderColumn sourceId targetId st)) = None.
Proof.
  unfold reorderColumn, onSeriesDrop. simpl.
  destruct ((sourceId =? "") || (sourceId =? targetId)); reflexivity.
Qed.

Lemma id_absent (ser : list SeriesMeta) (i : string) :
  ~ In i (map id ser) -> findIndex (fun s => id s =? i) ser = None.
Proof.
  intro H. apply findIndex_None. intros z Hz. apply String.eqb_neq.
  intro e. apply H. rewrite <- e. now apply in_map.
Qed.

Lemma ids_adjacent (a b : list SeriesMeta) (x y : SeriesMeta) :
  NoDup (map id (a ++ x :: y :: b)) ->
  (forall z, In z a -> id z <> id x /\ id z <> id y) /\ id x <> id y.
Proof.
  intro H. rewrite map_app in H. simpl in H.
  assert (Hx := NoDup_remove_2 _ _ _ H).
  apply NoDup_remove_1 in H. assert (Hy := NoDup_remove_2 _ _ _ H).
  split.
  - intros z Hz. split; intro e.
    + apply Hx. apply in_or_app. left. rewrite <- e. now apply in_map.
    + apply Hy. apply in_or_app. left. rewrite <- e. now apply in_map.
  - intro e. apply Hx. apply in_or_app. right. left. now symmetry.
Qed.

(** A column dropped on its right neighbour changes places with it. *)
Lemma reorderSeries_right (a b : list SeriesMeta) (x y : SeriesMeta) :
  NoDup (map id (a ++ x :: y :: b)) ->
  reorderSeries (id x) (id y) (a ++ x :: y :: b) = a ++ y :: x :: b.
Proof.
  intro H. destruct (ids_adjacent a b x y H) as [Ha Hxy].
  unfold reorderSeries.
  rewrite (swap_find_source_left (fun s => id s =? id x) (fun s => id s =? id y));
    [| intros z Hz; split; apply String.eqb_neq; now apply Ha | apply String.eqb_refl].
  rewrite (swap_find_target_right (fun s => id s =? id x) (fun s => id s =? id y));
    [| intros z Hz; split; apply String.eqb_neq; now apply Ha
     | now apply String.eqb_neq | apply String.eqb_refl].
  rewrite nth_error_at. apply move_right.
Qed.

(** A column dropped on its left neighbour changes places with it. *)
Lemma reorderSeries_left (a b : list SeriesMeta) (x y : SeriesMeta) :
  NoDup (map id (a ++ y :: x :: b)) ->
  reorderSeries (id x) (id y) (a ++ y :: x :: b) = a ++ x :: y :: b.
Proof.
  intro H. destruct (ids_adjacent a b y x H) as [Ha Hyx].
  unfold reorderSeries.
  rewrite (swap_find_source_right (fun s => id s =? id x) (fun s => id s =? id y));
    [| intros z Hz; split; apply String.eqb_neq; now apply Ha
     | apply String.eqb_refl | now apply String.eqb_neq].
  rewrite (swap_find_target_left (fun s => id s =? id x) (fun s => id s =? id y));
    [| intros z Hz; split; apply String.eqb_neq; now apply Ha | apply String.eqb_refl].
  rewrite nth_error_S_at. apply move_left.
Qed.

Lemma NoDup_ids_swap (a b : list SeriesMeta) (x y : SeriesMeta) :
  NoDup (map id (a ++ x :: y :: b)) -> NoDup (map id (a ++ y :: x :: b)).
Proof.
  intro H. apply (Permutation.Permutation_NoDup (l := map id (a ++ x :: y :: b))); [|exact H].
  apply Permutation.Permutation_map, Permutation.Permutation_app_head,
    Permutation.perm_swap.
Qed.

(** *** Rows *)

Lemma reorderRow_rows (sourceKey targetKey : jsval) (pos : DragPosition) (st : App) :
  editingRowIndex (editing st) = None ->
  rows (reorderRow sourceKey targetKey pos st)
  = reorderRows sourceKey targetKey (Some pos) (rows st).
Proof. intro H. unfold reorderRow, onRowDragStart. rewrite H. reflexivity. Qed.

Lemma reorderRow_editing (sourceKey targetKey : jsval) (pos : DragPosition) (st : App) :
  editing (reorderRow sourceKey targetKey pos st) = editing st.
Proof.
  unfold reorderRow, onRowDragStart, onRowDrop.
  destruct (editingRowIndex (editing st)); simpl; [|reflexivity].
  destruct (dragRowKey (drag st)); reflexivity.
Qed.

Section RowMoves.
Variables (sourceKey targetKey : jsval) (a b : list DataRow) (x y : DataRow).
Let ps := fun r : DataRow => strict_eq (getProp r "key") sourceKey.
Let pt := fun r : DataRow => strict_eq (getProp r "key") targetKey.
Hypothesis Ha : forall z, In z a -> ps z = false /\ pt z = false.
Hypothesis Hsx : ps x = true.
Hypothesis Htx : pt x = false.
Hypothesis Hsy : ps y = false.
Hypothesis Hty : pt y = true.

(** The source dropped on the lower half of the row below it. *)
Lemma reorderRows_below_next :
  reorderRows sourceKey targetKey (Some below) (a ++ x :: y :: b) = a ++ y :: x :: b.
Proof.
  unfold reorderRows. fold ps. fold pt.
  rewrite (swap_find_source_left ps pt a b x y Ha Hsx).
  rewrite (swap_find_target_right ps pt a b x y Ha Htx Hty).
  replace (S (List.length a) + 1) with (S (S (List.length a))) by lia.
  destruct (Nat.ltb_spec (List.length a) (S (S (List.length a)))) as [_|Hf]; [|lia].
  replace (S (S (List.length a)) - 1) with (S (List.length a)) by lia.
  destruct (Nat.eqb_spec (S (List.length a)) (List.length a)) as [Hf|_]; [lia|].
  rewrite nth_error_at. apply move_right.
Qed.

(** The source dropped on the upper half of the row above it. *)
Lemma reorderRows_above_previous :
  reorderRows sourceKey targetKey (Some above) (a ++ y :: x :: b) = a ++ x :: y :: b.
Proof.
  unfold reorderRows. fold ps. fold pt.
  rewrite (swap_find_source_right ps pt a b x y Ha Hsx Hsy).
  rewrite (swap_find_target_left ps pt a b x y Ha Hty).
  replace (List.length a + 0) with (List.length a) by lia.
  destruct (Nat.ltb_spec (S (List.length a)) (List.length a)) as [Hf|_]; [lia|].
  destruct (Nat.eqb_spec (List.length a) (S (List.length a))) as [Hf|_]; [lia|].
  rewrite nth_error_S_at. apply move_left.
Qed.

End RowMoves.

Lemma reorderRows_no_source (sourceKey targetKey : jsval) (pos : option DragPosition)
    (l : list DataRow) :
  (forall z, In z l -> strict_eq (getProp z "key") sourceKey = false) ->
  reorderRows sourceKey targetKey pos l = l.
Proof. intro H. unfold reorderRows. now rewrite (findIndex_None _ l H). Qed.

Lemma reorderRows_no_target (sourceKey targetKey : jsval) (pos : option DragPosition)
    (l : list DataRow) :
  (forall z, In z l -> strict_eq (getProp z "key") targetKey = false) ->
  reorderRows sourceKey targetKey pos l = l.
Proof.
  intro H. unfold reorderRows. rewrite (findIndex_None _ l H).
  destruct (findIndex _ l); reflexivity.
Qed.

(** What distinct keys say of two neighbours and of the other rows. *)
Lemma keys_adjacent (a b : list DataRow) (x y : DataRow) :
  keysDistinct (a ++ x :: y :: b) ->
  let kx := getProp x "key" in
  let ky := getProp y "key" in
  (forall z, In z (a ++ b) ->
             strict_eq (getProp z "key") kx = false
             /\ strict_eq (getProp z "key") ky = false)
  /\ strict_eq kx ky = false /\ strict_eq ky kx = false.
Proof.
  intros H kx ky.
  assert (Hx : nth_error (a ++ x :: y :: b) (List.length a) = Some x)
    by apply nth_error_at.
  assert (Hy : nth_error (a ++ x :: y :: b) (S (List.length a)) = Some y)
    by apply nth_error_S_at.
  split; [|split].
  - intros z Hz. apply in_app_or in Hz. destruct Hz as [Hz|Hz].
    + apply In_nth_error in Hz. destruct Hz as [j Hj].
      assert (Hlt : j < List.length a) by (apply nth_error_Some; congruence).
      assert (Hz : nth_error (a ++ x :: y :: b) j = Some z)
        by (rewrite nth_error_app1; assumption).
      split; [apply (H j (List.length a) z x) | apply (H j (S (List.length a)) z y)];
        try assumption; lia.
    + apply In_nth_error in Hz. destruct Hz as [j Hj].
      assert (Hz : nth_error (a ++ x :: y :: b) (List.length a + S (S j)) = Some z).
      { rewrite nth_error_app2 by lia.
        replace (List.length a + S (S j) - List.length a) with (S (S j)) by lia.
        exact Hj. }
      split; [apply (H (List.length a + S (S j)) (List.length a) z x)
             | apply (H (List.length a + S (S j)) (S (List.length a)) z y)];
        try assumption; lia.
  - apply (H (List.length a) (S (List.length a)) x y); try assumption; lia.
  - apply (H (S (List.length a)) (List.length a) y x); try assumption; lia.
Qed.

(** A row moved below its lower neighbour and back above it. *)
Lemma rows_down_up (a b : list DataRow) (x y : DataRow) :
  keysDistinct (a ++ x :: y :: b) ->
  let kx := getProp x "key" in
  let ky := getProp y "key" in
  reorderRows kx ky (Some above) (reorderRows kx ky (Some below) (a ++ x :: y :: b))
  = a ++ x :: y :: b.
Proof.
  intros H kx ky. destruct (keys_adjacent a b x y H) as [Hab [Hxy Hyx]].
  fold kx in Hab, Hxy, Hyx. fold ky in Hab, Hxy, Hyx.
  assert (Ha : forall z, In z a ->
                strict_eq (getProp z "key") kx = false
                /\ strict_eq (getProp z "key") ky = false)
    by (intros z Hz; apply Hab, in_or_app; now left).
  destruct (strict_eq kx kx) eqn:Exx.
  - destruct (strict_eq ky ky) eqn:Eyy.
    + rewrite (reorderRows_below_next kx ky a b x y Ha Exx Hxy Eyy).
      apply (reorderRows_above_previous kx ky a b x y Ha Exx Hyx Eyy).
    + assert (Hno : forall z, In z (a ++ x :: y :: b) ->
                     strict_eq (getProp z "key") ky = false).
      { intros z Hz. apply in_app_or in Hz.
        destruct Hz as [Hz|[<-|[<-|Hz]]]; try assumption.
        - apply Hab, in_or_app. now left.
        - apply Hab, in_or_app. now right. }
      now rewrite !(reorderRows_no_target kx ky _ _ Hno).
  - assert (Hno : forall z, In z (a ++ x :: y :: b) ->
                   strict_eq (getProp z "key") kx = false).
    { intros z Hz. apply in_app_or in Hz.
      destruct Hz as [Hz|[<-|[<-|Hz]]]; try assumption.
      - apply Hab, in_or_app. now left.
      - apply Hab, in_or_app. now right. }
    now rewrite !(reorderRows_no_source kx ky _ _ Hno).
Qed.

(** A row moved above its upper neighbour and back below it. *)
Lemma rows_up_down (a b : list DataRow) (x y : DataRow) :
  keysDistinct (a ++ x :: y :: b) ->
  let kx := getProp x "key" in
  let ky := getProp y "key" in
  reorderRows ky kx (Some below) (reorderRows ky kx (Some above) (a ++ x :: y :: b))
  = a ++ x :: y :: b.
Proof.
  intros H kx ky. destruct (keys_adjacent a b x y H) as [Hab [Hxy Hyx]].
  fold kx in Hab, Hxy, Hyx. fold ky in Hab, Hxy, Hyx.
  assert (Ha : forall z, In z a ->
                strict_eq (getProp z "key") ky = false
                /\ strict_eq (getProp z "key") kx = false)
    by (intros z Hz; split; apply Hab, in_or_app; now left).
  destruct (strict_eq kx kx) eqn:Exx.
  - destruct (strict_eq ky ky) eqn:Eyy.
    + rewrite (reorderRows_above_previous ky kx a b y x Ha Eyy Hxy Exx).
      apply (reorderRows_below_next ky kx a b y x Ha Eyy Hyx Exx).
    + assert (Hno : forall z, In z (a ++ x :: y :: b) ->
                     strict_eq (getProp z "key") ky = false).
      { intros z Hz. apply in_app_or in Hz.
        destruct Hz as [Hz|[<-|[<-|Hz]]]; try assumption.
        - apply Hab, in_or_app. now left.
        - apply Hab, in_or_app. now right. }
      now rewrite !(reorderRows_no_source ky kx _ _ Hno).
  - assert (Hno : forall z, In z (a ++ x :: y :: b) ->
                   strict_eq (getProp z "key") kx = false).
    { intros z Hz. apply in_app_or in Hz.
      destruct Hz as [Hz|[<-|[<-|Hz]]]; try assumption.
      - apply Hab, in_or_app. now left.
      - apply Hab, in_or_app. now right. }
    now rewrite !(reorderRows_no_target ky kx _ _ Hno).
Qed.

Lemma keysDistinctb_sound (rs : list DataRow) :
  keysDistinctb rs = true -> keysDistinct rs.
Proof.
  induction rs as [|r t IH]; intros H i j ri rj Hi Hj Hne.
  - destruct i; discriminate.
  - simpl in H. apply andb_true_iff in H. destruct H as [Hr Ht].
    rewrite forallb_forall in Hr.
    destruct i as [|i], j as [|j]; simpl in Hi, Hj.
    + congruence.
    + injection Hi as <-. apply nth_error_In in Hj. specialize (Hr rj Hj).
      apply andb_true_iff in Hr. destruct Hr as [Hr _]. now apply negb_true_iff.
    + injection Hj as <-. apply nth_error_In in Hi. specialize (Hr ri Hi).
      apply andb_true_iff in Hr. destruct Hr as [_ Hr]. now apply negb_true_iff.
    + apply (IH Ht i j); try assumption. congruence.
Qed.

(** C8: a column drop puts the source column at the index the target had;
    it changes nothing when source and target are the same or either is not
    in the registry; the registry without the moved column is the same list
    before and after. Dropping [COGS] on [Revenue] in
    [Revenue, COGS, R&D] gives [COGS, Revenue, R&D]. *)
Theorem column_reorder :
  (forall (st : App) (sourceId targetId : string),
      sourceId = targetId
      \/ ~ In sourceId (map id (series st))
      \/ ~ In targetId (map id (series st)) ->
      series (reorderColumn sourceId targetId st) = series st)
  /\ (forall (st : App) (sourceId targetId : string) (srcIdx tgtIdx : nat),
         sourceId <> "" ->
         sourceId <> targetId ->
         findIndex (fun s => id s =? sourceId) (series st) = Some srcIdx ->
         findIndex (fun s => id s =? targetId) (series st) = Some tgtIdx ->
         exists moved,
           nth_error (series st) srcIdx = Some moved
           /\ id moved = sourceId
           /\ nth_error (series (reorderColumn sourceId targetId st)) tgtIdx = Some moved
           /\ splice_out tgtIdx (series (reorderColumn sourceId targetId st))
              = splice_out srcIdx (series st))
  /\ map id (series (reorderColumn "COGS" "Revenue" threeColumnApp))
     = ["COGS"; "Revenue"; "R&D"].
Proof.
  split; [|split; [|reflexivity]].
  - intros st sourceId targetId H. rewrite reorderColumn_series.
    destruct ((sourceId =? "") || (sourceId =? targetId)) eqn:G; [reflexivity|].
    apply orb_false_iff in G. destruct G as [_ G]. apply String.eqb_neq in G.
    unfold reorderSeries. destruct H as [H|[H|H]]; [congruence| |].
    + now rewrite (id_absent _ _ H).
    + rewrite (id_absent _ _ H). destruct (findIndex _ (series st)); reflexivity.
  - intros st sourceId targetId srcIdx tgtIdx Hne Hst Hsrc Htgt.
    rewrite reorderColumn_series.
    apply String.eqb_neq in Hne, Hst. rewrite Hne, Hst. simpl.
    unfold reorderSeries. rewrite Hsrc, Htgt.
    destruct (findIndex_Some _ _ _ Htgt) as [a' [y [b' [Ey [Hlt _]]]]].
    assert (Ht : tgtIdx < List.length (series st)).
    { rewrite Ey, length_app. simpl. lia. }
    clear a' y b' Ey Hlt.
    destruct (findIndex_Some _ _ _ Hsrc) as [a [x [b [Ex [Hla [Hx _]]]]]].
    rewrite Ex. subst srcIdx. rewrite nth_error_at, splice_out_at.
    assert (Hle : tgtIdx <= List.length (a ++ b)).
    { rewrite Ex in Ht. rewrite length_app in *. simpl in Ht. lia. }
    exists x. repeat split.
    + now apply String.eqb_eq.
    + now apply splice_in_nth.
    + now apply splice_out_in.
Qed.

(** [COGS], at index 1 of [Revenue, COGS, R&D], dropped on [Revenue], at
    index 0. *)
Lemma column_reorder_witness :
  exists moved,
    nth_error (series threeColumnApp) 1 = Some moved
    /\ id moved = "COGS"
    /\ nth_error (series (reorderColumn "COGS" "Revenue" threeColumnApp)) 0 = Some moved
    /\ splice_out 0 (series (reorderColumn "COGS" "Revenue" threeColumnApp))
       = splice_out 1 (series threeColumnApp).
Proof.
  apply (proj1 (proj2 column_reorder) threeColumnApp "COGS" "Revenue" 1 0).
  - discriminate.
  - discriminate.
  - reflexivity.
  - reflexivity.
Defined.

(** X25: the round trip of a move to a neighbour, where identifiers are
    unique. In a registry with unique ids, a column dropped on a neighbour
    and dropped on it again is back where it was, and so is the registry.
    In a row store whose keys are pairwise different, with no row header
    under edit, a row dropped below the row under it and then above it, or
    above the row over it and then below it, is back where it was, and so
    is the row store. *)
Theorem adjacent_reorder_round_trip :
  (forall (st : App) (i : nat) (x y : SeriesMeta),
      NoDup (map id (series st)) ->
      nth_error (series st) i = Some x ->
      nth_error (series st) (S i) = Some y ->
      series (reorderColumn (id x) (id y) (reorderColumn (id x) (id y) st)) = series st
      /\ series (reorderColumn (id y) (id x) (reorderColumn (id y) (id x) st)) = series st)
  /\ (forall (st : App) (i : nat) (x y : DataRow),
         keysDistinct (rows st) ->
         editingRowIndex (editing st) = None ->
         nth_error (rows st) i = Some x ->
         nth_error (rows st) (S i) = Some y ->
         let kx := getProp x "key" in
         let ky := getProp y "key" in
         rows (reorderRow kx ky above (reorderRow kx ky below st)) = rows st
         /\ rows (reorderRow ky kx below (reorderRow ky kx above st)) = rows st).
Proof.
  split.
  - intros st i x y Hnd Hx Hy.
    destruct (split_adjacent _ _ _ _ Hx Hy) as [a [b [E _]]].
    rewrite !reorderColumn_series.
    assert (Hnd' : NoDup (map id (a ++ y :: x :: b)))
      by (apply NoDup_ids_swap; now rewrite <- E).
    rewrite E in *. split.
    + destruct ((id x =? "") || (id x =? id y)); [reflexivity|].
      rewrite (reorderSeries_right a b x y Hnd). now apply reorderSeries_left.
    + destruct ((id y =? "") || (id y =? id x)); [reflexivity|].
      rewrite (reorderSeries_left a b y x Hnd). now apply reorderSeries_right.
  - intros st i x y Hk He Hx Hy kx ky.
    destruct (split_adjacent _ _ _ _ Hx Hy) as [a [b [E _]]].
    rewrite !reorderRow_rows by (try rewrite reorderRow_editing; assumption).
    rewrite E in *. split.
    + now apply rows_down_up.
    + now apply rows_up_down.
Qed.

(** In the initial state: [COGS] dropped on [Revenue] twice, and the row
    [2019] dropped below the row [2020] and then above it. *)
Lemma adjacent_reorder_round_trip_witness :
  (map id (series (reorderColumn "COGS" "Revenue" initialApp))
   = ["COGS"; "Revenue"; "Operating Expenses"; "R&D"; "Net Profit"]
   /\ series (reorderColumn "COGS" "Revenue" (reorderColumn "COGS" "Revenue" initialApp))
      = series initialApp)
  /\ (map (fun r => getProp r "key")
          (firstn 3 (rows (reorderRow (JNum 2019) (JNum 2020) below initialApp)))
      = [JNum 2020; JNum 2019; JNum 2021]
      /\ rows (reorderRow (JNum 2019) (JNum 2020) above
                 (reorderRow (JNum 2019) (JNum 2020) below initialApp))
         = rows initialApp).
Proof.
  split; split; [reflexivity | | reflexivity | ].
  - refine (proj2 (proj1 adjacent_reorder_round_trip initialApp 0
                     (mkSeries "Revenue" "Revenue" "#ef4444" true)
                     (mkSeries "COGS" "COGS" "#f59e0b" true) _ eq_refl eq_refl)).
    simpl. repeat constructor; simpl; intuition discriminate.
  - refine (proj1 (proj2 adjacent_reorder_round_trip initialApp 0
                     (mkRow 2019 120 48 30 12 30) (mkRow 2020 135 53 33 14 35)
                     _ eq_refl eq_refl eq_refl)).
    apply keysDistinctb_sound. reflexivity.
Defined.

(** ** Row key rename *)

Lemma mapi_from_exists {A : Type} (f : A -> nat -> bool) (l : list A) (k : nat) :
  existsb (fun b : bool => b) (mapi_from k f l) = true
  <-> exists i x, nth_error l i = Some x /\ f x (k + i) = true.
Proof.
  revert k. induction l as [|y t IH]; intro k; simpl.
  - split; [discriminate|]. intros [i [x [H _]]]. destruct i; discriminate.
  - rewrite orb_true_iff, IH. split.
    + intros [H|[i [x [Hi Hf]]]].
      * exists 0, y. rewrite Nat.add_0_r. now split.
      * exists (S i), x. rewrite <- Nat.add_succ_comm. now split.
    + intros [[|i] [x [Hi Hf]]]; simpl in Hi.
      * injection Hi as <-. rewrite Nat.add_0_r in Hf. now left.
      * right. exists i, x. rewrite Nat.add_succ_comm. now split.
Qed.

(** [duplicateKey] holds when another row renders the text in that column. *)
Lemma duplicateKey_spec `{JsText} (idx : nat) (col value : string) (prev : list DataRow) :
  duplicateKey idx col value prev = true
  <-> exists i r, i <> idx /\ nth_error prev i = Some r
                  /\ String_ (getProp r col) = value.
Proof.
  unfold duplicateKey, mapi. rewrite mapi_from_exists. simpl. split.
  - intros [i [r [Hi Hf]]]. apply andb_true_iff in Hf. destruct Hf as [Hn He].
    apply negb_true_iff, Nat.eqb_neq in Hn. apply String.eqb_eq in He.
    now exists i, r.
  - intros [i [r [Hn [Hi He]]]]. exists i, r. split; [assumption|].
    apply andb_true_iff. split.
    + now apply negb_true_iff, Nat.eqb_neq.
    + now apply String.eqb_eq.
Qed.

(** The commits of a row-key rename that are refused: the trimmed text is
    empty, or another row's key renders as the text. The row store is left
    as it is and the edit is closed. *)
Theorem row_key_rename_refused :
  forall (T : JsText) (st : App) (idx : nat),
    editingRowIndex (editing st) = Some idx ->
    labelColumn (mapping st) = "key" ->
    let value := trim (editingRowValue (editing st)) in
    (value = ""
     \/ exists i r, i <> idx /\ nth_error (rows st) i = Some r
                    /\ String_ (getProp r "key") = value) ->
    rows (commitEditRowHeader st) = rows st
    /\ editingRowIndex (editing (commitEditRowHeader st)) = None.
Proof.
  intros T st idx Hidx Hcol value H. unfold commitEditRowHeader. rewrite Hidx.
  fold value. destruct (String.eqb_spec value "") as [e|ne]; [now split|].
  destruct H as [H|H]; [congruence|].
  apply duplicateKey_spec in H. simpl. split; [|reflexivity].
  unfold commitRowUpdater. rewrite Hcol. simpl. now rewrite H.
Qed.

(** With the rows keyed 2019 and 2020, renaming the second row's key to
    [2019] is refused and the keys are as before. *)
Lemma row_key_rename_refused_witness :
  rows (renameRow 1 " 2019 " twoRowApp) = rows twoRowApp
  /\ renderedKeys (rows (renameRow 1 " 2019 " twoRowApp)) = ["2019"; "2020"].
Proof.
  assert (H : rows (renameRow 1 " 2019 " twoRowApp) = rows twoRowApp).
  { refine (proj1 (row_key_rename_refused HostText
                     (setEditingRowValue " 2019 " (startEditRowHeader 1 twoRowApp)) 1
                     eq_refl eq_refl _)).
    right. exists 0, (mkRow 2019 120 48 30 12 30).
    split; [discriminate|]. split; [reflexivity | vm_compute; reflexivity]. }
  split; [exact H|]. rewrite H. vm_compute. reflexivity.
Defined.

(** C4, on the code: the duplicate test compares the rendered keys with the
    text as typed, and the key stored is the number the text reads as. With
    the rows keyed 2019 and 2020, renaming the second row's key to [2019.0]
    is accepted and stores the number 2019: two rows render the key
    [2019]. *)
Theorem row_key_rename_stores_duplicate :
  renderedKeys (rows twoRowApp) = ["2019"; "2020"]
  /\ duplicateKey 1 "key" "2019.0" (rows twoRowApp) = false
  /\ map (fun r => getProp r "key") (rows (renameRow 1 "2019.0" twoRowApp))
     = [JNum 2019; JNum 2019]
  /\ renderedKeys (rows (renameRow 1 "2019.0" twoRowApp)) = ["2019"; "2019"].
Proof. vm_compute. repeat split. Qed.

(** ** Histogram binning *)

Lemma bump_counts (i : nat) (bins bins' : list Bin) :
  bump i bins = Some bins' ->
  List.length bins' = List.length bins
  /\ forall j, nth j (map count bins') 0
               = nth j (map count bins) 0 + (if (i =? j)%nat then 1 else 0).
Proof.
  unfold bump. destruct (nth_error bins i) as [b0|] eqn:E; [|discriminate].
  destruct (nth_error_split bins i E) as [a [r [-> <-]]].
  assert (Ef : firstn (List.length a) (a ++ b0 :: r) = a).
  { rewrite firstn_app, Nat.sub_diag, firstn_all. simpl. apply app_nil_r. }
  assert (Es : skipn (S (List.length a)) (a ++ b0 :: r) = r).
  { clear. induction a as [|y a IH]; simpl; [reflexivity | exact IH]. }
  rewrite Ef, Es. intro H. injection H as <-. split.
  - rewrite !length_app. reflexivity.
  - intro j. rewrite !map_app. simpl.
    destruct (Nat.eqb_spec (List.length a) j) as [<-|ne].
    + rewrite !app_nth2 by (rewrite length_map; lia).
      rewrite length_map, Nat.sub_diag. simpl. lia.
    + destruct (Nat.lt_ge_cases j (List.length a)) as [Hlt|Hge].
      * rewrite !app_nth1 by (rewrite length_map; lia). lia.
      * rewrite !app_nth2 by (rewrite length_map; lia). rewrite length_map.
        destruct (j - List.length a) as [|k] eqn:Ek; [lia|]. simpl. lia.
Qed.

Lemma bump_within (i : nat) (bins : list Bin) :
  i < List.length bins -> exists bins', bump i bins = Some bins'.
Proof.
  intro H. unfold bump. destruct (nth_error bins i) eqn:E.
  - eexists. reflexivity.
  - apply nth_error_None in E. lia.
Qed.

(** The counting loop, when every index names a bin: it ends, and it adds
    to each bin the number of values whose index it is. *)
Lemma countValues_counts (min binSize binCount : float) (values : list float) :
  forall bins : list Bin,
    indicesWithin min binSize binCount values (List.length bins) = true ->
    exists bins',
      countValues min binSize binCount values bins = Some bins'
      /\ List.length bins' = List.length bins
      /\ forall j, nth j (map count bins') 0
                   = nth j (map count bins) 0
                     + valuesInBin min binSize binCount values j.
Proof.
  unfold indicesWithin, valuesInBin.
  induction values as [|v t IH]; intros bins H; simpl.
  - exists bins. repeat split. intro j. lia.
  - simpl in H. apply andb_true_iff in H. destruct H as [Hv Ht].
    destruct (smallInteger (binIndex min binSize binCount v)) as [i|]; [|discriminate].
    apply Nat.ltb_lt in Hv. destruct (bump_within i bins Hv) as [bins1 Hb].
    rewrite Hb. destruct (bump_counts _ _ _ Hb) as [Hl Hc].
    rewrite <- Hl in Ht. destruct (IH bins1 Ht) as [bins' [Hr [Hl' Hc']]].
    exists bins'. split; [exact Hr|]. split; [congruence|].
    intro j. rewrite Hc', Hc.
    destruct (Nat.eqb_spec i j); simpl; lia.
Qed.


(** ** The sweep gesture *)

Lemma distinctIds_In (l seen : list string) (x : string) :
  In x (distinctIds seen l) <-> In x l /\ ~ In x seen.
Proof.
  revert seen. induction l as [|y t IH]; intro seen; simpl; [tauto|].
  destruct (includes seen y) eqn:E.
  - apply includes_In in E. rewrite IH. split.
    + intros [H1 H2]. tauto.
    + intros [[H1|H1] H2]; [subst; tauto | tauto].
  - apply includes_false in E. simpl. rewrite IH. split.
    + intros [H|[H1 H2]]; [subst; tauto|]. split; [tauto|].
      intro H. apply H2. apply in_or_app. now left.
    + intros [[H1|H1] H2]; [now left|].
      destruct (string_dec y x) as [e|ne]; [now left|]. right. split; [assumption|].
      intro H. apply in_app_or in H. destruct H as [H|[H|[]]]; tauto.
Qed.

Lemma distinctIds_NoDup (l seen : list string) : NoDup (distinctIds seen l).
Proof.
  revert seen. induction l as [|y t IH]; intro seen; simpl; [constructor|].
  destruct (includes seen y); [apply IH|]. constructor; [|apply IH].
  intro H. apply distinctIds_In in H. destruct H as [_ H]. apply H.
  apply in_or_app. right. now left.
Qed.

Lemma distinctIds_includes (l : list string) (x : string) :
  includes (distinctIds [] l) x = includes l x.
Proof.
  destruct (includes l x) eqn:E.
  - apply includes_In. apply distinctIds_In. apply includes_In in E. tauto.
  - apply includes_false. apply includes_false in E. rewrite distinctIds_In. tauto.
Qed.

(** Toggling each id of a duplicate-free list once flips the columns it
    names and no other. *)
Lemma toggle_each_once (l : list string) :
  NoDup l ->
  forall ser : list SeriesMeta,
    fold_left (fun ser i => toggleVisibleIn i ser) l ser
    = map (fun s => if includes l (id s) then flipVisible s else s) ser.
Proof.
  induction 1 as [|i l Hi Hnd IH]; intro ser; simpl.
  - symmetry. apply map_id.
  - rewrite IH. unfold toggleVisibleIn. rewrite map_map. apply map_ext. intro s.
    destruct (String.eqb_spec (id s) i) as [e|ne]; simpl.
    + rewrite e, String.eqb_refl. simpl.
      apply includes_false in Hi. now rewrite Hi.
    + apply String.eqb_neq in ne. rewrite String.eqb_sym in ne. rewrite ne. reflexivity.
Qed.

(** The effects after an event leave the gesture, the registry and the
    rows as the handler left them. *)
Lemma dispatch_sweep (st : App) (ev : Event) :
  sweep (dispatch st ev) = sweep (handle ev st).
Proof. unfold dispatch. destruct (setsSeries ev st); reflexivity. Qed.

Lemma dispatch_series (st : App) (ev : Event) :
  series (dispatch st ev) = series (handle ev st).
Proof. unfold dispatch. destruct (setsSeries ev st); reflexivity. Qed.

Lemma dispatch_rows (st : App) (ev : Event) :
  rows (dispatch st ev) = rows (handle ev st).
Proof. unfold dispatch. destruct (setsSeries ev st); reflexivity. Qed.

Lemma series_enter_step (s : SeriesMeta) (st : App) :
  sweepActive (sweep st) = Some SweepSeries ->
  let seen := sweepSeriesSet (sweep st) in
  let st1 := dispatch st (SeriesMouseEnter s) in
  sweepActive (sweep st1) = Some SweepSeries
  /\ rows st1 = rows st
  /\ if includes seen (id s)
     then series st1 = series st /\ sweepSeriesSet (sweep st1) = seen
     else series st1 = toggleVisibleIn (id s) (series st)
          /\ sweepSeriesSet (sweep st1) = seen ++ [id s].
Proof.
  intros Hact seen st1. subst st1 seen. rewrite dispatch_sweep, dispatch_series, dispatch_rows. cbn [handle].
  unfold handleSeriesHeaderMouseEnter, setHas, setAdd. rewrite Hact.
  destruct (includes (sweepSeriesSet (sweep st)) (id s)) eqn:E; simpl.
  - tauto.
  - unfold setHas. rewrite E. tauto.
Qed.

Lemma series_enter_run (ss : list SeriesMeta) :
  forall st : App,
    sweepActive (sweep st) = Some SweepSeries ->
    let seen := sweepSeriesSet (sweep st) in
    let st' := run (map SeriesMouseEnter ss) st in
    series st'
    = fold_left (fun ser i => toggleVisibleIn i ser) (distinctIds seen (map id ss)) (series st)
    /\ sweepSeriesSet (sweep st') = seen ++ distinctIds seen (map id ss)
    /\ sweepActive (sweep st') = Some SweepSeries
    /\ rows st' = rows st.
Proof.
  induction ss as [|s t IH]; intros st Hact; simpl.
  - rewrite app_nil_r. tauto.
  - destruct (series_enter_step s st Hact) as [Hact1 [Hrows1 Hstep]].
    destruct (IH _ Hact1) as [Hser [Hset [Hact' Hrows']]].
    unfold run in *. simpl in *.
    destruct (includes (sweepSeriesSet (sweep st)) (id s)).
    + destruct Hstep as [Es Eset]. rewrite Es, Eset in *.
      rewrite Hser, Hset. repeat split; congruence.
    + destruct Hstep as [Es Eset]. rewrite Es, Eset in *.
      rewrite Hser, Hset. simpl. rewrite <- app_assoc. repeat split; congruence.
Qed.

Lemma series_press (s0 : SeriesMeta) (e : MouseEvent) (st : App) :
  onHeaderItself e = true ->
  editingSeriesId (editing st) <> Some (id s0) ->
  let st1 := dispatch st (SeriesMouseDown s0 e) in
  series st1 = toggleVisibleIn (id s0) (series st)
  /\ sweepSeriesSet (sweep st1) = setAdd (sweepSeriesSet (sweep st)) (id s0)
  /\ sweepActive (sweep st1) = Some SweepSeries
  /\ rows st1 = rows st.
Proof.
  intros He Hed st1. subst st1. rewrite dispatch_sweep, dispatch_series, dispatch_rows. cbn [handle].
  unfold handleSeriesHeaderMouseDown, onHeaderItself in *.
  apply andb_true_iff in He. destruct He as [Hb Hh].
  rewrite Hb. apply negb_true_iff in Hh. rewrite Hh. simpl.
  assert (Ho : optionEqb String.eqb (editingSeriesId (editing st)) (id s0) = false).
  { destruct (editingSeriesId (editing st)) as [x|]; [|reflexivity]. simpl.
    apply String.eqb_neq. congruence. }
  rewrite Ho. simpl. tauto.
Qed.

Lemma same_value_zero_refl (k : jsval) : same_value_zero k k = true.
Proof.
  destruct k as [|b|x|s]; simpl.
  - reflexivity.
  - apply Bool.eqb_reflx.
  - unfold PrimFloat.is_nan. destruct (PrimFloat.eqb x x); reflexivity.
  - apply String.eqb_refl.
Qed.

Lemma keySetHas_app (l1 l2 : list jsval) (k : jsval) :
  keySetHas (l1 ++ l2) k = keySetHas l1 k || keySetHas l2 k.
Proof. unfold keySetHas. apply existsb_app. Qed.

Lemma mapi_from_ext {A B : Type} (f g : A -> nat -> B) (l : list A) (k : nat) :
  (forall x j, f x j = g x j) -> mapi_from k f l = mapi_from k g l.
Proof.
  intro H. revert k. induction l as [|x t IH]; intro k; simpl; [reflexivity|].
  now rewrite H, IH.
Qed.

Lemma mapi_from_compose {A B C : Type} (f : B -> nat -> C) (g : A -> nat -> B)
    (l : list A) (k : nat) :
  mapi_from k f (mapi_from k g l) = mapi_from k (fun x j => f (g x j) j) l.
Proof.
  revert k. induction l as [|x t IH]; intro k; simpl; [reflexivity|]. now rewrite IH.
Qed.

Lemma mapi_from_id {A : Type} (l : list A) (k : nat) :
  mapi_from k (fun x _ => x) l = l.
Proof.
  revert k. induction l as [|x t IH]; intro k; simpl; [reflexivity|]. now rewrite IH.
Qed.

Lemma existsb_eqb_In (l : list nat) (j : nat) :
  existsb (Nat.eqb j) l = true <-> In j l.
Proof.
  rewrite existsb_exists. split.
  - intros [y [Hy He]]. apply Nat.eqb_eq in He. now subst.
  - intro H. exists j. split; [assumption | apply Nat.eqb_refl].
Qed.

(** Toggling each row of a duplicate-free list of indices once flips the
    rows at those indices and no other. *)
Lemma hide_each_once (l : list nat) :
  NoDup l ->
  forall rs : list DataRow,
    fold_left (fun rs i => hideRowIn i rs) l rs
    = mapi (fun r j => if existsb (Nat.eqb j) l then toggleHidden r else r) rs.
Proof.
  induction 1 as [|i l Hi Hnd IH]; intro rs; simpl.
  - symmetry. apply mapi_from_id.
  - rewrite IH. unfold hideRowIn, mapi. rewrite mapi_from_compose.
    apply mapi_from_ext. intros r j. fold (toggleHidden r).
    destruct (Nat.eqb_spec j i) as [e|ne]; simpl.
    + subst j. destruct (existsb (Nat.eqb i) l) eqn:E; [|reflexivity].
      apply existsb_eqb_In in E. contradiction.
    + reflexivity.
Qed.

Lemma distinctNats_In (l seen : list nat) (x : nat) :
  In x (distinctNats seen l) <-> In x l /\ ~ In x seen.
Proof.
  revert seen. induction l as [|y t IH]; intro seen; simpl; [tauto|].
  destruct (existsb (Nat.eqb y) seen) eqn:E.
  - apply existsb_eqb_In in E. rewrite IH. split.
    + intros [H1 H2]. tauto.
    + intros [[H1|H1] H2]; [subst; tauto | tauto].
  - assert (Hy : ~ In y seen).
    { intro H. apply existsb_eqb_In in H. congruence. }
    simpl. rewrite IH. split.
    + intros [H|[H1 H2]]; [subst; tauto|]. split; [tauto|].
      intro H. apply H2. apply in_or_app. now left.
    + intros [[H1|H1] H2]; [now left|].
      destruct (Nat.eq_dec y x) as [e|ne]; [now left|]. right. split; [assumption|].
      intro H. apply in_app_or in H. destruct H as [H|[H|[]]]; tauto.
Qed.

Lemma distinctNats_NoDup (l seen : list nat) : NoDup (distinctNats seen l).
Proof.
  revert seen. induction l as [|y t IH]; intro seen; simpl; [constructor|].
  destruct (existsb (Nat.eqb y) seen); [apply IH|]. constructor; [|apply IH].
  intro H. apply distinctNats_In in H. destruct H as [_ H]. apply H.
  apply in_or_app. right. now left.
Qed.

Lemma distinctNats_member (l : list nat) (j : nat) :
  existsb (Nat.eqb j) (distinctNats [] l) = existsb (Nat.eqb j) l.
Proof.
  destruct (existsb (Nat.eqb j) l) eqn:E.
  - apply existsb_eqb_In. apply distinctNats_In. apply existsb_eqb_In in E. tauto.
  - destruct (existsb (Nat.eqb j) (distinctNats [] l)) eqn:E'; [|reflexivity].
    apply existsb_eqb_In, distinctNats_In in E'. destruct E' as [E' _].
    apply existsb_eqb_In in E'. congruence.
Qed.

Lemma keySetHas_indices (seen : list (nat * jsval)) (i : nat) (k : jsval) :
  (forall p, In p seen -> same_value_zero (snd p) k = (fst p =? i)%nat) ->
  keySetHas (map snd seen) k = existsb (Nat.eqb i) (map fst seen).
Proof.
  induction seen as [|p t IH]; intro H; simpl; [reflexivity|].
  rewrite (H p (or_introl eq_refl)), Nat.eqb_sym. f_equal.
  apply IH. intros q Hq. apply H. now right.
Qed.

(** When the touches name rows as rendered, the toggled indices are the
    distinct indices touched. *)
Lemma distinctRows_indices (l : list (nat * jsval)) :
  forall seen : list (nat * jsval),
    touchesOfRows (seen ++ l) ->
    distinctRows (map snd seen) l = distinctNats (map fst seen) (map fst l).
Proof.
  induction l as [|[i k] t IH]; intros seen H; simpl; [reflexivity|].
  assert (Hk : keySetHas (map snd seen) k = existsb (Nat.eqb i) (map fst seen)).
  { apply keySetHas_indices. intros p Hp.
    apply (H p (i, k)); apply in_or_app; [now left | right; now left]. }
  rewrite Hk. destruct (existsb (Nat.eqb i) (map fst seen)).
  - apply IH. intros p q Hp Hq. apply H.
    + apply in_app_or in Hp. apply in_or_app. destruct Hp; [now left | right; now right].
    + apply in_app_or in Hq. apply in_or_app. destruct Hq; [now left | right; now right].
  - f_equal. specialize (IH (seen ++ [(i, k)])).
    rewrite !map_app in IH. simpl in IH. apply IH.
    rewrite <- app_assoc. exact H.
Qed.

Lemma row_enter_step (ri : nat) (k : jsval) (st : App) :
  sweepActive (sweep st) = Some SweepRow ->
  let seen := sweepRowSet (sweep st) in
  let st1 := dispatch st (RowMouseEnter ri k) in
  sweepActive (sweep st1) = Some SweepRow
  /\ series st1 = series st
  /\ if keySetHas seen k
     then rows st1 = rows st /\ sweepRowSet (sweep st1) = seen
     else rows st1 = hideRowIn ri (rows st) /\ sweepRowSet (sweep st1) = seen ++ [k].
Proof.
  intros Hact seen st1. subst st1 seen. rewrite dispatch_sweep, dispatch_series, dispatch_rows. cbn [handle].
  unfold handleRowHeaderMouseEnter. rewrite Hact.
  destruct (keySetHas (sweepRowSet (sweep st)) k) eqn:E; simpl.
  - tauto.
  - unfold keySetAdd. rewrite E. tauto.
Qed.

Lemma row_enter_run (touches : list (nat * jsval)) :
  forall st : App,
    sweepActive (sweep st) = Some SweepRow ->
    let seen := sweepRowSet (sweep st) in
    let st' := run (enterRows touches) st in
    rows st' = fold_left (fun rs i => hideRowIn i rs) (distinctRows seen touches) (rows st)
    /\ (forall k, keySetHas seen k = true \/ In k (map snd touches) ->
                  keySetHas (sweepRowSet (sweep st')) k = true)
    /\ sweepActive (sweep st') = Some SweepRow
    /\ series st' = series st.
Proof.
  induction touches as [|[ri k] t IH]; intros st Hact; simpl.
  - repeat split; try assumption. intros k [H|[]]. exact H.
  - destruct (row_enter_step ri k st Hact) as [Hact1 [Hser1 Hstep]].
    destruct (IH _ Hact1) as [Hrows [Hset [Hact' Hser']]].
    unfold run, enterRows in *. simpl in *.
    destruct (keySetHas (sweepRowSet (sweep st)) k) eqn:E.
    + destruct Hstep as [Er Eset]. rewrite Er, Eset in *.
      rewrite Hrows. repeat split; try congruence.
      intros k' [H|[H|H]]; apply Hset; [now left | subst; now left | now right].
    + destruct Hstep as [Er Eset]. rewrite Er, Eset in *.
      rewrite Hrows. repeat split; try congruence.
      intros k' [H|[H|H]]; apply Hset.
      * left. rewrite keySetHas_app, H. reflexivity.
      * left. subst k'. rewrite keySetHas_app. simpl.
        rewrite same_value_zero_refl. now rewrite orb_true_r.
      * now right.
Qed.

Lemma row_press (ri : nat) (k : jsval) (e : MouseEvent) (st : App) :
  onHeaderItself e = true ->
  editingRowIndex (editing st) <> Some ri ->
  let st1 := dispatch st (RowMouseDown ri k e) in
  rows st1 = hideRowIn ri (rows st)
  /\ sweepRowSet (sweep st1) = keySetAdd (sweepRowSet (sweep st)) k
  /\ sweepActive (sweep st1) = Some SweepRow
  /\ series st1 = series st.
Proof.
  intros He Hed st1. subst st1. rewrite dispatch_sweep, dispatch_series, dispatch_rows. cbn [handle].
  unfold handleRowHeaderMouseDown, onHeaderItself in *.
  apply andb_true_iff in He. destruct He as [Hb Hh].
  rewrite Hb. apply negb_true_iff in Hh. rewrite Hh. simpl.
  assert (Ho : optionEqb Nat.eqb (editingRowIndex (editing st)) ri = false).
  { destruct (editingRowIndex (editing st)) as [x|]; [|reflexivity]. simpl.
    apply Nat.eqb_neq. congruence. }
  rewrite Ho. simpl. tauto.
Qed.

(** X24: one sweep gesture, from the press on a header to the release.
    Over columns, each distinct column the pointer pressed or entered is
    toggled exactly once: the press toggles its header and records it,
    entering a header not yet recorded toggles and records it, entering a
    recorded header changes nothing, and the release clears the record.
    Over rows the same holds when two touches carry the same key exactly
    when they are touches of the same row, as they do while the keys of the
    rows are pairwise different: the record is by key, the toggle by
    index. *)
Theorem sweep_toggles_each_header_once :
  (forall (st : App) (s0 : SeriesMeta) (e : MouseEvent) (ss : list SeriesMeta),
      onHeaderItself e = true ->
      editingSeriesId (editing st) <> Some (id s0) ->
      sweepSeriesSet (sweep st) = [] ->
      let touched := id s0 :: map id ss in
      let st' := run (SeriesMouseDown s0 e :: map SeriesMouseEnter ss) st in
      series st'
      = fold_left (fun ser i => toggleVisibleIn i ser) (distinctIds [] touched) (series st)
      /\ series st'
         = map (fun s => if includes touched (id s) then flipVisible s else s) (series st)
      /\ sweepSeriesSet (sweep st') = distinctIds [] touched
      /\ (forall s, In (id s) touched -> handle (SeriesMouseEnter s) st' = st')
      /\ sweep (handle MouseUp st') = mkSweep None [] [])
  /\ (forall (st : App) (ri0 : nat) (k0 : jsval) (e : MouseEvent)
             (touches : list (nat * jsval)),
         onHeaderItself e = true ->
         editingRowIndex (editing st) <> Some ri0 ->
         sweepRowSet (sweep st) = [] ->
         touchesOfRows ((ri0, k0) :: touches) ->
         let touched := ri0 :: map fst touches in
         let st' := run (RowMouseDown ri0 k0 e :: enterRows touches) st in
         rows st'
         = fold_left (fun rs i => hideRowIn i rs) (distinctNats [] touched) (rows st)
         /\ rows st'
            = mapi (fun r j => if existsb (Nat.eqb j) touched then toggleHidden r else r)
                   (rows st)
         /\ (forall p, In p ((ri0, k0) :: touches) ->
                       handle (RowMouseEnter (fst p) (snd p)) st' = st')
         /\ sweep (handle MouseUp st') = mkSweep None [] []).
Proof.
  split.
  - intros st s0 e ss He Hed Hidle touched st'.
    pose proof (series_press s0 e st He Hed) as Hp. cbv zeta in Hp.
    set (st1 := dispatch st (SeriesMouseDown s0 e)) in *.
    destruct Hp as [Hs1 [Hset1 [Hact1 _]]].
    rewrite Hidle in Hset1. change (setAdd [] (id s0)) with [id s0] in Hset1.
    pose proof (series_enter_run ss st1 Hact1) as Hr. cbv zeta in Hr.
    change (run (map SeriesMouseEnter ss) st1) with st' in Hr.
    destruct Hr as [Hser [Hset [Hact _]]].
    rewrite Hset1, Hs1 in Hser. rewrite Hset1 in Hset.
    assert (Hfold : series st'
                    = fold_left (fun ser i => toggleVisibleIn i ser)
                        (distinctIds [] touched) (series st)) by exact Hser.
    assert (Hrec : sweepSeriesSet (sweep st') = distinctIds [] touched) by exact Hset.
    split; [exact Hfold|]. split; [|split; [exact Hrec|split; [|reflexivity]]].
    + rewrite Hfold, (toggle_each_once _ (distinctIds_NoDup touched [])).
      apply map_ext. intro s. now rewrite distinctIds_includes.
    + intros s Hs. cbn [handle]. unfold handleSeriesHeaderMouseEnter, setHas.
      rewrite Hact, Hrec, distinctIds_includes.
      apply includes_In in Hs. now rewrite Hs.
  - intros st ri0 k0 e touches He Hed Hidle Htouch touched st'.
    pose proof (row_press ri0 k0 e st He Hed) as Hp. cbv zeta in Hp.
    set (st1 := dispatch st (RowMouseDown ri0 k0 e)) in *.
    destruct Hp as [Hr1 [Hset1 [Hact1 _]]].
    rewrite Hidle in Hset1. change (keySetAdd [] k0) with [k0] in Hset1.
    pose proof (row_enter_run touches st1 Hact1) as Hr. cbv zeta in Hr.
    change (run (enterRows touches) st1) with st' in Hr.
    destruct Hr as [Hrows [Hset [Hact _]]].
    rewrite Hset1, Hr1 in Hrows. rewrite Hset1 in Hset.
    assert (Hd : distinctRows [k0] touches = distinctNats [ri0] (map fst touches))
      by exact (distinctRows_indices touches [(ri0, k0)] Htouch).
    rewrite Hd in Hrows.
    assert (Hfold : rows st'
                    = fold_left (fun rs i => hideRowIn i rs)
                        (distinctNats [] touched) (rows st)) by exact Hrows.
    split; [exact Hfold|]. split; [|split; [|reflexivity]].
    + rewrite Hfold, (hide_each_once _ (distinctNats_NoDup touched [])).
      unfold mapi. apply mapi_from_ext. intros r j.
      now rewrite distinctNats_member.
    + intros p Hp. cbn [handle]. unfold handleRowHeaderMouseEnter.
      rewrite Hact.
      assert (Hin : keySetHas (sweepRowSet (sweep st')) (snd p) = true).
      { apply Hset. destruct Hp as [<-|Hp].
        - left. simpl. now rewrite same_value_zero_refl.
        - right. now apply in_map. }
      now rewrite Hin.
Qed.

(** Two gestures in the initial state. The pointer presses [Revenue],
    enters [COGS], [Revenue], [COGS] again and [R&D]: the three columns are
    hidden, each toggled once. It presses the row 2019, enters the row 2020,
    2019 and 2020 again: the two rows are hidden. *)
Lemma sweep_toggles_each_header_once_witness :
  (let revenue := mkSeries "Revenue" "Revenue" "#ef4444" true in
   let cogs := mkSeries "COGS" "COGS" "#f59e0b" true in
   let rnd := mkSeries "R&D" "R&D" "#10b981" true in
   let st' := run (SeriesMouseDown revenue plainPress
                     :: map SeriesMouseEnter [cogs; revenue; cogs; rnd]) initialApp in
   map visible (series st') = [false; false; true; false; true]
   /\ series st'
      = fold_left (fun ser i => toggleVisibleIn i ser) ["Revenue"; "COGS"; "R&D"]
                  (series initialApp))
  /\ (let touches := [(1, JNum 2020); (0, JNum 2019); (1, JNum 2020)] in
      let st' := run (RowMouseDown 0 (JNum 2019) plainPress :: enterRows touches)
                     initialApp in
      map (fun r => getProp r "_hidden") (firstn 3 (rows st'))
      = [JBool true; JBool true; JUndefined]
      /\ rows st' = fold_left (fun rs i => hideRowIn i rs) [0; 1] (rows initialApp)).
Proof.
  split.
  - split; [reflexivity|].
    refine (proj1 (proj1 sweep_toggles_each_header_once initialApp
                     (mkSeries "Revenue" "Revenue" "#ef4444" true) plainPress
                     [mkSeries "COGS" "COGS" "#f59e0b" true;
                      mkSeries "Revenue" "Revenue" "#ef4444" true;
                      mkSeries "COGS" "COGS" "#f59e0b" true;
                      mkSeries "R&D" "R&D" "#10b981" true]
                     eq_refl _ eq_refl)).
    discriminate.
  - split; [reflexivity|].
    refine (proj1 (proj2 sweep_toggles_each_header_once initialApp 0 (JNum 2019)
                     plainPress [(1, JNum 2020); (0, JNum 2019); (1, JNum 2020)]
                     eq_refl _ eq_refl _)).
    + discriminate.
    + intros p q Hp Hq. simpl in Hp, Hq.
      destruct Hp as [<-|[<-|[<-|[<-|[]]]]]; destruct Hq as [<-|[<-|[<-|[<-|[]]]]];
        reflexivity.
Defined.

(** When two rows hold the same key, a sweep over both toggles only the
    first: the record of the gesture is by key, the toggle by index. Here
    the pointer presses the first row and enters the second, both keyed
    2019. *)
Theorem sweep_skips_row_with_shared_key :
  let st' := run [RowMouseDown 0 (JNum 2019) plainPress; RowMouseEnter 1 (JNum 2019)]
                 sharedKeyApp in
  map (fun r => getProp r "key") (rows sharedKeyApp) = [JNum 2019; JNum 2019]
  /\ map (fun r => getProp r "_hidden") (rows st') = [JBool true; JUndefined]
  /\ rows st' = hideRowIn 0 (rows sharedKeyApp).
Proof. vm_compute. repeat split. Qed.

(** * The handlers and derived values outside the claims *)

(** ** Cell edits *)

Lemma getProp_setProp_same (r : DataRow) (k : string) (v : jsval) :
  getProp (setProp r k v) k = v.
Proof.
  induction r as [|[k' v'] t IH]; simpl.
  - now rewrite String.eqb_refl.
  - destruct (k' =? k) eqn:E; simpl; rewrite E; [reflexivity | exact IH].
Qed.

Lemma getProp_setProp_other (r : DataRow) (k k2 : string) (v : jsval) :
  k2 <> k -> getProp (setProp r k v) k2 = getProp r k2.
Proof.
  intro N. induction r as [|[k' v'] t IH]; simpl.
  - destruct (String.eqb_spec k k2); [congruence | reflexivity].
  - destruct (String.eqb_spec k' k) as [->|ne]; simpl.
    + destruct (String.eqb_spec k k2); [congruence | reflexivity].
    + destruct (k' =? k2); [reflexivity | exact IH].
Qed.

Lemma setProp_setProp (r : DataRow) (k : string) (v v' : jsval) :
  setProp (setProp r k v) k v' = setProp r k v'.
Proof.
  induction r as [|[k' w] t IH]; simpl.
  - now rewrite String.eqb_refl.
  - destruct (k' =? k) eqn:E; simpl; rewrite E; [reflexivity | now rewrite IH].
Qed.

Lemma arraySet_nth (i : nat) (row : DataRow) (l : list DataRow) :
  nth_error (arraySet i row l) i = Some row.
Proof.
  revert l. induction i as [|i IH]; intros [|x t]; simpl; try reflexivity; apply IH.
Qed.

Lemma arraySet_other (i j : nat) (row : DataRow) (l : list DataRow) :
  i < List.length l -> j <> i -> nth_error (arraySet i row l) j = nth_error l j.
Proof.
  revert j l. induction i as [|i IH]; intros j [|x t] H N; simpl in *; try lia.
  - destruct j; [lia | reflexivity].
  - destruct j; [reflexivity|]. simpl. apply IH; lia.
Qed.

Lemma arraySet_length (i : nat) (row : DataRow) (l : list DataRow) :
  i < List.length l -> List.length (arraySet i row l) = List.length l.
Proof.
  revert l. induction i as [|i IH]; intros [|x t] H; simpl in *; try lia.
  f_equal. apply IH. lia.
Qed.

(** Writing at [i] a row that [f] cannot tell from the one it replaces. *)
Lemma arraySet_map {B : Type} (f : DataRow -> B) (i : nat) (row row' : DataRow)
    (l : list DataRow) :
  nth_error l i = Some row -> f row' = f row ->
  map f (arraySet i row' l) = map f l.
Proof.
  revert l. induction i as [|i IH]; intros [|x t] H E; simpl in *; try discriminate.
  - injection H as ->. now rewrite E.
  - f_equal. now apply IH.
Qed.

(** X5: an edit of the cell of row [rowIndex] in column [field] changes
    that cell and nothing else: the row store keeps its length, every other
    row is the row it was, every other property of the edited row keeps its
    value, and the registry, the mapping and the selection are untouched.
    The cell holds the text as typed when the text is empty or is not a
    number, and otherwise the number it reads as; it never holds [NaN]. *)
Theorem cell_edit_changes_one_cell :
  forall (T : JsText) (st : App) (rowIndex : nat) (field value : string) (row : DataRow),
    nth_error (rows st) rowIndex = Some row ->
    let st' := handleCellChange rowIndex field value st in
    List.length (rows st') = List.length (rows st)
    /\ (forall j, j <> rowIndex -> nth_error (rows st') j = nth_error (rows st) j)
    /\ (exists row',
           nth_error (rows st') rowIndex = Some row'
           /\ (forall k, k <> field -> getProp row' k = getProp row k)
           /\ match getProp row' field with
              | JStr s => s = value /\ (value = "" \/ PrimFloat.is_nan (Number value) = true)
              | JNum x => x = Number value /\ value <> "" /\ PrimFloat.is_nan x = false
              | _ => False
              end)
    /\ (field <> "key" ->
        map (fun r => getProp r "key") (rows st')
        = map (fun r => getProp r "key") (rows st))
    /\ series st' = series st
    /\ mapping st' = mapping st
    /\ selectedSeriesIds st' = selectedSeriesIds st.
Proof.
  intros T st rowIndex field value row H st'.
  assert (Hlt : rowIndex < List.length (rows st)).
  { apply nth_error_Some. congruence. }
  assert (E : rows st'
              = arraySet rowIndex (setProp row field (cellValue value)) (rows st)).
  { unfold st', handleCellChange, handleCellChangeIn. simpl. now rewrite H. }
  rewrite E. split; [now apply arraySet_length|].
  split; [intros j N; now apply arraySet_other|].
  split; [|split; [|repeat split]].
  - exists (setProp row field (cellValue value)).
    split; [apply arraySet_nth|].
    split; [intros k N; now apply getProp_setProp_other|].
    rewrite getProp_setProp_same. unfold cellValue.
    destruct (String.eqb_spec value "") as [->|ne]; [split; [reflexivity | now left]|].
    destruct (PrimFloat.is_nan (Number value)) eqn:N.
    + split; [reflexivity | now right].
    + repeat split; assumption.
  - intro N. apply (arraySet_map _ _ row); [exact H|].
    now apply getProp_setProp_other.
Qed.

(** The cell [Revenue] of the first row, edited to [150], and to [n/a]. *)
Lemma cell_edit_changes_one_cell_witness :
  getProp (nth 0 (rows (handleCellChange 0 "Revenue" "150" initialApp)) []) "Revenue"
  = JNum 150
  /\ getProp (nth 0 (rows (handleCellChange 0 "Revenue" "n/a" initialApp)) []) "Revenue"
     = JStr "n/a"
  /\ List.length (rows (handleCellChange 0 "Revenue" "150" initialApp))
     = List.length (rows initialApp).
Proof.
  split; [vm_compute; reflexivity|]. split; [vm_compute; reflexivity|].
  exact (proj1 (cell_edit_changes_one_cell HostText initialApp 0 "Revenue" "150"
                  (mkRow 2019 120 48 30 12 30) eq_refl)).
Defined.

(** X6: with the host's [Number], a cell text made of white space only
    stores the number 0: [Number] reads it as 0, and only the empty text is
    kept as text. *)
Theorem blank_cell_text_stores_zero :
  forall value : string,
    value <> "" -> Host.trim value = "" ->
    cellValue (H := HostText) value = JNum 0.
Proof.
  intros value Hne Ht. unfold cellValue.
  destruct (String.eqb_spec value ""); [congruence|].
  assert (E : Number (JsText := HostText) value = 0%float).
  { change (Host.Number value = 0%float). unfold Host.Number. now rewrite Ht. }
  rewrite E. reflexivity.
Qed.

Lemma blank_cell_text_stores_zero_witness :
  cellValue (H := HostText) "  " = JNum 0.
Proof.
  apply blank_cell_text_stores_zero; [discriminate | reflexivity].
Defined.

(** ** Row headers edited under a label column other than [key] *)

Lemma arraySet_at (a : list DataRow) (x row : DataRow) (b : list DataRow) :
  arraySet (List.length a) row (a ++ x :: b) = a ++ row :: b.
Proof. induction a as [|y a IH]; simpl; [reflexivity | now rewrite IH]. Qed.

Lemma numbersOf_app (l1 l2 : list jsval) :
  numbersOf (l1 ++ l2) = numbersOf l1 ++ numbersOf l2.
Proof.
  induction l1 as [|v t IH]; simpl; [reflexivity|].
  destruct v; simpl; now rewrite IH.
Qed.

(** X7: a committed row-header edit while the label column is a series
    column writes the trimmed text, as text, into that column's cell of the
    row, whatever the text is and whatever the other rows hold: no other
    property of the row and no other row changes, the keys stay as they
    were, and the cell no longer counts among the numeric values of the
    column even when the text reads as a number. *)
Theorem row_label_edit_stores_text :
  forall (T : JsText) (st : App) (idx : nat) (row : DataRow),
    editingRowIndex (editing st) = Some idx ->
    nth_error (rows st) idx = Some row ->
    labelColumn (mapping st) <> "key" ->
    trim (editingRowValue (editing st)) <> "" ->
    let col := labelColumn (mapping st) in
    let st' := commitEditRowHeader st in
    (exists row',
        nth_error (rows st') idx = Some row'
        /\ getProp row' col = JStr (trim (editingRowValue (editing st)))
        /\ (forall k, k <> col -> getProp row' k = getProp row k))
    /\ (forall j, j <> idx -> nth_error (rows st') j = nth_error (rows st) j)
    /\ renderedKeys (rows st') = renderedKeys (rows st)
    /\ numbersOf (map (fun r => getProp r col) (rows st'))
       = numbersOf (map (fun r => getProp r col) (splice_out idx (rows st)))
    /\ editingRowIndex (editing st') = None.
Proof.
  intros T st idx row Hi Hr Hk Hv col st'.
  assert (Hlt : idx < List.length (rows st)).
  { apply nth_error_Some. congruence. }
  set (value := trim (editingRowValue (editing st))) in *.
  assert (E : rows st' = arraySet idx (setProp row col (JStr value)) (rows st)).
  { unfold st', commitEditRowHeader. rewrite Hi. fold value.
    destruct (value =? "") eqn:Ev; [apply String.eqb_eq in Ev; contradiction|].
    unfold commitRowUpdater. fold col.
    destruct (col =? "key") eqn:Ec; [apply String.eqb_eq in Ec; contradiction|].
    simpl. now rewrite Hr. }
  assert (Ee : editingRowIndex (editing st') = None).
  { unfold st', commitEditRowHeader. rewrite Hi. fold value.
    destruct (value =? ""); reflexivity. }
  rewrite E. split; [|split; [|split; [|split]]].
  - exists (setProp row col (JStr value)). split; [apply arraySet_nth|].
    split; [apply getProp_setProp_same|].
    intros k N. now apply getProp_setProp_other.
  - intros j N. now apply arraySet_other.
  - unfold renderedKeys. apply (arraySet_map _ _ row); [exact Hr|].
    cbv beta. rewrite getProp_setProp_other; [reflexivity|].
    intro e. apply Hk. symmetry. exact e.
  - destruct (nth_error_split (rows st) idx Hr) as [a [b [-> <-]]].
    rewrite arraySet_at, splice_out_at, !map_app, !numbersOf_app. simpl.
    now rewrite getProp_setProp_same.
  - exact Ee.
Qed.

(** The first row's header edited to [150] while [Revenue] is the label
    column: the cell holds the text, where the same text typed into the
    cell itself is stored as the number. *)
Lemma row_label_edit_stores_text_witness :
  let st := setEditingRowValue "150"
              (startEditRowHeader 0 (setLabelColumn "Revenue" twoRowApp)) in
  (exists row',
      nth_error (rows (commitEditRowHeader st)) 0 = Some row'
      /\ getProp row' "Revenue" = JStr "150"
      /\ (forall k, k <> "Revenue"
                    -> getProp row' k = getProp (mkRow 2019 120 48 30 12 30) k))
  /\ numbersOf (map (fun r => getProp r "Revenue") (rows (commitEditRowHeader st)))
     = [135%float]
  /\ getProp (nth 0 (rows (handleCellChange 0 "Revenue" "150" twoRowApp)) []) "Revenue"
     = JNum 150.
Proof.
  intro st.
  pose proof (row_label_edit_stores_text HostText st 0 (mkRow 2019 120 48 30 12 30)
                eq_refl eq_refl) as H.
  assert (Hk : labelColumn (mapping st) <> "key") by discriminate.
  assert (Hv : trim (editingRowValue (editing st)) <> "") by discriminate.
  destruct (H Hk Hv) as [H1 _].
  split; [exact H1|]. split; vm_compute; reflexivity.
Defined.

(** ** Drops *)

(** Taking an element out and putting it back anywhere gives a list with
    the same elements. *)
Lemma splice_move_Permutation {A : Type} (s i : nat) (x : A) (l : list A) :
  nth_error l s = Some x -> Permutation (splice_in i x (splice_out s l)) l.
Proof.
  intro H. destruct (nth_error_split l s H) as [a [b [-> <-]]].
  rewrite splice_out_at. unfold splice_in.
  etransitivity; [symmetry; apply Permutation_middle|].
  rewrite firstn_skipn. apply Permutation_middle.
Qed.

Lemma filter_Permutation {A : Type} (p : A -> bool) (l l' : list A) :
  Permutation l l' -> Permutation (filter p l) (filter p l').
Proof.
  induction 1 as [|x l l' _ IH|x y l|l l' l'' _ IH1 _ IH2]; simpl.
  - constructor.
  - destruct (p x); [now constructor | exact IH].
  - destruct (p x), (p y); try reflexivity. apply perm_swap.
  - now transitivity (filter p l').
Qed.

Lemma reorderSeries_Permutation (sourceId targetId : string) (prev : list SeriesMeta) :
  Permutation (reorderSeries sourceId targetId prev) prev.
Proof.
  unfold reorderSeries.
  destruct (findIndex _ prev) as [s|]; [|reflexivity].
  destruct (findIndex _ prev) as [t|]; [|reflexivity].
  destruct (nth_error prev s) as [x|] eqn:E; [|reflexivity].
  now apply splice_move_Permutation.
Qed.

Lemma reorderRows_Permutation (sourceKey targetKey : jsval) (pos : option DragPosition)
    (prev : list DataRow) :
  Permutation (reorderRows sourceKey targetKey pos prev) prev.
Proof.
  unfold reorderRows.
  destruct (findIndex _ prev) as [s|]; [|reflexivity].
  destruct (findIndex _ prev) as [t|]; [|reflexivity].
  match goal with |- context [if ?c then prev else _] => destruct c end; [reflexivity|].
  destruct (nth_error prev s) as [x|] eqn:E; [|reflexivity].
  now apply splice_move_Permutation.
Qed.

Lemma onSeriesDrop_series (targetId : string) (st : App) :
  series (onSeriesDrop targetId st)
  = match dragSeriesId (drag st) with
    | None => series st
    | Some sourceId =>
        if (sourceId =? "") || (sourceId =? targetId) then series st
        else reorderSeries sourceId targetId (series st)
    end.
Proof.
  unfold onSeriesDrop. destruct (dragSeriesId (drag st)) as [s|]; [|reflexivity].
  destruct ((s =? "") || (s =? targetId)); reflexivity.
Qed.

Lemma onRowDrop_rows (targetKey : jsval) (st : App) :
  rows (onRowDrop targetKey st)
  = match dragRowKey (drag st) with
    | None => rows st
    | Some sourceKey =>
        reorderRows sourceKey targetKey (rowDragPosition (drag st)) (rows st)
    end.
Proof. unfold onRowDrop. destruct (dragRowKey (drag st)); reflexivity. Qed.

(** X8: a drop never loses, adds or changes an entry. Whatever the state
    and the target, the registry after a column drop is a permutation of the
    registry before, the row store after a row drop is a permutation of the
    row store before, and neither drop touches the other store, the
    selection or the mapping; so the numbers of columns and rows are kept,
    and ids that were unique stay unique. *)
Theorem drop_permutes :
  forall (st : App),
    (forall targetId : string,
        let st' := onSeriesDrop targetId st in
        Permutation (series st') (series st)
        /\ List.length (series st') = List.length (series st)
        /\ (NoDup (map id (series st)) -> NoDup (map id (series st')))
        /\ Permutation (visibleIds (series st')) (visibleIds (series st))
        /\ rows st' = rows st
        /\ selectedSeriesIds st' = selectedSeriesIds st
        /\ mapping st' = mapping st)
    /\ (forall targetKey : jsval,
           let st' := onRowDrop targetKey st in
           Permutation (rows st') (rows st)
           /\ List.length (rows st') = List.length (rows st)
           /\ Permutation (activeRows (rows st')) (activeRows (rows st))
           /\ series st' = series st
           /\ selectedSeriesIds st' = selectedSeriesIds st
           /\ mapping st' = mapping st).
Proof.
  intro st. split.
  - intros targetId st'.
    assert (P : Permutation (series st') (series st)).
    { unfold st'. rewrite onSeriesDrop_series.
      destruct (dragSeriesId (drag st)) as [s|]; [|reflexivity].
      destruct ((s =? "") || (s =? targetId)); [reflexivity|].
      apply reorderSeries_Permutation. }
    split; [exact P|]. split; [now apply Permutation_length|].
    split; [intro Hn; apply (Permutation_NoDup (l := map id (series st)));
            [apply Permutation_map; now symmetry | exact Hn]|].
    split; [unfold visibleIds; apply Permutation_map; now apply filter_Permutation|].
    unfold st', onSeriesDrop. destruct (dragSeriesId (drag st)) as [s|];
      [destruct ((s =? "") || (s =? targetId))|]; repeat split.
  - intros targetKey st'.
    assert (P : Permutation (rows st') (rows st)).
    { unfold st'. rewrite onRowDrop_rows.
      destruct (dragRowKey (drag st)); [apply reorderRows_Permutation | reflexivity]. }
    split; [exact P|]. split; [now apply Permutation_length|].
    split; [unfold activeRows; now apply filter_Permutation|].
    unfold st', onRowDrop. destruct (dragRowKey (drag st)); repeat split.
Qed.

(** Two elements of a list, the first before the second, and what is
    around them. *)
Lemma split_two {A : Type} (l : list A) (i j : nat) (x y : A) :
  i < j -> nth_error l i = Some x -> nth_error l j = Some y ->
  exists a m b,
    l = a ++ x :: m ++ y :: b /\ List.length a = i /\ j = i + 1 + List.length m.
Proof.
  intros Hlt Hx Hy. destruct (nth_error_split l i Hx) as [a [r [-> Hl]]].
  subst i. rewrite nth_error_app2 in Hy by lia.
  destruct (j - List.length a) as [|k] eqn:Ek; [lia|]. simpl in Hy.
  destruct (nth_error_split r k Hy) as [m [b [-> Hm]]].
  exists a, m, b. repeat split. lia.
Qed.

Lemma splice_in_after {A : Type} (a b : list A) (x y : A) :
  splice_in (S (List.length a)) x (a ++ y :: b) = a ++ y :: x :: b.
Proof.
  change (a ++ y :: b) with (a ++ [y] ++ b). rewrite app_assoc.
  replace (S (List.length a)) with (List.length (a ++ [y]))
    by (rewrite length_app; simpl; lia).
  rewrite splice_in_at, <- app_assoc. reflexivity.
Qed.

(** The two [splice] calls of a row drop, with the index arithmetic before
    them: [x] at [s] is dropped on [y] at [t], on its lower half when [d]
    holds. What is left after [x] is taken out is [a ++ y :: b], and [x]
    goes right after [y], or right before it. *)
Lemma move_placement {A : Type} (l : list A) (s t : nat) (x y : A) (d : bool) :
  nth_error l s = Some x -> nth_error l t = Some y -> s <> t ->
  exists a b,
    splice_out s l = a ++ y :: b
    /\ List.length a = (if (s <? t)%nat then t - 1 else t)
    /\ (let ins0 := t + (if d then 1 else 0) in
        let ins := if (s <? ins0)%nat then ins0 - 1 else ins0 in
        if (ins =? s)%nat then l else splice_in ins x (splice_out s l))
       = if d then a ++ y :: x :: b else a ++ x :: y :: b.
Proof.
  intros Hx Hy Hne. destruct (Nat.lt_ge_cases s t) as [Hlt|Hge].
  - destruct (split_two l s t x y Hlt Hx Hy) as [a0 [m [b [-> [Hs Ht]]]]].
    exists (a0 ++ m), b. subst s.
    rewrite splice_out_at, app_assoc. split; [reflexivity|].
    assert (Hla : List.length (a0 ++ m) = t - 1) by (rewrite length_app; lia).
    split.
    { destruct (Nat.ltb_spec (List.length a0) t); [exact Hla | lia]. }
    cbv zeta. destruct d.
    + destruct (Nat.ltb_spec (List.length a0) (t + 1)); [|lia].
      destruct (Nat.eqb_spec (t + 1 - 1) (List.length a0)); [lia|].
      replace (t + 1 - 1) with (S (List.length (a0 ++ m))) by lia.
      apply splice_in_after.
    + destruct (Nat.ltb_spec (List.length a0) (t + 0)); [|lia].
      replace (t + 0 - 1) with (List.length (a0 ++ m)) by lia.
      destruct (Nat.eqb_spec (List.length (a0 ++ m)) (List.length a0)) as [e|ne].
      * rewrite length_app in e. destruct m; [|simpl in e; lia].
        simpl. now rewrite app_nil_r.
      * apply splice_in_at.
  - assert (Hlt : t < s) by lia.
    destruct (split_two l t s y x Hlt Hy Hx) as [a [m [b0 [-> [Ht Hs]]]]].
    exists a, (m ++ b0).
    assert (Eo : splice_out s (a ++ y :: m ++ x :: b0) = a ++ y :: m ++ b0).
    { change (a ++ y :: m ++ x :: b0) with (a ++ (y :: m) ++ x :: b0).
      rewrite app_assoc.
      replace s with (List.length (a ++ y :: m)) by (rewrite length_app; simpl; lia).
      rewrite splice_out_at, <- app_assoc. reflexivity. }
    rewrite Eo. split; [reflexivity|]. split.
    { destruct (Nat.ltb_spec s t); [lia | exact Ht]. }
    cbv zeta. destruct d.
    + destruct (Nat.ltb_spec s (t + 1)); [lia|].
      destruct (Nat.eqb_spec (t + 1) s) as [e|ne].
      * destruct m; [reflexivity | simpl in Hs; lia].
      * replace (t + 1) with (S (List.length a)) by lia. apply splice_in_after.
    + destruct (Nat.ltb_spec s (t + 0)); [lia|].
      destruct (Nat.eqb_spec (t + 0) s); [lia|].
      replace (t + 0) with (List.length a) by lia. apply splice_in_at.
Qed.

Lemma reorderRows_self (k : jsval) (pos : option DragPosition) (l : list DataRow) :
  reorderRows k k pos l = l.
Proof.
  unfold reorderRows.
  destruct (findIndex (fun r => strict_eq (getProp r "key") k) l) as [s|];
    [|reflexivity].
  cbv zeta.
  assert (H : forall d, d <= 1 ->
                ((if (s <? s + d)%nat then s + d - 1 else s + d) =? s)%nat = true).
  { intros d Hd. apply Nat.eqb_eq. destruct (Nat.ltb_spec s (s + d)); lia. }
  destruct pos as [[|]|]; rewrite H by lia; reflexivity.
Qed.

(** X9: where a dropped row lands. A drop with no row drag in progress, a
    drop of a row on itself, and a drop whose source or target key no row
    holds leave the row store as it is. Otherwise the row is taken out and
    put back next to the target: right after it when the pointer was over
    the target's lower half, right before it otherwise; every other row
    keeps its place relative to the others. The drop ends the drag. *)
Theorem row_drop_placement :
  forall (st : App) (targetKey : jsval),
    (dragRowKey (drag st) = None -> rows (onRowDrop targetKey st) = rows st)
    /\ (forall sourceKey : jsval,
           dragRowKey (drag st) = Some sourceKey ->
           sourceKey = targetKey
           \/ (forall z, In z (rows st) -> strict_eq (getProp z "key") sourceKey = false)
           \/ (forall z, In z (rows st) -> strict_eq (getProp z "key") targetKey = false) ->
           rows (onRowDrop targetKey st) = rows st)
    /\ (forall (sourceKey : jsval) (s t : nat) (x y : DataRow),
           dragRowKey (drag st) = Some sourceKey ->
           findIndex (fun r => strict_eq (getProp r "key") sourceKey) (rows st) = Some s ->
           findIndex (fun r => strict_eq (getProp r "key") targetKey) (rows st) = Some t ->
           s <> t ->
           nth_error (rows st) s = Some x ->
           nth_error (rows st) t = Some y ->
           exists a b,
             splice_out s (rows st) = a ++ y :: b
             /\ List.length a = (if (s <? t)%nat then t - 1 else t)
             /\ rows (onRowDrop targetKey st)
                = match rowDragPosition (drag st) with
                  | Some below => a ++ y :: x :: b
                  | _ => a ++ x :: y :: b
                  end)
    /\ drag (onRowDrop targetKey st) = mkDrag (dragSeriesId (drag st)) None None None.
Proof.
  intros st targetKey. split; [|split; [|split]].
  - intro H. rewrite onRowDrop_rows. now rewrite H.
  - intros sourceKey H C. rewrite onRowDrop_rows, H. destruct C as [->|[C|C]].
    + apply reorderRows_self.
    + now apply reorderRows_no_source.
    + now apply reorderRows_no_target.
  - intros sourceKey s t x y H Hs Ht Hne Hx Hy.
    rewrite onRowDrop_rows, H. unfold reorderRows. rewrite Hs, Ht, Hx.
    destruct (rowDragPosition (drag st)) as [[|]|].
    + destruct (move_placement (rows st) s t x y false Hx Hy Hne) as [a [b [E1 [E2 E3]]]].
      exists a, b. split; [exact E1|]. split; [exact E2|]. exact E3.
    + destruct (move_placement (rows st) s t x y true Hx Hy Hne) as [a [b [E1 [E2 E3]]]].
      exists a, b. split; [exact E1|]. split; [exact E2|]. exact E3.
    + destruct (move_placement (rows st) s t x y false Hx Hy Hne) as [a [b [E1 [E2 E3]]]].
      exists a, b. split; [exact E1|]. split; [exact E2|]. exact E3.
  - unfold onRowDrop. destruct (dragRowKey (drag st)); reflexivity.
Qed.

(** The row keyed 2019, at index 0, dragged onto the lower half of the row
    keyed 2021, at index 2. *)
Lemma row_drop_placement_witness :
  let st := onRowDragOver (JNum 2021) below (onRowDragStart (JNum 2019) initialApp) in
  (exists a b,
      splice_out 0 (rows st) = a ++ mkRow 2021 155 60 36 16 43 :: b
      /\ List.length a = 1
      /\ rows (onRowDrop (JNum 2021) st)
         = a ++ mkRow 2021 155 60 36 16 43 :: mkRow 2019 120 48 30 12 30 :: b)
  /\ map (fun r => getProp r "key") (rows (onRowDrop (JNum 2021) st))
     = [JNum 2020; JNum 2021; JNum 2019; JNum 2022; JNum 2023; JNum 2024; JNum 2025].
Proof.
  intro st. split; [|vm_compute; reflexivity].
  apply (proj1 (proj2 (proj2 (row_drop_placement st (JNum 2021))))
           (JNum 2019) 0 2 (mkRow 2019 120 48 30 12 30) (mkRow 2021 155 60 36 16 43)).
  - reflexivity.
  - reflexivity.
  - reflexivity.
  - discriminate.
  - reflexivity.
  - reflexivity.
Defined.

(** ** Visibility: round trips and show-all *)

Lemma flipVisible_involutive (s : SeriesMeta) : flipVisible (flipVisible s) = s.
Proof. destruct s. unfold flipVisible. simpl. now rewrite negb_involutive. Qed.

Lemma toggleVisibleIn_twice (i : string) (ser : list SeriesMeta) :
  toggleVisibleIn i (toggleVisibleIn i ser) = ser.
Proof.
  unfold toggleVisibleIn. rewrite map_map. rewrite <- (map_id ser) at 2.
  apply map_ext. intro s. destruct (id s =? i) eqn:E.
  - simpl. rewrite E. apply flipVisible_involutive.
  - now rewrite E.
Qed.

(** Two toggles of a row leave its flag as a boolean with the truth value
    it had. *)
Lemma hideRowIn_twice (idx : nat) (rs : list DataRow) :
  hideRowIn idx (hideRowIn idx rs)
  = mapi (fun r j => if (j =? idx)%nat
                     then setProp r "_hidden" (JBool (isHidden r)) else r) rs.
Proof.
  unfold hideRowIn, mapi. rewrite mapi_from_compose. apply mapi_from_ext.
  intros r j. destruct (j =? idx)%nat; [|reflexivity].
  rewrite getProp_setProp_same, setProp_setProp. simpl.
  now rewrite negb_involutive.
Qed.

Lemma mapi_from_map {A B C : Type} (g : B -> C) (f : A -> nat -> B) (l : list A)
    (k : nat) :
  map g (mapi_from k f l) = mapi_from k (fun x j => g (f x j)) l.
Proof.
  revert k. induction l as [|x t IH]; intro k; simpl; [reflexivity|]. now rewrite IH.
Qed.

Lemma mapi_from_const {A B : Type} (g : A -> B) (l : list A) (k : nat) :
  mapi_from k (fun x _ => g x) l = map g l.
Proof.
  revert k. induction l as [|x t IH]; intro k; simpl; [reflexivity|]. now rewrite IH.
Qed.

Lemma isHidden_setProp (r : DataRow) (b : bool) :
  isHidden (setProp r "_hidden" (JBool b)) = b.
Proof. unfold isHidden. now rewrite getProp_setProp_same. Qed.

(** The number of active rows depends on the hidden flags only. *)
Lemma activeRows_length_flags (l l' : list DataRow) :
  map isHidden l = map isHidden l' ->
  List.length (activeRows l) = List.length (activeRows l').
Proof.
  unfold activeRows. fold isHidden.
  revert l'. induction l as [|r t IH]; intros [|r' t'] H; simpl in *;
    try discriminate; [reflexivity|].
  injection H as Hr Ht. fold (isHidden r). fold (isHidden r'). rewrite Hr.
  destruct (isHidden r'); simpl; [|f_equal]; now apply IH.
Qed.

(** X10: hiding and showing again. Toggling a column twice gives the
    registry back, also with the effects run after each toggle. Toggling a
    row twice gives back every row's hidden status and every cell, the flag
    being stored as a boolean from then on; so a third toggle undoes the
    second exactly. *)
Theorem visibility_toggle_round_trip :
  (forall (i : string) (st : App),
      series (runEffects (toggleSeriesVisible i (runEffects (toggleSeriesVisible i st))))
      = series st)
  /\ (forall (idx : nat) (st : App),
         let st' := hideRow idx (hideRow idx st) in
         map isHidden (rows st') = map isHidden (rows st)
         /\ (forall k, k <> "_hidden" ->
                       map (fun r => getProp r k) (rows st')
                       = map (fun r => getProp r k) (rows st))
         /\ List.length (activeRows (rows st')) = List.length (activeRows (rows st))
         /\ rows (hideRow idx st') = rows (hideRow idx st)).
Proof.
  split.
  - intros i st. rewrite runEffects_series. simpl. apply toggleVisibleIn_twice.
  - intros idx st st'.
    assert (E : rows st'
                = mapi (fun r j => if (j =? idx)%nat
                                   then setProp r "_hidden" (JBool (isHidden r)) else r)
                       (rows st)).
    { unfold st'. simpl. apply hideRowIn_twice. }
    assert (Hh : map isHidden (rows st') = map isHidden (rows st)).
    { rewrite E. unfold mapi. rewrite mapi_from_map.
      rewrite <- (mapi_from_const isHidden (rows st) 0). apply mapi_from_ext.
      intros r j. destruct (j =? idx)%nat; [apply isHidden_setProp | reflexivity]. }
    split; [exact Hh|]. split; [|split].
    + intros k N. rewrite E. unfold mapi. rewrite mapi_from_map.
      rewrite <- (mapi_from_const (fun r => getProp r k) (rows st) 0).
      apply mapi_from_ext. intros r j.
      destruct (j =? idx)%nat; [now apply getProp_setProp_other | reflexivity].
    + now apply activeRows_length_flags.
    + simpl. change (hideRowIn idx (hideRowIn idx (hideRowIn idx (rows st)))
                     = hideRowIn idx (rows st)).
      rewrite hideRowIn_twice. unfold hideRowIn, mapi. rewrite mapi_from_compose.
      apply mapi_from_ext. intros r j. destruct (j =? idx)%nat; [|reflexivity].
      rewrite setProp_setProp. f_equal. f_equal. f_equal. f_equal.
      unfold isHidden. now rewrite getProp_setProp_same.
Qed.

Lemma showAll_visibleIds (ser : list SeriesMeta) :
  visibleIds (map (fun s => mkSeries (id s) (label s) (color s) true) ser) = map id ser.
Proof.
  unfold visibleIds. induction ser as [|s t IH]; simpl; [reflexivity|]. now rewrite IH.
Qed.

Lemma showAll_refersHidden (ser : list SeriesMeta) (slot : string) :
  refersHidden (map (fun s => mkSeries (id s) (label s) (color s) true) ser) slot = false.
Proof.
  unfold refersHidden. induction ser as [|s t IH]; simpl; [reflexivity|].
  rewrite IH. now rewrite andb_false_r.
Qed.

(** X11: show-all shows everything and changes nothing else. After
    [showAllRows] every row is active and every cell is what it was. After
    [showAllSeries] and the effects every column is visible, ids, labels and
    colours are what they were, no slot names a hidden column, and a slot
    that names a column of the registry (or, for the label slot, the key
    column) keeps its value. *)
Theorem show_all_shows_everything :
  forall st : App,
    (let st' := runEffects (showAllRows st) in
     activeRows (rows st') = rows st'
     /\ List.length (rows st') = List.length (rows st)
     /\ (forall k, k <> "_hidden" ->
                   map (fun r => getProp r k) (rows st')
                   = map (fun r => getProp r k) (rows st))
     /\ series st' = series st)
    /\ (let st' := runEffects (showAllSeries st) in
        let ids := map id (series st) in
        visibleIds (series st') = ids
        /\ map id (series st') = ids
        /\ map label (series st') = map label (series st)
        /\ map color (series st') = map color (series st)
        /\ rows st' = rows st
        /\ (forall slot, refersHidden (series st') slot = false)
        /\ (In (pieSeriesColumn (mapping st)) ids ->
            pieSeriesColumn (mapping st') = pieSeriesColumn (mapping st))
        /\ (In (histogramColumn (mapping st)) ids ->
            histogramColumn (mapping st') = histogramColumn (mapping st))
        /\ (In (scatterYColumn (mapping st)) ids ->
            scatterYColumn (mapping st') = scatterYColumn (mapping st))
        /\ (labelColumn (mapping st) = "key" \/ In (labelColumn (mapping st)) ids ->
            labelColumn (mapping st') = labelColumn (mapping st))).
Proof.
  intro st. split.
  - cbv zeta. rewrite runEffects_rows, runEffects_series. simpl.
    split; [|split; [|split]].
    + unfold activeRows. apply filter_all. intros r Hr.
      apply in_map_iff in Hr. destruct Hr as [r0 [<- _]].
      now rewrite getProp_setProp_same.
    + apply length_map.
    + intros k N. rewrite map_map. apply map_ext. intro r.
      now apply getProp_setProp_other.
    + reflexivity.
  - cbv zeta. rewrite runEffects_rows, runEffects_series, runEffects_mapping. simpl.
    rewrite showAll_visibleIds.
    assert (Hs : forall slot, In slot (map id (series st)) ->
                   (if negb (includes (map id (series st)) slot)
                    then firstOrEmpty (map id (series st)) else slot) = slot).
    { intros slot H. apply includes_In in H. now rewrite H. }
    split; [reflexivity|]. split; [now rewrite map_map|].
    split; [now rewrite map_map|]. split; [now rewrite map_map|].
    split; [reflexivity|]. split; [apply showAll_refersHidden|].
    split; [exact (Hs _)|]. split; [exact (Hs _)|]. split; [exact (Hs _)|].
    intros [H|H].
    + rewrite H. reflexivity.
    + apply includes_In in H. rewrite H. simpl. now rewrite andb_false_r.
Qed.

(** ** The end of a drag *)

Lemma hoverRows_drag (overs : list (jsval * DragPosition)) (st : App) :
  exists o p,
    hoverRows overs st
    = set_drag (mkDrag (dragSeriesId (drag st)) (dragRowKey (drag st)) o p) st.
Proof.
  unfold hoverRows. revert st. induction overs as [|[k q] t IH]; intro st; simpl.
  - exists (rowDragOverKey (drag st)), (rowDragPosition (drag st)).
    destruct st as [? ? ? ? ? ? ? [? ? ? ?] ?]. reflexivity.
  - destruct (IH (onRowDragOver k q st)) as [o [p E]]. exists o, p. rewrite E.
    reflexivity.
Qed.

(** X12: what ends a drag. A row drag that ends without a drop leaves the
    state exactly as it was before the drag started, whatever rows the
    pointer hovered on the way. A column drag has no such end: the id of the
    dragged column stays recorded, a row drag started and ended afterwards
    does not clear it, and the next drop on a column header moves that
    column. *)
Theorem drag_end_clears_row_drag_only :
  (forall (st : App) (rowKey : jsval) (overs : list (jsval * DragPosition)),
      dragRowKey (drag st) = None ->
      rowDragOverKey (drag st) = None ->
      rowDragPosition (drag st) = None ->
      onRowDragEnd (hoverRows overs (onRowDragStart rowKey st)) = st)
  /\ (forall (st : App) (sourceId targetId : string) (rowKey : jsval)
             (overs : list (jsval * DragPosition)),
         let abandoned := onSeriesDragStart sourceId st in
         let later := onRowDragEnd (hoverRows overs (onRowDragStart rowKey abandoned)) in
         dragSeriesId (drag later) = Some sourceId
         /\ series (onSeriesDrop targetId later)
            = series (reorderColumn sourceId targetId st)).
Proof.
  split.
  - intros st rowKey overs H1 H2 H3.
    destruct (hoverRows_drag overs (onRowDragStart rowKey st)) as [o [p E]].
    rewrite E. unfold onRowDragStart.
    destruct st as [r s sel m ct hb ed [d k ok op] sw]. simpl in *. subst.
    destruct (editingRowIndex ed); reflexivity.
  - intros st sourceId targetId rowKey overs abandoned later.
    destruct (hoverRows_drag overs (onRowDragStart rowKey abandoned)) as [o [p E]].
    unfold later. rewrite E. unfold abandoned, onRowDragStart, reorderColumn.
    destruct (editingRowIndex (editing (onSeriesDragStart sourceId st)));
      (split; [reflexivity|]); rewrite !onSeriesDrop_series; reflexivity.
Qed.

(** A drag of the row keyed 2019 over two rows, ended without a drop. *)
Lemma drag_end_clears_row_drag_only_witness :
  onRowDragEnd (hoverRows [(JNum 2020, below); (JNum 2021, above)]
                  (onRowDragStart (JNum 2019) initialApp))
  = initialApp.
Proof.
  apply (proj1 drag_end_clears_row_drag_only initialApp); reflexivity.
Defined.

(** ** The options of the label pickers *)

Lemma insertKey_In (n : Z) (k : string) (l : list (Z * string)) (x : string) :
  In x (map snd (insertKey n k l)) <-> x = k \/ In x (map snd l).
Proof.
  induction l as [|[m k'] t IH]; simpl.
  - split; intros [H|H]; auto.
  - destruct (n <? m)%Z; simpl; [split; intros [H|H]; auto|].
    rewrite IH. split; intros H; repeat destruct H as [H|H]; auto.
Qed.

(** [Object.keys] lists every own property name, and nothing else. *)
Lemma objectKeys_In (r : DataRow) (c : string) :
  In c (objectKeys r) <-> In c (map fst r).
Proof.
  unfold objectKeys. rewrite in_app_iff, filter_In.
  set (names := map fst r). clearbody names.
  assert (H : In c (map snd
                      (fold_right (fun k acc => match arrayIndex k with
                                                | Some n => insertKey n k acc
                                                | None => acc
                                                end) [] names))
              <-> In c names /\ arrayIndex c <> None).
  { induction names as [|k t IH]; simpl; [tauto|].
    destruct (arrayIndex k) as [n|] eqn:E.
    - rewrite insertKey_In, IH. split.
      + intros [->|[H1 H2]]; [split; [now left | congruence] | tauto].
      + intros [[->|H1] H2]; [now left | tauto].
    - rewrite IH. split; [tauto|]. intros [[->|H1] H2]; [congruence | tauto]. }
  rewrite H. destruct (arrayIndex c); split.
  - intros [[H1 _]|[_ H2]]; [exact H1 | discriminate].
  - intro H1. left. split; [exact H1 | discriminate].
  - intros [[_ H2]|[H1 _]]; [congruence | exact H1].
  - intro H1. right. now split.
Qed.

(** Without array indices among the names, in insertion order. *)
Lemma objectKeys_order (r : DataRow) :
  (forall k, In k (map fst r) -> arrayIndex k = None) -> objectKeys r = map fst r.
Proof.
  unfold objectKeys. set (names := map fst r). clearbody names. intro H.
  assert (E : fold_right (fun k acc => match arrayIndex k with
                                       | Some n => insertKey n k acc
                                       | None => acc
                                       end) [] names = []).
  { induction names as [|k t IH]; simpl; [reflexivity|].
    rewrite (H k (or_introl eq_refl)). apply IH. intros j Hj. apply H. now right. }
  rewrite E. simpl. apply filter_all. intros k Hk. now rewrite (H k Hk).
Qed.

Lemma setProp_names (r : DataRow) (k : string) (v : jsval) (c : string) :
  In c (map fst (setProp r k v)) <-> c = k \/ In c (map fst r).
Proof.
  induction r as [|[k' w] t IH]; simpl.
  - split; intros [H|H]; auto.
  - destruct (String.eqb_spec k' k) as [->|ne]; simpl.
    + split; intros H; repeat destruct H as [H|H]; auto.
    + rewrite IH. split; intros H; repeat destruct H as [H|H]; auto.
Qed.

(** The [hidden] set of [labelOptions] holds the ids the registry has on a
    hidden column. *)
Lemma hidden_includes (ser : list SeriesMeta) (c : string) :
  includes (map id (filter (fun s => negb (visible s)) ser)) c = refersHidden ser c.
Proof.
  unfold includes, refersHidden. induction ser as [|s t IH]; simpl; [reflexivity|].
  destruct (visible s); simpl; rewrite IH.
  - now rewrite andb_false_r.
  - now rewrite andb_true_r.
Qed.

Lemma labelOptions_In (st : App) (r0 : DataRow) (rest : list DataRow) (c : string) :
  rows st = r0 :: rest ->
  (In c (labelOptions st) <-> In c (map fst r0) /\ refersHidden (series st) c = false).
Proof.
  intro H. unfold labelOptions. rewrite H, filter_In, objectKeys_In, hidden_includes.
  now rewrite negb_true_iff.
Qed.

(** X13: what the label, X-axis, size and colour pickers offer. With no
    rows the only option is [key]. Otherwise the options are the property
    names of the first row that are not ids of hidden columns, in the order
    the first row has them. The first row's [_hidden] flag is such a
    property: it is not offered while the first row has never been hidden
    or shown, and it is offered after [showAllRows] or a toggle of the first
    row. Chosen as the label column, it is put back to [key] by the next
    pass of the reconciler. *)
Theorem label_options_offered :
  forall st : App,
    (rows st = [] -> labelOptions st = ["key"])
    /\ (forall (r0 : DataRow) (rest : list DataRow),
           rows st = r0 :: rest ->
           (forall c, In c (labelOptions st)
                      <-> In c (map fst r0) /\ refersHidden (series st) c = false)
           /\ ((forall k, In k (map fst r0) -> arrayIndex k = None) ->
               labelOptions st
               = filter (fun c => negb (refersHidden (series st) c)) (map fst r0))
           /\ (~ In "_hidden" (map fst r0) -> ~ In "_hidden" (labelOptions st))
           /\ (refersHidden (series st) "_hidden" = false ->
               In "_hidden" (labelOptions (hideRow 0 st))
               /\ In "_hidden" (labelOptions (showAllRows st))))
    /\ (~ In "_hidden" (visibleIds (series st)) ->
        labelColumn (mapping (runEffects (setLabelColumn "_hidden" st))) = "key").
Proof.
  intro st. split; [|split].
  - intro H. unfold labelOptions. now rewrite H.
  - intros r0 rest H. split; [|split; [|split]].
    + intro c. now apply (labelOptions_In st r0 rest).
    + intro Hk. unfold labelOptions. rewrite H, (objectKeys_order r0 Hk).
      apply filter_ext. intro c. now rewrite hidden_includes.
    + intros N Hin. apply (labelOptions_In st r0 rest _ H) in Hin. tauto.
    + intro Hh. split.
      * apply (labelOptions_In (hideRow 0 st)
                 (setProp r0 "_hidden" (JBool (negb (truthy (getProp r0 "_hidden")))))
                 (mapi_from 1 (fun r i =>
                                 if (i =? 0)%nat
                                 then setProp r "_hidden"
                                        (JBool (negb (truthy (getProp r "_hidden"))))
                                 else r) rest)).
        -- simpl. now rewrite H.
        -- split; [apply setProp_names; now left | exact Hh].
      * apply (labelOptions_In (showAllRows st)
                 (setProp r0 "_hidden" (JBool false))
                 (map (fun r => setProp r "_hidden" (JBool false)) rest)).
        -- simpl. now rewrite H.
        -- split; [apply setProp_names; now left | exact Hh].
  - intro N. rewrite runEffects_mapping. simpl.
    apply includes_false in N. now rewrite N.
Qed.

(** The options in the initial state, and after the first row was hidden
    and all rows shown again. *)
Lemma label_options_offered_witness :
  labelOptions initialApp
  = ["key"; "Revenue"; "COGS"; "Operating Expenses"; "R&D"; "Net Profit"]
  /\ In "_hidden" (labelOptions (showAllRows initialApp))
  /\ labelOptions (showAllRows (hideRow 0 initialApp))
     = ["key"; "Revenue"; "COGS"; "Operating Expenses"; "R&D"; "Net Profit"; "_hidden"].
Proof.
  split; [reflexivity|]. split; [|reflexivity].
  exact (proj2 (proj2 (proj2 (proj2 (proj1 (proj2 (label_options_offered initialApp))
                                       (mkRow 2019 120 48 30 12 30)
                                       (tl initialRows) eq_refl)))
                  eq_refl)).
Defined.

Lemma toggleVisibleIn_hides (c : string) (ser : list SeriesMeta) (s : SeriesMeta) :
  In s ser -> id s = c -> visible s = true -> refersHidden (toggleVisibleIn c ser) c = true.
Proof.
  intros Hs Hi Hv. apply refersHidden_true. exists (flipVisible s).
  split; [|split; [exact Hi | simpl; now rewrite Hv]].
  unfold toggleVisibleIn. apply in_map_iff. exists s. split; [|exact Hs].
  rewrite Hi. now rewrite String.eqb_refl.
Qed.

(** X14: the X-axis slot is not reconciled. When the column the scatter
    X axis names is hidden, the slot keeps naming it after the effects have
    run, and after any number of further passes: the scatter chart still
    reads its X values from the hidden column, while the X-axis picker no
    longer lists that column among its options. *)
Theorem x_axis_slot_not_reconciled :
  forall (st : App) (c : string) (s : SeriesMeta),
    In s (series st) -> id s = c -> visible s = true ->
    scatterXColumn (mapping st) = c ->
    rows st <> [] ->
    let st' := runEffects (toggleSeriesVisible c st) in
    scatterXColumn (mapping st') = c
    /\ scatterXColumn (mapping (runEffects st')) = c
    /\ refersHidden (series st') c = true
    /\ ~ In c (labelOptions st')
    /\ (chartType st = scatter -> currentXColumn st' = c).
Proof.
  intros st c s Hs Hi Hv Hx Hr st'.
  assert (Hh : refersHidden (series st') c = true).
  { unfold st'. rewrite runEffects_series. simpl.
    now apply (toggleVisibleIn_hides c (series st) s). }
  assert (E : scatterXColumn (mapping st') = c).
  { unfold st'. rewrite runEffects_mapping. simpl. exact Hx. }
  split; [exact E|]. split; [rewrite runEffects_mapping; simpl; exact E|].
  split; [exact Hh|]. split.
  - destruct (rows st) as [|r0 rest] eqn:R; [congruence|].
    intro Hin. apply (labelOptions_In st' r0 rest) in Hin.
    + destruct Hin as [_ Hin]. congruence.
    + unfold st'. rewrite runEffects_rows. simpl. exact R.
  - intro Hc. unfold currentXColumn.
    assert (Ec : chartType st' = chartType st) by reflexivity.
    rewrite Ec, Hc. simpl. exact E.
Qed.

(** The X axis set to [COGS] in the initial state, then [COGS] hidden. *)
Lemma x_axis_slot_not_reconciled_witness :
  let st' := runEffects (toggleSeriesVisible "COGS"
                           (setScatterXColumn "COGS" initialApp)) in
  scatterXColumn (mapping st') = "COGS"
  /\ refersHidden (series st') "COGS" = true
  /\ ~ In "COGS" (labelOptions st').
Proof.
  intro st'.
  destruct (x_axis_slot_not_reconciled (setScatterXColumn "COGS" initialApp) "COGS"
              (mkSeries "COGS" "COGS" "#f59e0b" true)) as [H1 [_ [H3 [H4 _]]]].
  - simpl. right. left. reflexivity.
  - reflexivity.
  - reflexivity.
  - reflexivity.
  - discriminate.
  - split; [exact H1|]. split; [exact H3 | exact H4].
Defined.

(** ** The series a chart draws *)

Lemma selectionEffect_nonempty (ser : list SeriesMeta) (prev : list string) :
  visibleIds ser <> [] -> selectionEffect ser prev <> [].
Proof.
  intro H. destruct (filter (fun i => includes (visibleIds ser) i) prev) as [|a l] eqn:F.
  - rewrite (selectionEffect_default _ _ F).
    destruct (visibleIds ser) as [|v t]; [congruence|]. simpl. discriminate.
  - rewrite (selectionEffect_kept _ _ _ _ F). discriminate.
Qed.

Lemma chartSeries_In (st : App) (s : SeriesMeta) :
  In s (chartSeries st)
  <-> In s (series st) /\ visible s = true /\ In (id s) (selectedSeriesIds st).
Proof.
  unfold chartSeries, dataVisibleSeries. rewrite !filter_In, includes_In. tauto.
Qed.

Lemma visibleIds_dataVisibleSeries (st : App) :
  visibleIds (series st) = map id (dataVisibleSeries st).
Proof. reflexivity. Qed.

(** X15: what the line, bar, area and radar charts draw once the effects
    have run. The charted series are the visible columns whose id is
    selected; every selected id is the id of a charted series, so the
    selection holds no id of a hidden or missing column; the chart has a
    series whenever a column is visible, and has none, with an empty
    selection, when none is. *)
Theorem chart_series_after_effects :
  forall st : App,
    let st' := runEffects st in
    (forall s, In s (chartSeries st')
               <-> In s (series st) /\ visible s = true
                   /\ In (id s) (selectedSeriesIds st'))
    /\ (forall i, In i (selectedSeriesIds st') ->
                  exists s, In s (chartSeries st') /\ id s = i)
    /\ (dataVisibleSeries st <> [] -> chartSeries st' <> [])
    /\ (dataVisibleSeries st = [] ->
        chartSeries st' = [] /\ selectedSeriesIds st' = []).
Proof.
  intros st st'.
  assert (Hsel : forall i, In i (selectedSeriesIds st') ->
                   exists s, In s (chartSeries st') /\ id s = i).
  { intros i Hi. unfold st' in Hi. rewrite runEffects_selected in Hi.
    pose proof (selectionEffect_visible _ _ _ Hi) as Hv.
    apply visibleIds_In in Hv. destruct Hv as [s [Hs [Hvis He]]].
    exists s. split; [|exact He]. apply chartSeries_In.
    unfold st'. rewrite runEffects_series, runEffects_selected.
    split; [exact Hs|]. split; [exact Hvis|]. now rewrite He. }
  split; [|split; [exact Hsel|split]].
  - intro s. rewrite chartSeries_In. unfold st'. now rewrite runEffects_series.
  - intros Hne Hc.
    assert (Hv : visibleIds (series st) <> []).
    { rewrite visibleIds_dataVisibleSeries. destruct (dataVisibleSeries st);
        [congruence | discriminate]. }
    pose proof (selectionEffect_nonempty (series st) (selectedSeriesIds st) Hv) as Hn.
    fold (selectedSeriesIds (runEffects st)) in Hn.
    rewrite <- runEffects_selected in Hn. fold st' in Hn.
    destruct (selectedSeriesIds st') as [|i l] eqn:E; [congruence|].
    destruct (Hsel i (or_introl eq_refl)) as [s [Hs _]]. rewrite Hc in Hs. exact Hs.
  - intro He.
    assert (Hc : chartSeries st' = []).
    { unfold chartSeries.
      assert (Ed : dataVisibleSeries st' = dataVisibleSeries st) by reflexivity.
      now rewrite Ed, He. }
    split; [exact Hc|].
    destruct (selectedSeriesIds st') as [|i l] eqn:E; [reflexivity|].
    destruct (Hsel i (or_introl eq_refl)) as [s [Hs _]]. rewrite Hc in Hs.
    destruct Hs.
Qed.

(** ** The multi-series picker *)

Lemma onToggleSelect_In (i j : string) (sel : list string) :
  In j (if includes sel i then filter (fun x => negb (x =? i)) sel else sel ++ [i])
  <-> (j = i /\ ~ In i sel) \/ (j <> i /\ In j sel).
Proof.
  destruct (includes sel i) eqn:E.
  - apply includes_In in E. rewrite filter_In, negb_true_iff, String.eqb_neq.
    split; [intros [H1 H2]; right; tauto|].
    intros [[-> H]|[H1 H2]]; tauto.
  - apply includes_false in E. rewrite in_app_iff. simpl. split.
    + intros [H|[<-|[]]]; [|left; tauto].
      destruct (string_dec j i) as [->|ne]; [tauto | right; tauto].
    + intros [[-> H]|[H1 H2]]; [right; now left | now left].
Qed.

Lemma filter_none {A : Type} (p : A -> bool) (l : list A) :
  (forall x, In x l -> p x = false) -> filter p l = [].
Proof.
  induction l as [|x t IH]; intro H; simpl; [reflexivity|].
  rewrite (H x (or_introl eq_refl)). apply IH. intros y Hy. apply H. now right.
Qed.

(** X16: a click on a series in the multi-series picker. The clicked id
    leaves the selection when it was in it and joins it, at the end, when it
    was not; every other id stays. A selection without duplicates stays
    without duplicates. Two clicks on the same series give back the same
    chart, and the same selection when the id was not selected (the same up
    to order when it was). Nothing else in the state changes; in particular
    a click on the only selected series leaves the chart with no series. *)
Theorem selection_toggle :
  forall (st : App) (i : string),
    let st' := onToggleSelect i st in
    (forall j, In j (selectedSeriesIds st')
               <-> (j = i /\ ~ In i (selectedSeriesIds st))
                   \/ (j <> i /\ In j (selectedSeriesIds st)))
    /\ (NoDup (selectedSeriesIds st) -> NoDup (selectedSeriesIds st'))
    /\ (~ In i (selectedSeriesIds st) ->
        selectedSeriesIds (onToggleSelect i st') = selectedSeriesIds st)
    /\ (NoDup (selectedSeriesIds st) ->
        Permutation (selectedSeriesIds (onToggleSelect i st')) (selectedSeriesIds st))
    /\ chartSeries (onToggleSelect i st') = chartSeries st
    /\ (selectedSeriesIds st = [i] -> chartSeries st' = [])
    /\ series st' = series st
    /\ rows st' = rows st
    /\ mapping st' = mapping st.
Proof.
  intros st i st'. set (sel := selectedSeriesIds st).
  assert (Hin : forall j, In j (selectedSeriesIds st')
                          <-> (j = i /\ ~ In i sel) \/ (j <> i /\ In j sel)).
  { intro j. apply onToggleSelect_In. }
  assert (Habsent : ~ In i sel ->
                    selectedSeriesIds (onToggleSelect i st') = sel).
  { intro N. unfold st', onToggleSelect. simpl. fold sel.
    pose proof N as N'. apply includes_false in N'. rewrite N'.
    assert (E : includes (sel ++ [i]) i = true).
    { apply includes_In. apply in_or_app. right. now left. }
    rewrite E, filter_app. simpl. rewrite String.eqb_refl. simpl.
    rewrite app_nil_r. apply filter_all. intros x Hx.
    apply negb_true_iff, String.eqb_neq. intro e. apply N. now rewrite <- e. }
  split; [exact Hin|]. split; [|split; [exact Habsent|split; [|split; [|split]]]].
  - intro Hnd. unfold st', onToggleSelect. simpl. fold sel.
    destruct (includes sel i) eqn:E.
    + now apply NoDup_filter.
    + apply includes_false in E.
      apply (Permutation_NoDup (l := i :: sel)); [apply Permutation_cons_append|].
      now constructor.
  - intro Hnd. destruct (in_dec string_dec i sel) as [Hi|Hi];
      [|rewrite (Habsent Hi); reflexivity].
    unfold st', onToggleSelect. simpl. fold sel.
    pose proof Hi as Hi'. apply includes_In in Hi'. rewrite Hi'.
    assert (Hout : includes (filter (fun x => negb (x =? i)) sel) i = false).
    { apply includes_false. rewrite filter_In, String.eqb_refl. simpl.
      intros [_ H]. discriminate. }
    rewrite Hout. destruct (in_split i sel Hi) as [a [b E]].
    assert (Ha : ~ In i a /\ ~ In i b).
    { rewrite E in Hnd. apply NoDup_remove_2 in Hnd. split; intro H; apply Hnd;
        apply in_or_app; tauto. }
    assert (Fk : forall l : list string,
               ~ In i l -> filter (fun x => negb (x =? i)) l = l).
    { intros l Hl. apply filter_all. intros x Hx.
      apply negb_true_iff, String.eqb_neq. intro e. apply Hl. now rewrite <- e. }
    rewrite E, filter_app. simpl. rewrite String.eqb_refl. simpl.
    rewrite (Fk a (proj1 Ha)), (Fk b (proj2 Ha)).
    rewrite <- app_assoc. apply Permutation_app_head.
    symmetry. apply Permutation_cons_append.
  - unfold chartSeries. apply filter_ext. intro s.
    assert (Hd : forall j, In j (selectedSeriesIds (onToggleSelect i st')) <-> In j sel).
    { intro j.
      etransitivity; [exact (onToggleSelect_In i j (selectedSeriesIds st'))|].
      rewrite !Hin.
      destruct (string_dec j i) as [->|ne]; [|tauto].
      destruct (in_dec string_dec i sel); tauto. }
    fold sel. destruct (includes sel (id s)) eqn:E.
    + apply includes_In. apply Hd. now apply includes_In.
    + apply includes_false. rewrite Hd. now apply includes_false.
  - intro E. unfold chartSeries. apply filter_none. intros s _.
    unfold sel in E. unfold st', onToggleSelect. simpl. rewrite E. simpl.
    rewrite String.eqb_refl. reflexivity.
  - repeat split.
Qed.

(** ** Comparisons of binary64 numbers *)

Lemma SFcompare_refl (a : spec_float) :
  a <> S754_nan -> SFcompare a a = Some Eq.
Proof.
  destruct a as [s|s| |s m e]; intro H; simpl.
  - reflexivity.
  - destruct s; reflexivity.
  - congruence.
  - rewrite Z.compare_refl, Pos.compare_cont_refl. destruct s; reflexivity.
Qed.

Lemma SFcompare_antisym (a b : spec_float) :
  SFcompare b a = option_map CompOpp (SFcompare a b).
Proof.
  destruct a as [s|s| |s m e], b as [s'|s'| |s' m' e']; simpl;
    try reflexivity; try (destruct s; reflexivity); try (destruct s'; reflexivity);
    try (destruct s, s'; reflexivity).
  pose proof (Pos.compare_cont_antisym m m' Eq) as P. simpl in P.
  rewrite (Z.compare_antisym e e'), <- P.
  destruct s, s'; simpl; try reflexivity;
    destruct (e ?= e')%Z; simpl; try reflexivity;
    now rewrite ?CompOpp_involutive.
Qed.

Lemma SFcompare_nan (a b : spec_float) :
  SFcompare a b = None <-> a = S754_nan \/ b = S754_nan.
Proof.
  destruct a as [s|s| |s m e], b as [s'|s'| |s' m' e']; simpl;
    split; intro H; try discriminate; try tauto;
    try (destruct H as [H|H]; discriminate).
Qed.

Lemma is_nan_Prim2SF (x : float) :
  PrimFloat.is_nan x = true <-> Prim2SF x = S754_nan.
Proof.
  unfold PrimFloat.is_nan. rewrite FloatAxioms.eqb_spec. unfold SFeqb. split.
  - intro H. destruct (Prim2SF x) as [s|s| |s m e] eqn:E; try reflexivity;
      rewrite SFcompare_refl in H by discriminate; discriminate.
  - intros ->. reflexivity.
Qed.

Lemma is_nan_false_Prim2SF (x : float) :
  PrimFloat.is_nan x = false <-> Prim2SF x <> S754_nan.
Proof.
  rewrite <- is_nan_Prim2SF. destruct (PrimFloat.is_nan x); split; congruence.
Qed.

(** Numbers that are [==] are not [NaN]. *)
Lemma eqb_not_nan (x y : float) :
  PrimFloat.eqb x y = true -> PrimFloat.is_nan x = false /\ PrimFloat.is_nan y = false.
Proof.
  rewrite FloatAxioms.eqb_spec. unfold SFeqb. intro H.
  rewrite !is_nan_false_Prim2SF.
  destruct (SFcompare (Prim2SF x) (Prim2SF y)) eqn:E; [|discriminate].
  split; intro N; rewrite N in E; [|destruct (Prim2SF x)]; discriminate.
Qed.

(** ** The colour-by scale *)

(** ** The colour-by scale *)

Lemma strict_eq_svz (a b : jsval) :
  strict_eq a b = true -> same_value_zero a b = true.
Proof.
  destruct a, b; simpl; try (intro H; exact H). intro H. now rewrite H.
Qed.

Lemma svz_strict (a b : jsval) :
  same_value_zero a b = true -> notNaN b -> strict_eq a b = true.
Proof.
  destruct a, b; simpl; try (intros H _; exact H).
  intros H N. rewrite N, andb_false_r, orb_false_r in H. exact H.
Qed.

Lemma strict_eq_refl (v : jsval) : notNaN v -> strict_eq v v = true.
Proof.
  destruct v as [|b|x|s]; simpl; intro N.
  - reflexivity.
  - apply Bool.eqb_reflx.
  - unfold PrimFloat.is_nan in N. now apply negb_false_iff in N.
  - apply String.eqb_refl.
Qed.

(** Nothing is [===] to [NaN]. *)
Lemma strict_eq_nan (y : jsval) (x : float) :
  PrimFloat.is_nan x = true -> strict_eq y (JNum x) = false.
Proof.
  intro N. destruct y as [|b|z|s]; simpl; try reflexivity.
  destruct (PrimFloat.eqb z x) eqn:E; [|reflexivity].
  apply eqb_not_nan in E. destruct E. congruence.
Qed.

Lemma valueIncludes_app (l1 l2 : list jsval) (v : jsval) :
  valueIncludes (l1 ++ l2) v = valueIncludes l1 v || valueIncludes l2 v.
Proof. unfold valueIncludes. apply existsb_app. Qed.

Lemma colorKey_notNaN (T : JsText) (raw : jsval) : notNaN raw -> notNaN (colorKey raw).
Proof. destruct raw; simpl; auto. Qed.

Lemma app_snoc_split {A : Type} (acc a b : list A) (v0 v : A) :
  acc ++ [v0] = a ++ v :: b ->
  (b = [] /\ a = acc /\ v = v0) \/ (exists b', b = b' ++ [v0] /\ acc = a ++ v :: b').
Proof.
  destruct b as [|x b0] using rev_ind; intro H.
  - left. apply app_inj_tail in H. destruct H as [-> ->]. auto.
  - right. exists b0. clear IHb0.
    change (a ++ v :: b0 ++ [x]) with (a ++ (v :: b0) ++ [x]) in H.
    rewrite app_assoc in H. apply app_inj_tail in H. destruct H as [-> ->]. auto.
Qed.

(** The gathering loop of the scale, from what it has gathered so far. *)
Lemma gather_keeps (T : JsText) (raws acc : list jsval) (v : jsval) :
  valueIncludes acc v = true -> valueIncludes (fold_left gatherValue raws acc) v = true.
Proof.
  revert acc. induction raws as [|raw t IH]; intros acc H; simpl; [exact H|].
  apply IH. unfold gatherValue. destruct (valueIncludes acc (colorKey raw)); [exact H|].
  rewrite valueIncludes_app, H. reflexivity.
Qed.

Lemma gather_adds (T : JsText) (raws acc : list jsval) (raw : jsval) :
  In raw raws -> valueIncludes (fold_left gatherValue raws acc) (colorKey raw) = true.
Proof.
  revert acc. induction raws as [|r t IH]; intros acc H; simpl; [destruct H|].
  destruct H as [->|H]; [|now apply IH].
  apply gather_keeps. unfold gatherValue.
  destruct (valueIncludes acc (colorKey raw)) eqn:E; [exact E|].
  rewrite valueIncludes_app. simpl. rewrite same_value_zero_refl.
  now rewrite orb_true_r.
Qed.

Lemma gather_distinct (T : JsText) (raws acc : list jsval) :
  (forall a v b, acc = a ++ v :: b -> valueIncludes a v = false) ->
  forall a v b, fold_left gatherValue raws acc = a ++ v :: b -> valueIncludes a v = false.
Proof.
  revert acc. induction raws as [|raw t IH]; intros acc H; simpl; [exact H|].
  apply IH. unfold gatherValue.
  destruct (valueIncludes acc (colorKey raw)) eqn:E; [exact H|].
  intros a v b Hs. apply app_snoc_split in Hs.
  destruct Hs as [[_ [-> ->]]|[b' [_ Hs]]]; [exact E | now apply (H a v b')].
Qed.

Lemma existsb_findIndex {A : Type} (p : A -> bool) (l : list A) :
  existsb p l = true -> exists i, findIndex p l = Some i /\ i < List.length l.
Proof.
  induction l as [|x t IH]; simpl; [discriminate|].
  destruct (p x); simpl.
  - intros _. exists 0. split; [reflexivity | lia].
  - intro H. destruct (IH H) as [i [Hi Hl]]. exists (S i). rewrite Hi. split;
      [reflexivity | lia].
Qed.

Lemma palette_at (idx : nat) :
  exists c, nth_error palette (idx mod List.length palette) = Some c
            /\ In c palette /\ c <> "".
Proof.
  assert (H : idx mod List.length palette < List.length palette).
  { apply Nat.mod_upper_bound. discriminate. }
  destruct (nth_error palette (idx mod List.length palette)) as [c|] eqn:E.
  - exists c. split; [reflexivity|]. pose proof (nth_error_In _ _ E) as Hin.
    split; [exact Hin|]. intros ->.
    simpl in Hin. repeat (destruct Hin as [Hin|Hin]; [discriminate|]). exact Hin.
  - apply nth_error_None in E. lia.
Qed.

(** X17: the colours of the colour-by scale. The scale numbers the
    distinct values of the colour column in the order the rows first show
    them, booleans counted as their text, and gives the value numbered [n]
    the palette colour [n mod 7]. Every value that a row holds in the column
    gets a palette colour, a missing cell included, so with a colour column
    chosen no bar falls back to the colour of its series; only [NaN], which
    is found by [includes] and not by [indexOf], gets none. *)
Theorem color_scale_assignment :
  forall (T : JsText) (raws : list jsval),
    let distinct := distinctOf raws in
    (forall a v b,
        distinct = a ++ v :: b -> notNaN v ->
        valueIncludes a v = false /\ indexOf distinct v = Some (List.length a))
    /\ (forall raw,
           In raw raws -> notNaN raw ->
           exists idx c,
             indexOf distinct (colorKey raw) = Some idx
             /\ idx < List.length distinct
             /\ nth_error palette (idx mod List.length palette) = Some c
             /\ scaleColor distinct raw = Some c)
    /\ (forall x, PrimFloat.is_nan x = true -> scaleColor distinct (JNum x) = None)
    /\ (forall b : bool,
           scaleColor distinct (JBool b)
           = scaleColor distinct (JStr (if b then "true" else "false")))
    /\ (forall (col : string) (chartRows : list DataRow) (s : SeriesMeta) (r : DataRow),
           col <> "" -> In r chartRows -> notNaN (getProp r col) ->
           In (barCellFill col chartRows s r) palette
           /\ scatterCellFill col chartRows r = Some (barCellFill col chartRows s r))
    /\ (forall (chartRows : list DataRow) (s : SeriesMeta) (r : DataRow),
           barCellFill "" chartRows s r = color s
           /\ scatterCellFill "" chartRows r = nth_error palette 0).
Proof.
  intros T raws distinct.
  assert (Hd : forall a v b, distinct = a ++ v :: b -> valueIncludes a v = false).
  { unfold distinct, distinctOf. apply gather_distinct.
    intros a v b H. destruct a; discriminate. }
  assert (Hraw : forall (l : list jsval) raw,
             In raw l -> notNaN raw ->
             exists idx c,
               indexOf (distinctOf l) (colorKey raw) = Some idx
               /\ idx < List.length (distinctOf l)
               /\ nth_error palette (idx mod List.length palette) = Some c
               /\ c <> "" /\ In c palette
               /\ scaleColor (distinctOf l) raw = Some c).
  { intros l raw Hin N.
    pose proof (gather_adds T l [] raw Hin) as Hinc.
    fold (distinctOf l) in Hinc.
    assert (Hex : existsb (fun y => strict_eq y (colorKey raw)) (distinctOf l) = true).
    { unfold valueIncludes in Hinc. apply existsb_exists in Hinc.
      destruct Hinc as [y [Hy Hs]]. apply existsb_exists. exists y.
      split; [exact Hy|]. apply svz_strict; [exact Hs | now apply colorKey_notNaN]. }
    destruct (existsb_findIndex _ _ Hex) as [idx [Hi Hl]].
    destruct (palette_at idx) as [c [Hc [Hp Hne]]].
    exists idx, c. split; [exact Hi|]. split; [exact Hl|]. split; [exact Hc|].
    split; [exact Hne|]. split; [exact Hp|].
    unfold scaleColor, indexOf. rewrite Hi. exact Hc. }
  split; [|split; [|split; [|split; [|split]]]].
  - intros a v b E N. split; [now apply (Hd a v b)|].
    unfold indexOf. rewrite E. apply findIndex_at; [|now apply strict_eq_refl].
    intros z Hz. destruct (strict_eq z v) eqn:S; [|reflexivity].
    apply strict_eq_svz in S. pose proof (Hd a v b E) as F.
    unfold valueIncludes in F.
    rewrite (existsb_false_In (fun y => same_value_zero y v) a z F Hz) in S.
    discriminate.
  - intros raw Hin N. destruct (Hraw raws raw Hin N) as [idx [c [H1 [H2 [H3 [_ [_ H6]]]]]]].
    exists idx, c. repeat split; assumption.
  - intros x N. unfold scaleColor, indexOf. simpl.
    rewrite findIndex_None; [reflexivity|]. intros z _. now apply strict_eq_nan.
  - intros [|]; reflexivity.
  - intros col chartRows s r Hc Hin N.
    assert (Hin' : In (getProp r col) (map (fun r => getProp r col) chartRows)).
    { apply in_map_iff. exists r. split; [reflexivity | exact Hin]. }
    destruct (Hraw _ _ Hin' N) as [idx [c [_ [_ [_ [Hne [Hp Hs]]]]]]].
    apply String.eqb_neq in Hc, Hne.
    unfold barCellFill, scatterCellFill, barColorScale. rewrite Hc, Hs, Hne.
    split; [exact Hp | reflexivity].
  - intros chartRows s r. split; reflexivity.
Qed.

(** The key column chosen as the colour column of the initial rows: the
    seven rows get the seven palette colours, in order. *)
Lemma color_scale_assignment_witness :
  map (barCellFill "key" initialRows (mkSeries "Revenue" "Revenue" "#ef4444" true))
      initialRows
  = palette
  /\ In (barCellFill "key" initialRows (mkSeries "Revenue" "Revenue" "#ef4444" true)
           (mkRow 2020 135 53 33 14 35)) palette.
Proof.
  split; [vm_compute; reflexivity|].
  apply (proj1 (proj2 (proj2 (proj2 (proj2 (color_scale_assignment HostText [])))))).
  - discriminate.
  - right. left. reflexivity.
  - reflexivity.
Defined.

(** ** The summary of the visible labels *)

Lemma append_assoc_str (a b c : string) : ((a ++ b) ++ c = a ++ b ++ c)%string.
Proof. induction a as [|ch a IH]; simpl; [reflexivity | now rewrite IH]. Qed.

Lemma join_cons (x : string) (t : list string) :
  t <> [] -> join (x :: t) = (x ++ ", " ++ join t)%string.
Proof. destruct t; [congruence | reflexivity]. Qed.

Lemma join_snoc (l : list string) (x : string) :
  l <> [] -> join (l ++ [x]) = (join l ++ ", " ++ x)%string.
Proof.
  induction l as [|a t IH]; intro H; [congruence|].
  destruct t as [|b t]; [reflexivity|].
  change ((a :: b :: t) ++ [x]) with (a :: ((b :: t) ++ [x])).
  rewrite join_cons by (simpl; discriminate).
  rewrite IH by discriminate. rewrite (join_cons a (b :: t)) by discriminate.
  now rewrite !append_assoc_str.
Qed.

Lemma join_not_empty (l : list string) :
  l <> [] -> Forall (fun s => s <> "") l -> join l <> "".
Proof.
  destruct l as [|x t]; intros H F; [congruence|].
  inversion F as [|? ? Hx _]; subst.
  destruct x as [|c s]; [congruence|].
  destruct t; simpl; discriminate.
Qed.

(** The loop of [summarize], having gathered the items [seen] and with
    [rest] to go, when the whole does not fit. *)
Lemma summarizeLoop_cuts (maxChars : nat) (rest seen : list string) :
  Forall (fun s => s <> "") (seen ++ rest) ->
  String.length (join seen) <= maxChars ->
  maxChars < String.length (join (seen ++ rest)) ->
  exists k,
    k < List.length rest
    /\ summarizeLoop maxChars (join seen) rest
       = (join (seen ++ firstn k rest) ++ "…")%string
    /\ String.length (join (seen ++ firstn k rest)) <= maxChars
    /\ maxChars < String.length (join (seen ++ firstn (S k) rest)).
Proof.
  revert seen. induction rest as [|x t IH]; intros seen F Hfit Hlong.
  - rewrite app_nil_r in Hlong. lia.
  - assert (En : ((if join seen =? "" then "" else join seen ++ ", ") ++ x)%string
                 = join (seen ++ [x])).
    { destruct seen as [|a s].
      - reflexivity.
      - assert (Hne : join (a :: s) <> "").
        { apply join_not_empty; [discriminate|].
          apply Forall_app in F. tauto. }
        apply String.eqb_neq in Hne. rewrite Hne.
        rewrite join_snoc by discriminate. now rewrite append_assoc_str. }
    simpl summarizeLoop. rewrite En.
    destruct (Nat.ltb_spec maxChars (String.length (join (seen ++ [x])))) as [Hc|Hc].
    + exists 0. simpl firstn. rewrite app_nil_r.
      split; [simpl; lia|]. split; [reflexivity|]. split; assumption.
    + assert (E : seen ++ x :: t = (seen ++ [x]) ++ t) by now rewrite <- app_assoc.
      rewrite E in F, Hlong.
      destruct (IH (seen ++ [x]) F Hc Hlong) as [k [Hk [Hr [Hle Hgt]]]].
      exists (S k).
      assert (E1 : forall j, seen ++ firstn (S j) (x :: t)
                             = (seen ++ [x]) ++ firstn j t)
        by (intro j; simpl; now rewrite <- app_assoc).
      rewrite !E1. split; [simpl; lia|]. split; [exact Hr|]. split; assumption.
Qed.

(** X18: the summary line of the visible labels. When the labels joined
    by comma and space have at most [maxChars] characters the summary is
    that text. Otherwise, for labels none of which is empty, it is the
    longest run of whole leading labels whose joined text has at most
    [maxChars] characters, followed by an ellipsis: no label is cut, and the
    next label would not have fitted. *)
Theorem summarize_whole_labels :
  forall (arr : list string) (maxChars : nat),
    Forall (fun s => s <> "") arr ->
    (String.length (join arr) <= maxChars -> summarize arr maxChars = join arr)
    /\ (maxChars < String.length (join arr) ->
        exists k,
          k < List.length arr
          /\ summarize arr maxChars = (join (firstn k arr) ++ "…")%string
          /\ String.length (join (firstn k arr)) <= maxChars
          /\ maxChars < String.length (join (firstn (S k) arr))).
Proof.
  intros arr maxChars F. unfold summarize. split; intro H.
  - apply Nat.leb_le in H. now rewrite H.
  - destruct (Nat.leb_spec (String.length (join arr)) maxChars) as [Hc|_]; [lia|].
    apply (summarizeLoop_cuts maxChars arr []); [exact F | simpl; lia | exact H].
Qed.

(** The labels of the initial columns, in 60 characters and in 20. *)
Lemma summarize_whole_labels_witness :
  summarize (dataVisibleSeriesLabels initialApp) 60
  = "Revenue, COGS, Operating Expenses, R&D, Net Profit"
  /\ summarize (dataVisibleSeriesLabels initialApp) 20 = "Revenue, COGS…"
  /\ exists k,
       k < 5
       /\ summarize (dataVisibleSeriesLabels initialApp) 20
          = (join (firstn k (dataVisibleSeriesLabels initialApp)) ++ "…")%string
       /\ String.length (join (firstn k (dataVisibleSeriesLabels initialApp))) <= 20
       /\ 20 < String.length (join (firstn (S k) (dataVisibleSeriesLabels initialApp))).
Proof.
  split; [reflexivity|]. split; [reflexivity|].
  apply (proj2 (summarize_whole_labels (dataVisibleSeriesLabels initialApp) 20
                  ltac:(repeat constructor; discriminate))).
  vm_compute. lia.
Defined.

(** ** The bins input *)

Lemma ltb_leb (x y : float) : PrimFloat.ltb x y = true -> PrimFloat.leb x y = true.
Proof.
  rewrite FloatAxioms.ltb_spec, FloatAxioms.leb_spec. unfold SFltb, SFleb.
  destruct (SFcompare (Prim2SF x) (Prim2SF y)) as [[| |]|]; congruence.
Qed.

Lemma not_ltb_leb (x y : float) :
  PrimFloat.is_nan x = false -> PrimFloat.is_nan y = false ->
  PrimFloat.ltb x y = false -> PrimFloat.leb y x = true.
Proof.
  rewrite !is_nan_false_Prim2SF, FloatAxioms.ltb_spec, FloatAxioms.leb_spec.
  unfold SFltb, SFleb. intros Hx Hy.
  rewrite (SFcompare_antisym (Prim2SF x) (Prim2SF y)).
  destruct (SFcompare (Prim2SF x) (Prim2SF y)) as [[| |]|] eqn:E; simpl;
    try congruence.
  apply SFcompare_nan in E. tauto.
Qed.

Lemma leb_not_ltb (x y : float) :
  PrimFloat.leb x y = true -> PrimFloat.ltb y x = false.
Proof.
  rewrite FloatAxioms.ltb_spec, FloatAxioms.leb_spec. unfold SFltb, SFleb.
  rewrite (SFcompare_antisym (Prim2SF x) (Prim2SF y)).
  destruct (SFcompare (Prim2SF x) (Prim2SF y)) as [[| |]|]; simpl; congruence.
Qed.

Lemma leb_not_nan (x y : float) :
  PrimFloat.leb x y = true -> PrimFloat.is_nan x = false /\ PrimFloat.is_nan y = false.
Proof.
  rewrite FloatAxioms.leb_spec, !is_nan_false_Prim2SF. unfold SFleb. intro H.
  destruct (SFcompare (Prim2SF x) (Prim2SF y)) eqn:E; [|discriminate].
  split; intro N; rewrite N in E; [|destruct (Prim2SF x)]; discriminate.
Qed.

(** Neither below nor above: equal. *)
Lemma not_ltb_eqb (x y : float) :
  PrimFloat.is_nan x = false -> PrimFloat.is_nan y = false ->
  PrimFloat.ltb x y = false -> PrimFloat.ltb y x = false -> PrimFloat.eqb x y = true.
Proof.
  rewrite !is_nan_false_Prim2SF, !FloatAxioms.ltb_spec, FloatAxioms.eqb_spec.
  unfold SFltb, SFeqb. intros Hx Hy.
  rewrite (SFcompare_antisym (Prim2SF x) (Prim2SF y)).
  destruct (SFcompare (Prim2SF x) (Prim2SF y)) as [[| |]|] eqn:E; simpl;
    try congruence.
  apply SFcompare_nan in E. tauto.
Qed.

Lemma eqb_refl_not_nan (x : float) :
  PrimFloat.is_nan x = false -> PrimFloat.eqb x x = true.
Proof. unfold PrimFloat.is_nan. intro H. now apply negb_false_iff in H. Qed.

(** [Math.min(50, z)] and [Math.max(1, m)] on numbers. *)
Lemma mathMin_50 (z : float) :
  PrimFloat.is_nan z = false ->
  mathMin [50%float; z] = if PrimFloat.ltb 50 z then 50%float else z.
Proof.
  intro N. change (mathMin [50%float; z]) with (mathMin2 50 z).
  unfold mathMin2. rewrite N. change (PrimFloat.is_nan 50) with false. simpl.
  destruct (PrimFloat.ltb 50 z); [reflexivity|].
  change (isNegZero 50) with false. destruct (PrimFloat.ltb z 50); reflexivity.
Qed.

Lemma mathMax_1 (m : float) :
  PrimFloat.is_nan m = false ->
  mathMax [1%float; m] = if PrimFloat.ltb 1 m then m else 1%float.
Proof.
  intro N. change (mathMax [1%float; m]) with (mathMax2 1 m).
  unfold mathMax2. rewrite N. change (PrimFloat.is_nan 1) with false. simpl.
  destruct (PrimFloat.ltb 1 m); [reflexivity|].
  change (isNegZero 1) with false. destruct (PrimFloat.ltb m 1); reflexivity.
Qed.

(** X19: the number of bins the bins input stores. Whatever the text and
    whatever [Number] makes of it, the stored number is not [NaN] and lies
    between 1 and 50; it is 10 when the text reads as 0 or as no number; a
    number between 1 and 50 is stored as it is, whole or not. *)
Theorem bins_input_between_1_and_50 :
  forall (T : JsText) (text : string),
    let b := histogramBinsInput text in
    PrimFloat.is_nan b = false
    /\ PrimFloat.leb 1 b = true
    /\ PrimFloat.leb b 50 = true
    /\ (truthy (JNum (Number text)) = false -> b = 10%float)
    /\ (PrimFloat.leb 1 (Number text) = true ->
        PrimFloat.leb (Number text) 50 = true ->
        PrimFloat.eqb b (Number text) = true).
Proof.
  intros T text b. unfold histogramBinsInput in b.
  set (n := Number text) in *.
  set (z := if truthy (JNum n) then n else 10%float) in *.
  assert (Nz : PrimFloat.is_nan z = false).
  { unfold z. destruct (truthy (JNum n)) eqn:E; [|reflexivity].
    simpl in E. apply negb_true_iff, orb_false_iff in E. tauto. }
  set (m := mathMin [50%float; z]) in *.
  assert (Em : m = if PrimFloat.ltb 50 z then 50%float else z)
    by (unfold m; now apply mathMin_50).
  assert (Nm : PrimFloat.is_nan m = false).
  { rewrite Em. destruct (PrimFloat.ltb 50 z); [reflexivity | exact Nz]. }
  assert (Lm : PrimFloat.leb m 50 = true).
  { rewrite Em. destruct (PrimFloat.ltb 50 z) eqn:E; [reflexivity|].
    apply not_ltb_leb; [reflexivity | exact Nz | exact E]. }
  assert (Eb : b = if PrimFloat.ltb 1 m then m else 1%float)
    by (unfold b; now apply mathMax_1).
  split; [|split; [|split; [|split]]].
  - rewrite Eb. destruct (PrimFloat.ltb 1 m); [exact Nm | reflexivity].
  - rewrite Eb. destruct (PrimFloat.ltb 1 m) eqn:E; [now apply ltb_leb | reflexivity].
  - rewrite Eb. destruct (PrimFloat.ltb 1 m); [exact Lm | reflexivity].
  - intro F. unfold b, m, z. rewrite F. reflexivity.
  - intros H1 H50. destruct (leb_not_nan _ _ H1) as [_ Nn].
    assert (Tn : truthy (JNum n) = true).
    { simpl. rewrite Nn, orb_false_r. apply negb_true_iff.
      destruct (PrimFloat.is_zero n) eqn:E; [|reflexivity].
      exfalso. unfold PrimFloat.is_zero in E. revert H1 E.
      rewrite FloatAxioms.leb_spec, FloatAxioms.eqb_spec. unfold SFleb, SFeqb.
      change (Prim2SF 1) with (S754_finite false 4503599627370496 (-52)).
      change (Prim2SF zero) with (S754_zero false).
      destruct (Prim2SF n) as [s|s| |s k e]; simpl; try discriminate;
        destruct s; discriminate. }
    assert (Ez : z = n) by (unfold z; now rewrite Tn).
    assert (Emn : m = n).
    { rewrite Em, Ez. now rewrite (leb_not_ltb _ _ H50). }
    rewrite Eb, Emn. destruct (PrimFloat.ltb 1 n) eqn:E.
    + now apply eqb_refl_not_nan.
    + apply not_ltb_eqb; [reflexivity | exact Nn | exact E |].
      now apply leb_not_ltb.
Qed.

(** The texts [7], [0], [abc], [900] and [2.5] in the bins input. *)
Lemma bins_input_between_1_and_50_witness :
  map (histogramBinsInput (H := HostText)) ["7"; "0"; "abc"; "900"; "-3"; "2.5"]
  = [7; 10; 10; 50; 1; 2.5]%float
  /\ PrimFloat.eqb (histogramBinsInput (H := HostText) "2.5")
       (Number (JsText := HostText) "2.5") = true.
Proof.
  split; [vm_compute; reflexivity|].
  apply (proj2 (proj2 (proj2 (proj2 (bins_input_between_1_and_50 HostText "2.5")))));
    vm_compute; reflexivity.
Defined.

(** ** The outcome of the histogram branch *)

Lemma bump_sum (i : nat) (bins bins' : list Bin) :
  bump i bins = Some bins' ->
  list_sum (map count bins') = S (list_sum (map count bins)).
Proof.
  unfold bump. destruct (nth_error bins i) as [b0|] eqn:E; [|discriminate].
  destruct (nth_error_split bins i E) as [a [r [-> <-]]].
  assert (Ef : firstn (List.length a) (a ++ b0 :: r) = a).
  { rewrite firstn_app, Nat.sub_diag, firstn_all. simpl. apply app_nil_r. }
  assert (Es : skipn (S (List.length a)) (a ++ b0 :: r) = r).
  { clear. induction a as [|y a IH]; simpl; [reflexivity | exact IH]. }
  rewrite Ef, Es. intro H. injection H as <-.
  rewrite !map_app, !list_sum_app. simpl. lia.
Qed.

Lemma bump_length (i : nat) (bins bins' : list Bin) :
  bump i bins = Some bins' -> List.length bins' = List.length bins.
Proof. intro H. exact (proj1 (bump_counts i bins bins' H)). Qed.

Lemma bump_outside (i : nat) (bins : list Bin) :
  List.length bins <= i -> bump i bins = None.
Proof.
  intro H. unfold bump. apply nth_error_None in H. now rewrite H.
Qed.

(** The counting loop adds one to the total for every value. *)
Lemma countValues_sum (min binSize binCount : float) (values : list float) :
  forall bins bins' : list Bin,
    countValues min binSize binCount values bins = Some bins' ->
    list_sum (map count bins') = list_sum (map count bins) + List.length values.
Proof.
  induction values as [|v t IH]; intros bins bins' H; simpl in *.
  - injection H as <-. lia.
  - destruct (smallInteger (binIndex min binSize binCount v)) as [i|]; [|discriminate].
    destruct (bump i bins) as [bins1|] eqn:B; [|discriminate].
    rewrite (IH _ _ H), (bump_sum _ _ _ B). lia.
Qed.

(** The counting loop throws when an index names no bin. *)
Lemma countValues_throws (min binSize binCount : float) (values : list float) :
  forall bins : list Bin,
    indicesWithin min binSize binCount values (List.length bins) = false ->
    countValues min binSize binCount values bins = None.
Proof.
  unfold indicesWithin.
  induction values as [|v t IH]; intros bins H; simpl in *; [discriminate|].
  destruct (smallInteger (binIndex min binSize binCount v)) as [i|]; [|reflexivity].
  destruct (Nat.ltb_spec i (List.length bins)) as [Hlt|Hge].
  - destruct (bump_within i bins Hlt) as [bins1 B]. rewrite B.
    apply IH. now rewrite (bump_length _ _ _ B).
  - now rewrite bump_outside.
Qed.

Lemma labelBins_count (T : JsText) (min binSize : float) (bins : list Bin) :
  map count (labelBins min binSize bins) = map count bins.
Proof.
  unfold labelBins, mapi. rewrite mapi_from_map. simpl. apply mapi_from_const.
Qed.

Lemma labelBins_length (T : JsText) (min binSize : float) (bins : list Bin) :
  List.length (labelBins min binSize bins) = List.length bins.
Proof. now rewrite <- (length_map count), labelBins_count, length_map. Qed.

Lemma list_sum_zeros (n : nat) : list_sum (map count (repeat (mkBin "" 0) n)) = 0.
Proof. induction n as [|n IH]; simpl; [reflexivity | exact IH]. Qed.

(** X20: what the histogram branch gives for a column with numeric
    values. It gives bars exactly when the array of bins can be created and
    every value's index names one of its bins; there are then as many bars
    as the bin count truncated, each bar counts the values with its index,
    and the counts add up to the number of values. In every other case the
    branch throws: the index of some value is not a whole number below the
    number of bins, as happens with a bin count that is not whole. *)
Theorem histogram_outcome :
  forall (T : JsText) (column : string) (values : list float) (histogramBins : float),
    values <> [] ->
    let min := mathMin values in
    let max := mathMax values in
    let binCount := mathMax [1%float; histogramBins] in
    let binSize := binSizeOf min max binCount in
    (forall n,
        arrayLength binCount = Some n ->
        indicesWithin min binSize binCount values n = true ->
        exists bins,
          histogramOf column values histogramBins = HistogramBars bins
          /\ List.length bins = n
          /\ map count bins = map (valuesInBin min binSize binCount values) (seq 0 n)
          /\ list_sum (map count bins) = List.length values)
    /\ (forall n,
           arrayLength binCount = Some n ->
           indicesWithin min binSize binCount values n = false ->
           histogramOf column values histogramBins = Thrown)
    /\ (arrayLength binCount = None ->
        histogramOf column values histogramBins = Thrown).
Proof.
  intros T column values histogramBins Hne min max binCount binSize.
  assert (E : histogramOf column values histogramBins
              = match arrayLength binCount with
                | None => Thrown
                | Some n =>
                    match countValues min binSize binCount values
                            (repeat (mkBin "" 0) n) with
                    | Some bins => HistogramBars (labelBins min binSize bins)
                    | None => Thrown
                    end
                end).
  { unfold histogramOf. destruct values; [congruence | reflexivity]. }
  rewrite E. split; [|split].
  - intros n Hn Hin. rewrite Hn.
    assert (Hl : List.length (repeat (mkBin "" 0) n) = n) by apply repeat_length.
    pose proof Hin as Hin'. rewrite <- Hl in Hin'.
    destruct (countValues_counts min binSize binCount values _ Hin')
      as [bins [Hr [Hlen Hc]]].
    rewrite Hr. exists (labelBins min binSize bins).
    split; [reflexivity|]. rewrite labelBins_length, labelBins_count.
    rewrite Hl in Hlen. split; [exact Hlen|]. split.
    + apply (nth_ext _ _ 0 0).
      * now rewrite !length_map, length_seq.
      * intros j Hj. rewrite length_map, Hlen in Hj. rewrite Hc.
        assert (Hz : nth j (map count (repeat (mkBin "" 0) n)) 0 = 0).
        { rewrite map_repeat. simpl. apply nth_repeat. }
        rewrite Hz. simpl.
        rewrite (nth_indep (map (valuesInBin min binSize binCount values) (seq 0 n))
                   0 (valuesInBin min binSize binCount values 0))
          by now rewrite length_map, length_seq.
        rewrite map_nth, seq_nth by assumption. reflexivity.
    + rewrite (countValues_sum _ _ _ _ _ _ Hr), list_sum_zeros. reflexivity.
  - intros n Hn Hout. rewrite Hn.
    rewrite countValues_throws; [reflexivity|]. now rewrite repeat_length.
  - intros Hn. now rewrite Hn.
Qed.

(** The values 1 to 10 in 5 bins, and in the 2.5 bins that the bins input
    stores for the text [2.5]; the initial [Revenue] column with that bin
    count. *)
Lemma histogram_outcome_witness :
  (exists bins,
      histogramOf (H := HostText) "Revenue" oneToTen 5 = HistogramBars bins
      /\ List.length bins = 5
      /\ list_sum (map count bins) = 10)
  /\ histogramOf (H := HostText) "Revenue" oneToTen
       (histogramBinsInput (H := HostText) "2.5") = Thrown
  /\ renderHistogram (H := HostText)
       (setHistogramBins (histogramBinsInput (H := HostText) "2.5")
          (setHistogramColumn "Revenue" initialApp)) = Thrown.
Proof.
  assert (Hne : oneToTen <> []) by discriminate.
  split; [|split].
  - destruct (proj1 (histogram_outcome HostText "Revenue" oneToTen 5 Hne) 5
                eq_refl eq_refl) as [bins [H1 [H2 [_ H4]]]].
    exists bins. split; [exact H1|]. split; [exact H2 | exact H4].
  - apply (proj1 (proj2 (histogram_outcome HostText "Revenue" oneToTen
                           (histogramBinsInput (H := HostText) "2.5") Hne)) 2);
      vm_compute; reflexivity.
  - vm_compute. reflexivity.
Defined.

(** ** The states the component can reach *)

Lemma mapi_from_length {A B : Type} (f : A -> nat -> B) (l : list A) (k : nat) :
  List.length (mapi_from k f l) = List.length l.
Proof.
  revert k. induction l as [|x t IH]; intro k; simpl; [reflexivity | now rewrite IH].
Qed.

Lemma NoDup_firstn {A : Type} (n : nat) (l : list A) : NoDup l -> NoDup (firstn n l).
Proof.
  revert l. induction n as [|n IH]; intros [|x t] H; simpl; try constructor.
  - inversion H; subst. intro Hin. apply firstn_member in Hin. contradiction.
  - inversion H; subst. now apply IH.
Qed.

Lemma NoDup_visibleIds (ser : list SeriesMeta) :
  NoDup (map id ser) -> NoDup (visibleIds ser).
Proof.
  unfold visibleIds. induction ser as [|s t IH]; simpl; intro H; [constructor|].
  inversion H as [|x l Hx Ht]; subst. destruct (visible s); simpl; [|now apply IH].
  constructor; [|now apply IH]. intro Hin. apply Hx.
  apply in_map_iff in Hin. destruct Hin as [s' [E Hs']]. apply filter_In in Hs'.
  rewrite <- E. apply in_map. tauto.
Qed.

Lemma selectionEffect_NoDup (ser : list SeriesMeta) (prev : list string) :
  NoDup (map id ser) -> NoDup prev -> NoDup (selectionEffect ser prev).
Proof.
  intros Hid Hp.
  destruct (filter (fun i => includes (visibleIds ser) i) prev) as [|a l] eqn:F.
  - rewrite (selectionEffect_default _ _ F). apply NoDup_firstn.
    now apply NoDup_visibleIds.
  - rewrite (selectionEffect_kept _ _ _ _ F), <- F. now apply NoDup_filter.
Qed.

Lemma onToggleSelect_NoDup (i : string) (sel : list string) :
  NoDup sel ->
  NoDup (if includes sel i then filter (fun x => negb (x =? i)) sel else sel ++ [i]).
Proof.
  intro Hnd. destruct (includes sel i) eqn:E.
  - now apply NoDup_filter.
  - apply includes_false in E.
    apply (Permutation_NoDup (l := i :: sel)); [apply Permutation_cons_append|].
    now constructor.
Qed.

Lemma initial_ids_NoDup : NoDup (map id initialSeries).
Proof.
  simpl. repeat (constructor; [simpl; intuition discriminate|]). constructor.
Qed.

Lemma idAndColor_ids (ser ser' : list SeriesMeta) :
  Permutation (map idAndColor ser) (map idAndColor ser') ->
  Permutation (map id ser) (map id ser').
Proof.
  intro P. apply (Permutation_map fst) in P. now rewrite !map_map in P.
Qed.

Lemma sound_ids (T : JsText) (st : App) : sound st -> NoDup (map id (series st)).
Proof.
  intros [_ [P _]]. apply idAndColor_ids in P.
  apply (Permutation_NoDup (l := map id initialSeries));
    [now symmetry | apply initial_ids_NoDup].
Qed.

(** Toggling a column keeps every other visible id visible. *)
Lemma toggleVisibleIn_other (i j : string) (ser : list SeriesMeta) :
  j <> i -> In j (visibleIds ser) -> In j (visibleIds (toggleVisibleIn i ser)).
Proof.
  intros N Hj. apply visibleIds_In in Hj. destruct Hj as [s [Hs [Hv Hi]]].
  apply visibleIds_In. exists s. split; [|tauto].
  unfold toggleVisibleIn. apply in_map_iff. exists s. split; [|exact Hs].
  destruct (String.eqb_spec (id s) i); [congruence | reflexivity].
Qed.

Lemma toggleVisibleIn_pairs (i : string) (ser : list SeriesMeta) :
  map idAndColor (toggleVisibleIn i ser) = map idAndColor ser.
Proof.
  unfold toggleVisibleIn. rewrite map_map. apply map_ext. intro s.
  destruct (id s =? i); reflexivity.
Qed.

Lemma toggleVisibleIn_labels (i : string) (ser : list SeriesMeta) :
  map label (toggleVisibleIn i ser) = map label ser.
Proof.
  unfold toggleVisibleIn. rewrite map_map. apply map_ext. intro s.
  destruct (id s =? i); reflexivity.
Qed.

Lemma labelsDistinct_labels (T : JsText) (ser ser' : list SeriesMeta) :
  Permutation (map label ser') (map label ser) ->
  labelsDistinct ser -> labelsDistinct ser'.
Proof.
  unfold labelsDistinct. intros P H.
  apply (Permutation_map toLowerCase) in P. rewrite !map_map in P.
  apply (Permutation_NoDup (l := map (fun s => toLowerCase (label s)) ser));
    [now symmetry | exact H].
Qed.

Lemma relabel_pairs (eid trimmed : string) (ser : list SeriesMeta) :
  map idAndColor (relabel eid trimmed ser) = map idAndColor ser.
Proof.
  unfold relabel. rewrite map_map. apply map_ext. intro s.
  destruct (id s =? eid); reflexivity.
Qed.

Lemma relabel_visibleIds (eid trimmed : string) (ser : list SeriesMeta) :
  visibleIds (relabel eid trimmed ser) = visibleIds ser.
Proof.
  unfold visibleIds, relabel. induction ser as [|s t IH]; simpl; [reflexivity|].
  destruct (id s =? eid); simpl; destruct (visible s); simpl; now rewrite IH.
Qed.

(** A commit of a column rename keeps the registry or relabels one id. *)
Lemma commitRenameSeries_cases (T : JsText) (st : App) :
  rows (commitRenameSeries st) = rows st
  /\ selectedSeriesIds (commitRenameSeries st) = selectedSeriesIds st
  /\ editingRowIndex (editing (commitRenameSeries st)) = editingRowIndex (editing st)
  /\ (series (commitRenameSeries st) = series st
      \/ exists eid trimmed,
           series (commitRenameSeries st) = relabel eid trimmed (series st)).
Proof.
  unfold commitRenameSeries.
  destruct (editingSeriesId (editing st)) as [eid|]; [|repeat split; now left].
  destruct (eid =? ""); [repeat split; now left|].
  destruct (trim (editingValue (editing st)) =? ""); [repeat split; now left|].
  destruct (existsb _ (series st)); [repeat split; now left|].
  repeat split. right. exists eid, (trim (editingValue (editing st))). reflexivity.
Qed.

Lemma commitRowUpdater_length (T : JsText) (idx : nat) (value col : string)
    (prev : list DataRow) :
  idx < List.length prev ->
  List.length (commitRowUpdater idx value col prev) = List.length prev.
Proof.
  intro H. unfold commitRowUpdater.
  destruct (col =? "key"); [destruct (duplicateKey idx col value prev)|];
    try reflexivity; now apply arraySet_length.
Qed.

(** A state that differs from a sound one in nothing [sound] reads. *)
Lemma sound_frame (T : JsText) (st st' : App) :
  rows st' = rows st ->
  series st' = series st ->
  selectedSeriesIds st' = selectedSeriesIds st ->
  editingRowIndex (editing st') = editingRowIndex (editing st) ->
  sound st -> sound st'.
Proof. unfold sound. intros -> -> -> ->. tauto. Qed.

(** A change of the rows that keeps their number. *)
Lemma sound_rows (T : JsText) (st st' : App) :
  List.length (rows st') = List.length (rows st) ->
  series st' = series st ->
  selectedSeriesIds st' = selectedSeriesIds st ->
  (forall idx, editingRowIndex (editing st') = Some idx ->
               editingRowIndex (editing st) = Some idx
               \/ idx < List.length (rows st)) ->
  sound st -> sound st'.
Proof.
  unfold sound. intros -> -> -> He [H1 [H2 [H3 [H4 [H5 H6]]]]].
  repeat split; try assumption.
  intros idx Hi. destruct (He idx Hi) as [H|H]; [now apply H5 | exact H].
Qed.

(** A change of the registry that keeps ids and colours, and a selection
    of ids that are visible in it. *)
Lemma sound_series (T : JsText) (st st' : App) :
  rows st' = rows st ->
  editingRowIndex (editing st') = editingRowIndex (editing st) ->
  Permutation (map idAndColor (series st')) (map idAndColor (series st)) ->
  (forall i, In i (selectedSeriesIds st') ->
             In i (visibleIds (series st'))) ->
  NoDup (selectedSeriesIds st') ->
  (labelsDistinct (series st) -> labelsDistinct (series st')) ->
  sound st -> sound st'.
Proof.
  unfold sound. intros -> -> P Hs Hn Hl [H1 [H2 [H3 [H4 [H5 H6]]]]].
  repeat split; try assumption.
  - now transitivity (map idAndColor (series st)).
  - intro H. apply Hl. now apply H6.
Qed.

Lemma sound_toggle (T : JsText) (i : string) (st : App) :
  sound st -> sound (toggleSeriesVisible i st).
Proof.
  intro H. pose proof H as [_ [_ [H3 [H4 _]]]].
  apply (sound_series T st); try reflexivity; try exact H.
  - simpl. now rewrite toggleVisibleIn_pairs.
  - simpl. intros j Hj. apply filter_In in Hj. destruct Hj as [Hj N].
    apply negb_true_iff, String.eqb_neq in N.
    apply toggleVisibleIn_other; [exact N | now apply H3].
  - simpl. now apply NoDup_filter.
  - simpl. apply labelsDistinct_labels. now rewrite toggleVisibleIn_labels.
Qed.

Lemma sound_hideRow (T : JsText) (ri : nat) (st : App) :
  sound st -> sound (hideRow ri st).
Proof.
  apply sound_rows; try reflexivity.
  - simpl. unfold hideRowIn, mapi. apply mapi_from_length.
  - intros idx Hi. now left.
Qed.

Lemma sound_perform (T : JsText) (a : Action) (st : App) :
  sound st -> offered a st = true -> sound (perform a st).
Proof.
  intros H Ho. pose proof (sound_ids T st H) as Hid.
  pose proof H as [H1 [H2 [H3 [H4 [H5 H6]]]]].
  destruct a; simpl perform.
  - (* CellChange *)
    simpl in Ho. apply Nat.ltb_lt in Ho.
    apply (sound_rows T st); try reflexivity; try exact H.
    + simpl. unfold handleCellChangeIn. now apply arraySet_length.
    + intros idx Hi. now left.
  - now apply sound_hideRow.
  - (* ShowAllRows *)
    apply (sound_rows T st); try reflexivity; try exact H.
    + simpl. apply length_map.
    + intros idx Hi. now left.
  - (* ShowAllSeries *)
    apply (sound_series T st); try reflexivity; try exact H; try exact H4.
    + simpl. now rewrite map_map.
    + simpl. intros i Hi. rewrite showAll_visibleIds.
      apply H3 in Hi. apply visibleIds_In in Hi. destruct Hi as [s [Hs [_ <-]]].
      now apply in_map.
    + simpl. apply labelsDistinct_labels. now rewrite map_map.
  - now apply sound_toggle.
  - (* StartRenameSeries *)
    apply (sound_frame T st); try exact H;
      unfold startRenameSeries; destruct (find _ (series st)); reflexivity.
  - apply (sound_frame T st); try exact H; reflexivity.
  - (* CommitRenameSeries *)
    destruct (commitRenameSeries_cases T st) as [E1 [E2 [E3 E4]]].
    apply (sound_series T st); try assumption.
    + destruct E4 as [->|[eid [t ->]]]; [reflexivity | now rewrite relabel_pairs].
    + rewrite E2. intros i Hi. apply H3 in Hi.
      destruct E4 as [->|[eid [t ->]]]; [exact Hi | now rewrite relabel_visibleIds].
    + now rewrite E2.
    + intro Hl. exact (proj2 (commitRenameSeries_invariant st Hid Hl)).
  - apply (sound_frame T st); try exact H; reflexivity.
  - apply (sound_frame T st); try exact H; reflexivity.
  - (* SeriesDrop *)
    assert (P : Permutation (series (onSeriesDrop targetId st)) (series st)).
    { rewrite onSeriesDrop_series.
      destruct (dragSeriesId (drag st)) as [s|]; [|reflexivity].
      destruct ((s =? "") || (s =? targetId)); [reflexivity|].
      apply reorderSeries_Permutation. }
    assert (F : rows (onSeriesDrop targetId st) = rows st
                /\ selectedSeriesIds (onSeriesDrop targetId st) = selectedSeriesIds st
                /\ editing (onSeriesDrop targetId st) = editing st).
    { unfold onSeriesDrop. destruct (dragSeriesId (drag st)) as [s|];
        [destruct ((s =? "") || (s =? targetId))|]; repeat split. }
    destruct F as [F1 [F2 F3]].
    apply (sound_series T st); try assumption.
    + now rewrite F3.
    + now apply Permutation_map.
    + rewrite F2. intros i Hi. apply H3 in Hi. unfold visibleIds in *.
      apply (Permutation_in (l := map id (filter visible (series st))));
        [|exact Hi].
      apply Permutation_map, filter_Permutation. now symmetry.
    + now rewrite F2.
    + apply labelsDistinct_labels. now apply Permutation_map.
  - (* RowDragStart *)
    apply (sound_frame T st); try exact H;
      unfold onRowDragStart; destruct (editingRowIndex (editing st)) eqn:E;
      simpl; congruence.
  - apply (sound_frame T st); try exact H; reflexivity.
  - (* RowDrop *)
    apply (sound_rows T st); try exact H.
    + rewrite onRowDrop_rows. destruct (dragRowKey (drag st)); [|reflexivity].
      apply Permutation_length, reorderRows_Permutation.
    + unfold onRowDrop. destruct (dragRowKey (drag st)); reflexivity.
    + unfold onRowDrop. destruct (dragRowKey (drag st)); reflexivity.
    + intros idx Hi. left. revert Hi. unfold onRowDrop.
      destruct (dragRowKey (drag st)); simpl; exact (fun e => e).
  - apply (sound_frame T st); try exact H; reflexivity.
  - (* StartEditRowHeader *)
    simpl in Ho. apply Nat.ltb_lt in Ho.
    apply (sound_rows T st); try reflexivity; try exact H.
    intros idx Hi. simpl in Hi. injection Hi as <-. now right.
  - apply (sound_frame T st); try exact H; reflexivity.
  - (* CommitEditRowHeader *)
    unfold commitEditRowHeader.
    destruct (editingRowIndex (editing st)) as [idx|] eqn:E; [|exact H].
    destruct (trim (editingRowValue (editing st)) =? "").
    + apply (sound_rows T st); try reflexivity; try exact H.
      intros i Hi. discriminate.
    + apply (sound_rows T st); try reflexivity; try exact H.
      * simpl. apply commitRowUpdater_length. now apply H5.
      * intros i Hi. discriminate.
  - (* CancelEditRowHeader *)
    apply (sound_rows T st); try reflexivity; try exact H.
    intros i Hi. discriminate.
  - (* Pointer *)
    destruct ev as [s e|s|ri key e|ri key|]; simpl handle.
    + unfold handleSeriesHeaderMouseDown.
      destruct (negb (button e =? 0)%nat); [exact H|].
      destruct (inDragHandle e || inRenameBtn e || inVisibilityBtn e
                || optionEqb String.eqb (editingSeriesId (editing st)) (id s));
        [exact H|].
      apply (sound_frame T (toggleSeriesVisible (id s) st)); try reflexivity.
      now apply sound_toggle.
    + unfold handleSeriesHeaderMouseEnter.
      destruct (sweepActive (sweep st)) as [[|]|]; try exact H.
      destruct (negb (setHas (sweepSeriesSet (sweep st)) (id s))); [|exact H].
      apply (sound_frame T (toggleSeriesVisible (id s) st)); try reflexivity.
      now apply sound_toggle.
    + unfold handleRowHeaderMouseDown.
      destruct (negb (button e =? 0)%nat); [exact H|].
      destruct (inDragHandle e || inRenameBtn e || inVisibilityBtn e
                || optionEqb Nat.eqb (editingRowIndex (editing st)) ri);
        [exact H|].
      apply (sound_frame T (hideRow ri st)); try reflexivity.
      now apply sound_hideRow.
    + unfold handleRowHeaderMouseEnter.
      destruct (sweepActive (sweep st)) as [[|]|]; try exact H.
      destruct (negb (keySetHas (sweepRowSet (sweep st)) key)); [|exact H].
      apply (sound_frame T (hideRow ri st)); try reflexivity.
      now apply sound_hideRow.
    + apply (sound_frame T st); try exact H; reflexivity.
  - apply (sound_frame T st); try exact H; reflexivity.
  - apply (sound_frame T st); try exact H; reflexivity.
  - apply (sound_frame T st); try exact H; reflexivity.
  - apply (sound_frame T st); try exact H; reflexivity.
  - apply (sound_frame T st); try exact H; reflexivity.
  - apply (sound_frame T st); try exact H; reflexivity.
  - apply (sound_frame T st); try exact H; reflexivity.
  - apply (sound_frame T st); try exact H; reflexivity.
  - apply (sound_frame T st); try exact H; reflexivity.
  - apply (sound_frame T st); try exact H; reflexivity.
  - (* ToggleSelect *)
    simpl in Ho. apply includes_In in Ho.
    apply (sound_series T st); try reflexivity; try exact H.
    + simpl. intros j Hj. apply onToggleSelect_In in Hj.
      destruct Hj as [[-> _]|[_ Hj]]; [exact Ho | now apply H3].
    + simpl. now apply onToggleSelect_NoDup.
    + exact (fun e => e).
Qed.

Lemma sound_repairSelection (T : JsText) (st : App) :
  sound st -> sound (repairSelection st).
Proof.
  intro H. pose proof (sound_ids T st H) as Hid.
  pose proof H as [_ [_ [_ [H4 _]]]].
  apply (sound_series T st); try reflexivity; try exact H.
  - simpl. intros i Hi. now apply (selectionEffect_visible _ _ _ Hi).
  - simpl. now apply selectionEffect_NoDup.
  - exact (fun e => e).
Qed.

Lemma sound_reconcile (T : JsText) (st : App) : sound st -> sound (reconcile st).
Proof. apply sound_frame; reflexivity. Qed.

Lemma sound_initial (T : JsText) : sound initialApp.
Proof.
  unfold sound. split; [reflexivity|]. split; [reflexivity|].
  split; [intros i Hi; exact Hi|]. split; [apply initial_ids_NoDup|].
  split; [intros idx Hi; discriminate | exact (fun e => e)].
Qed.

Lemma reconcile_stable (st : App) :
  reconciler (series (reconcile st)) (mapping (reconcile st)) = mapping (reconcile st).
Proof. simpl. apply reconciler_idempotent. Qed.

Lemma reachable_sound (T : JsText) (st : App) :
  reachable st ->
  sound st /\ reconciler (series st) (mapping st) = mapping st.
Proof.
  induction 1 as [|st a _ [IH _] Ho|st a _ [IH _] Ho].
  - split; [apply sound_initial | reflexivity].
  - split; [|apply reconcile_stable].
    apply sound_reconcile. now apply sound_perform.
  - split; [|apply reconcile_stable].
    apply sound_reconcile, sound_repairSelection. now apply sound_perform.
Qed.

Lemma reconciled_slot (vis : list string) (slot : string) :
  (if negb (includes vis slot) then firstOrEmpty vis else slot) = slot ->
  (slot = "" /\ vis = []) \/ In slot vis.
Proof.
  destruct (includes vis slot) eqn:E; simpl; intro H.
  - right. now apply includes_In.
  - rewrite firstOrEmpty_hd in H. destruct vis as [|v t]; simpl in H.
    + left. now split.
    + right. now left.
Qed.

Lemma refersHidden_id (ser : list SeriesMeta) (slot : string) :
  refersHidden ser slot = true -> In slot (map id ser).
Proof.
  intro H. apply refersHidden_true in H. destruct H as [s [Hs [<- _]]].
  now apply in_map.
Qed.

Lemma not_initial_id (T : JsText) (st : App) (slot : string) :
  sound st -> ~ In slot (map id initialSeries) -> refersHidden (series st) slot = false.
Proof.
  intros [_ [P _]] N. destruct (refersHidden (series st) slot) eqn:E; [|reflexivity].
  exfalso. apply N. apply refersHidden_id in E. apply idAndColor_ids in P.
  now apply (Permutation_in _ P).
Qed.

(** X21: the states the component can reach. Whatever the user does, in
    every state the component is in after a render and its effects: there
    are the seven rows and the five columns it started with, each column
    with its id and colour, the ids unique; the selection has no duplicates
    and every selected id is the id of a series the chart draws; the
    mapping is stable under the reconciler, the value-series, histogram and
    Y-axis slots each name a visible column (or hold the empty sentinel,
    which happens only when no column is visible), the label slot names the
    key column or a visible column, and none of the four names a hidden
    column; the "selected Y axis series hidden" warning shows only when no
    column is visible; a row header under edit is the header of a row; and
    labels that differ up to case initially still do. *)
Theorem reachable_states :
  forall (T : JsText) (st : App),
    reachable st ->
    let vis := visibleIds (series st) in
    let m := mapping st in
    List.length (rows st) = 7
    /\ Permutation (map idAndColor (series st)) (map idAndColor initialSeries)
    /\ NoDup (map id (series st))
    /\ (forall i, In i (selectedSeriesIds st) ->
                  exists s, In s (chartSeries st) /\ id s = i)
    /\ NoDup (selectedSeriesIds st)
    /\ reconciler (series st) m = m
    /\ (forall slot,
           In slot [pieSeriesColumn m; histogramColumn m; scatterYColumn m] ->
           (slot = "" /\ vis = []) \/ In slot vis)
    /\ (labelColumn m = "key" \/ In (labelColumn m) vis)
    /\ (forall slot,
           In slot [pieSeriesColumn m; histogramColumn m; scatterYColumn m;
                    labelColumn m] ->
           refersHidden (series st) slot = false)
    /\ (hiddenYWarning st = true -> dataVisibleSeries st = [])
    /\ (forall idx, editingRowIndex (editing st) = Some idx -> idx < 7)
    /\ (labelsDistinct initialSeries -> labelsDistinct (series st)).
Proof.
  intros T st R vis m. destruct (reachable_sound T st R) as [S Hm].
  pose proof (sound_ids T st S) as Hid.
  pose proof S as [H1 [H2 [H3 [H4 [H5 H6]]]]].
  assert (Hslots : forall slot,
             In slot [pieSeriesColumn m; histogramColumn m; scatterYColumn m] ->
             (slot = "" /\ vis = []) \/ In slot vis).
  { intros slot Hin. apply reconciled_slot.
    destruct Hin as [<-|[<-|[<-|[]]]].
    - exact (f_equal pieSeriesColumn Hm).
    - exact (f_equal histogramColumn Hm).
    - exact (f_equal scatterYColumn Hm). }
  assert (Hlabel : labelColumn m = "key" \/ In (labelColumn m) vis).
  { pose proof (f_equal labelColumn Hm) as E. simpl in E. fold m vis in E.
    destruct (String.eqb_spec (labelColumn m) "key") as [e|ne]; [now left|].
    simpl in E. destruct (includes vis (labelColumn m)) eqn:I; simpl in E.
    - right. now apply includes_In.
    - left. now symmetry. }
  split; [exact H1|]. split; [exact H2|]. split; [exact Hid|].
  split; [|split; [exact H4|split; [exact Hm|split; [exact Hslots|
    split; [exact Hlabel|split; [|split; [|split; [|exact H6]]]]]]]].
  - intros i Hi. pose proof (H3 i Hi) as Hv. apply visibleIds_In in Hv.
    destruct Hv as [s [Hs [Hvis He]]]. exists s. split; [|exact He].
    apply chartSeries_In. split; [exact Hs|]. split; [exact Hvis|]. now rewrite He.
  - intros slot Hin.
    assert (C : (slot = "" \/ slot = "key") \/ In slot vis).
    { destruct Hin as [E|[E|[E|[E|[]]]]].
      1-3: assert (Hin' : In slot [pieSeriesColumn m; histogramColumn m;
                                   scatterYColumn m])
        by (rewrite <- E; simpl; tauto).
      1-3: destruct (Hslots slot Hin') as [[Hs _]|Hv];
        [left; now left | now right].
      rewrite <- E. destruct Hlabel as [Hk|Hv]; [left; now right | now right]. }
    destruct C as [[Hs | Hs] | Hv]; try subst slot.
    + apply (not_initial_id T st "" S). simpl. intuition discriminate.
    + apply (not_initial_id T st "key" S). simpl. intuition discriminate.
    + now apply visible_not_refersHidden.
  - intro W. unfold hiddenYWarning in W. apply andb_true_iff in W.
    destruct W as [_ W]. apply negb_true_iff in W.
    destruct (Hslots (scatterYColumn m)) as [[_ Hv]|Hv]; [simpl; tauto| |].
    + unfold vis, visibleIds in Hv. unfold dataVisibleSeries.
      destruct (filter visible (series st)); [reflexivity | discriminate].
    + exfalso. apply visibleIds_In in Hv. destruct Hv as [s [Hs [Hvis He]]].
      pose proof (existsb_false_In _ _ s W Hs) as F. simpl in F.
      fold m in F. rewrite He, String.eqb_refl, Hvis in F. discriminate.
  - intros idx Hi. apply H5 in Hi. rewrite H1 in Hi. exact Hi.
Qed.

(** The Y axis set to [COGS], then [COGS] hidden: a state the component
    reaches, with the Y axis repaired. *)
Lemma reachable_states_witness :
  let st := reconcile (repairSelection
              (perform (H := HostText) (ToggleSeriesVisible "COGS")
                 (reconcile (perform (H := HostText) (PickScatterY "COGS") initialApp)))) in
  List.length (rows st) = 7
  /\ NoDup (map id (series st))
  /\ NoDup (selectedSeriesIds st)
  /\ refersHidden (series st) (scatterYColumn (mapping st)) = false
  /\ scatterYColumn (mapping st) = "Revenue"
  /\ labelsDistinct (H := HostText) (series st).
Proof.
  intro st.
  assert (R : reachable (H := HostText) st).
  { apply reach_event_series; [|reflexivity].
    apply reach_event; [apply reach_initial | reflexivity]. }
  destruct (reachable_states HostText st R)
    as [H1 [_ [H3 [_ [H5 [_ [_ [_ [H9 [_ [_ H12]]]]]]]]]]].
  split; [exact H1|]. split; [exact H3|]. split; [exact H5|].
  split; [apply H9; simpl; tauto|]. split; [reflexivity|].
  apply H12. unfold labelsDistinct. simpl.
  repeat (constructor; [simpl; intuition discriminate|]). constructor.
Defined.

(** ** Row-key renames that keep the rendered keys unique *)

(** X22: when a row-key rename keeps the rendered keys unique. If the
    rendered keys are pairwise different, a commit of a key rename leaves
    them pairwise different whenever the key it stores renders as the text
    typed: that is, whenever the trimmed text is not a decimal numeral, or
    is the text [String] gives for the number it reads as. The renames
    that break uniqueness are therefore among the decimal numerals that are
    not in that form, such as [2019.0]. *)
Theorem row_key_rename_keeps_unique :
  forall (T : JsText) (st : App) (idx : nat) (row : DataRow),
    editingRowIndex (editing st) = Some idx ->
    nth_error (rows st) idx = Some row ->
    labelColumn (mapping st) = "key" ->
    NoDup (renderedKeys (rows st)) ->
    let value := trim (editingRowValue (editing st)) in
    matchesDecimal value = false \/ numberToString (Number value) = value ->
    NoDup (renderedKeys (rows (commitEditRowHeader st)))
    /\ (rows (commitEditRowHeader st) = rows st
        \/ nth_error (renderedKeys (rows (commitEditRowHeader st))) idx = Some value).
Proof.
  intros T st idx row Hi Hr Hk Hnd value Hv.
  unfold commitEditRowHeader. rewrite Hi. fold value.
  destruct (value =? ""); [split; [exact Hnd | now left]|].
  simpl rows. unfold commitRowUpdater. rewrite Hk, Hr. simpl.
  destruct (duplicateKey idx "key" value (rows st)) eqn:D;
    [split; [exact Hnd | now left]|].
  set (stored := if negb (PrimFloat.is_nan (Number value)) && matchesDecimal value
                 then JNum (Number value) else JStr value).
  assert (Es : String_ stored = value).
  { unfold stored.
    destruct (negb (PrimFloat.is_nan (Number value)) && matchesDecimal value) eqn:C;
      [|reflexivity].
    apply andb_true_iff in C. destruct C as [_ C]. simpl.
    destruct Hv as [Hv|Hv]; [congruence | exact Hv]. }
  assert (Ho : forall i r, i <> idx -> nth_error (rows st) i = Some r ->
                           String_ (getProp r "key") <> value).
  { intros i r N E F.
    assert (X : duplicateKey idx "key" value (rows st) = true)
      by (apply duplicateKey_spec; now exists i, r).
    congruence. }
  destruct (nth_error_split (rows st) idx Hr) as [a [b [E La]]].
  rewrite E in *. subst idx. rewrite arraySet_at.
  unfold renderedKeys in *. rewrite !map_app in *. simpl in *.
  rewrite getProp_setProp_same, Es. split.
  - apply NoDup_remove_1 in Hnd.
    apply (Permutation_NoDup
             (l := value :: map (fun r => String_ (getProp r "key")) a
                            ++ map (fun r => String_ (getProp r "key")) b));
      [apply Permutation_middle|].
    constructor; [|exact Hnd]. intro Hin. apply in_app_or in Hin.
    destruct Hin as [Hin|Hin]; apply in_map_iff in Hin;
      destruct Hin as [r [Er Hin]]; apply In_nth_error in Hin;
      destruct Hin as [i Hin].
    + assert (Hl : i < List.length a) by (apply nth_error_Some; congruence).
      apply (Ho i r); [lia | rewrite nth_error_app1 by exact Hl; exact Hin | exact Er].
    + apply (Ho (List.length a + S i) r); [lia| |exact Er].
      rewrite nth_error_app2 by lia.
      replace (List.length a + S i - List.length a) with (S i) by lia. exact Hin.
  - right. rewrite nth_error_app2 by (rewrite length_map; lia).
    rewrite length_map, Nat.sub_diag. reflexivity.
Qed.

(** The second of the rows keyed 2019 and 2020 renamed to [2030], and to
    [FY20]. *)
Lemma row_key_rename_keeps_unique_witness :
  NoDup (renderedKeys (rows (renameRow 1 "2030" twoRowApp)))
  /\ renderedKeys (rows (renameRow 1 "2030" twoRowApp)) = ["2019"; "2030"]
  /\ renderedKeys (rows (renameRow 1 "FY20" twoRowApp)) = ["2019"; "FY20"].
Proof.
  split; [|split; vm_compute; reflexivity].
  refine (proj1 (row_key_rename_keeps_unique HostText
                   (setEditingRowValue "2030" (startEditRowHeader 1 twoRowApp)) 1
                   (mkRow 2020 135 53 33 14 35) eq_refl eq_refl eq_refl _ _)).
  - vm_compute. repeat (constructor; [simpl; intuition discriminate|]). constructor.
  - right. vm_compute. reflexivity.
Defined.

(** ** A hidden row and the rows the charts read *)

Lemma mapi_from_above (k idx : nat) (f : DataRow -> DataRow) (l : list DataRow) :
  idx < k ->
  mapi_from k (fun r i => if (i =? idx)%nat then f r else r) l = l.
Proof.
  revert k. induction l as [|x t IH]; intros k H; simpl; [reflexivity|].
  destruct (Nat.eqb_spec k idx); [lia|]. rewrite IH by lia. reflexivity.
Qed.

Lemma mapi_from_at (k : nat) (f : DataRow -> DataRow) (a : list DataRow)
    (r : DataRow) (b : list DataRow) :
  mapi_from k (fun x i => if (i =? k + List.length a)%nat then f x else x)
            (a ++ r :: b)
  = a ++ f r :: b.
Proof.
  revert k. induction a as [|y a IH]; intro k; simpl.
  - rewrite Nat.add_0_r, Nat.eqb_refl.
    rewrite (mapi_from_above (S k) k f b) by lia. reflexivity.
  - destruct (Nat.eqb_spec k (k + S (List.length a))); [lia|].
    replace (k + S (List.length a)) with (S k + List.length a) by lia.
    now rewrite IH.
Qed.

Lemma activeRows_app (l1 l2 : list DataRow) :
  activeRows (l1 ++ l2) = activeRows l1 ++ activeRows l2.
Proof. unfold activeRows. apply filter_app. Qed.

(** X23: hiding a row takes exactly that row out of the rows the charts
    read, and showing it puts it back where it was, with the cells it had:
    the rows before it and after it are read as before. *)
Theorem hide_row_in_chart_rows :
  forall (st : App) (idx : nat) (r : DataRow),
    nth_error (rows st) idx = Some r ->
    let before := activeRows (firstn idx (rows st)) in
    let after := activeRows (skipn (S idx) (rows st)) in
    let shown := setProp r "_hidden" (JBool false) in
    activeRows (rows st) = before ++ (if isHidden r then [] else [r]) ++ after
    /\ activeRows (rows (hideRow idx st))
       = before ++ (if isHidden r then [shown] else []) ++ after
    /\ (forall k, k <> "_hidden" -> getProp shown k = getProp r k)
    /\ List.length (rows (hideRow idx st)) = List.length (rows st).
Proof.
  intros st idx r Hr before after shown.
  destruct (nth_error_split (rows st) idx Hr) as [a [b [E La]]].
  assert (Ef : firstn idx (rows st) = a).
  { rewrite E, <- La, firstn_app, Nat.sub_diag, firstn_all. simpl. apply app_nil_r. }
  assert (Es : skipn (S idx) (rows st) = b).
  { rewrite E, <- La. clear. induction a as [|y a IH]; simpl; [reflexivity | exact IH]. }
  assert (Eh : rows (hideRow idx st)
               = a ++ setProp r "_hidden" (JBool (negb (isHidden r))) :: b).
  { simpl. unfold hideRowIn, mapi. rewrite E, <- La.
    apply (mapi_from_at 0
             (fun x => setProp x "_hidden" (JBool (negb (truthy (getProp x "_hidden")))))). }
  unfold before, after. rewrite Ef, Es. split; [|split; [|split]].
  - rewrite E, activeRows_app. f_equal. unfold activeRows at 1. simpl.
    fold (isHidden r). destruct (isHidden r); reflexivity.
  - rewrite Eh, activeRows_app. f_equal. unfold activeRows at 1. simpl.
    rewrite getProp_setProp_same. simpl. rewrite negb_involutive.
    unfold shown. destruct (isHidden r); reflexivity.
  - intros k N. unfold shown. now apply getProp_setProp_other.
  - rewrite Eh, E, !length_app. reflexivity.
Qed.

(** The row keyed 2020 hidden in the initial state, and shown again. *)
Lemma hide_row_in_chart_rows_witness :
  map (fun r => getProp r "key") (activeRows (rows (hideRow 1 initialApp)))
  = [JNum 2019; JNum 2021; JNum 2022; JNum 2023; JNum 2024; JNum 2025]
  /\ map (fun r => getProp r "key")
       (activeRows (rows (hideRow 1 (hideRow 1 initialApp))))
     = map (fun r => getProp r "key") initialRows
  /\ List.length (rows (hideRow 1 initialApp)) = List.length (rows initialApp).
Proof.
  split; [vm_compute; reflexivity|]. split; [vm_compute; reflexivity|].
  exact (proj2 (proj2 (proj2 (hide_row_in_chart_rows initialApp 1
                                (mkRow 2020 135 53 33 14 35) eq_refl)))).
Defined.

(** * The claims about rows and bins, in states the user reaches *)

Lemma renamedKeyApp_reachable : reachable (H := HostText) renamedKeyApp.
Proof.
  unfold renamedKeyApp.
  apply reach_event; [|reflexivity]. apply reach_event; [|reflexivity].
  apply reach_event; [apply reach_initial | reflexivity].
Qed.

Lemma fractionalBinsApp_reachable : reachable (H := HostText) fractionalBinsApp.
Proof.
  unfold fractionalBinsApp.
  apply reach_event; [|reflexivity].
  apply reach_event; [apply reach_initial | reflexivity].
Qed.

(** C6, on the code: a row sweep records the key of each header it
    toggles and toggles by index, so a header whose key is already
    recorded is passed over even when it is the header of another row.
    Whenever the press and the entered header carry keys that are the same
    value, only the pressed row is toggled. The user reaches such a state:
    after the second row's key is renamed to [2019.0] the first two rows
    both hold the key 2019, and a sweep that presses the first and enters
    the second toggles the first only; the same gesture in the initial
    state, where the keys differ, toggles both. *)
Theorem sweep_passes_over_row_with_recorded_key :
  (forall (st : App) (ri0 ri1 : nat) (k0 k1 : jsval) (e : MouseEvent),
      onHeaderItself e = true ->
      editingRowIndex (editing st) <> Some ri0 ->
      sweepRowSet (sweep st) = [] ->
      same_value_zero k0 k1 = true ->
      let st' := run [RowMouseDown ri0 k0 e; RowMouseEnter ri1 k1] st in
      rows st' = hideRowIn ri0 (rows st)
      /\ sweepRowSet (sweep st') = [k0])
  /\ reachable (H := HostText) renamedKeyApp
  /\ map (fun r => (getProp r "key", getProp r "Revenue")) (firstn 3 (rows renamedKeyApp))
     = [(JNum 2019, JNum 120); (JNum 2019, JNum 135); (JNum 2021, JNum 155)]
  /\ (let st' := run [RowMouseDown 0 (JNum 2019) plainPress; RowMouseEnter 1 (JNum 2019)]
                     renamedKeyApp in
      map (fun r => getProp r "_hidden") (firstn 3 (rows st'))
      = [JBool true; JUndefined; JUndefined]
      /\ map isHidden (firstn 3 (rows st')) = [true; false; false])
  /\ (let st' := run [RowMouseDown 0 (JNum 2019) plainPress; RowMouseEnter 1 (JNum 2020)]
                     initialApp in
      map isHidden (firstn 3 (rows st')) = [true; true; false]).
Proof.
  split; [|split; [exact renamedKeyApp_reachable|split; [reflexivity|split]]].
  - intros st ri0 ri1 k0 k1 e He Hed Hidle Hk st'.
    pose proof (row_press ri0 k0 e st He Hed) as Hp. cbv zeta in Hp.
    set (st1 := dispatch st (RowMouseDown ri0 k0 e)) in *.
    destruct Hp as [Hr1 [Hset1 [Hact1 _]]].
    rewrite Hidle in Hset1. change (keySetAdd [] k0) with [k0] in Hset1.
    pose proof (row_enter_step ri1 k1 st1 Hact1) as Hs. cbv zeta in Hs.
    change (dispatch st1 (RowMouseEnter ri1 k1)) with st' in Hs.
    destruct Hs as [_ [_ Hs]]. rewrite Hset1 in Hs.
    assert (Hin : keySetHas [k0] k1 = true).
    { unfold keySetHas. simpl. now rewrite Hk. }
    rewrite Hin in Hs. destruct Hs as [Er Es]. rewrite Er, Hr1. now split.
  - vm_compute. split; reflexivity.
  - vm_compute. reflexivity.
Qed.

(** C9, on the code: a row drop finds the dragged row by its key, so with
    two rows holding one key it moves the first of them, whichever was
    dragged. In the state the user reaches by renaming the second row's key
    to [2019.0], the second row (revenue 135) is dragged below the row
    under it and then above it again: the first drop moves the first row
    (revenue 120) instead, the second drop changes nothing, and the rows
    are not in their original order. The same two drops of the second row
    in the initial state, where the keys differ, restore the order. *)
Theorem row_round_trip_lost_with_shared_key :
  reachable (H := HostText) renamedKeyApp
  /\ editingRowIndex (editing renamedKeyApp) = None
  /\ (let cells := fun st : App =>
                     map (fun r => (getProp r "key", getProp r "Revenue"))
                         (firstn 3 (rows st)) in
      let moved := reorderRow (JNum 2019) (JNum 2021) below renamedKeyApp in
      let back := reorderRow (JNum 2019) (JNum 2021) above moved in
      cells renamedKeyApp = [(JNum 2019, JNum 120); (JNum 2019, JNum 135);
                             (JNum 2021, JNum 155)]
      /\ cells moved = [(JNum 2019, JNum 135); (JNum 2021, JNum 155);
                        (JNum 2019, JNum 120)]
      /\ rows back = rows moved
      /\ rows back <> rows renamedKeyApp)
  /\ (let moved := reorderRow (JNum 2020) (JNum 2021) below initialApp in
      let back := reorderRow (JNum 2020) (JNum 2021) above moved in
      map (fun r => getProp r "key") (firstn 3 (rows moved))
      = [JNum 2019; JNum 2021; JNum 2020]
      /\ rows back = rows initialApp).
Proof.
  split; [exact renamedKeyApp_reachable|]. split; [reflexivity|]. split.
  - cbv zeta. split; [reflexivity|]. split; [reflexivity|]. split; [reflexivity|].
    intro H.
    apply (f_equal (map (fun r => strict_eq (getProp r "Revenue") (JNum 120)))) in H.
    vm_compute in H. discriminate.
  - cbv zeta. split; reflexivity.
Qed.

(** C7, on the code: the bins input stores a number between 1 and 50
    that need not be whole, and the histogram branch creates as many bins
    as the count truncated while it clamps an index only when it reaches
    the count itself. In the state the user reaches by choosing the
    histogram and typing [2.5], the initial [Revenue] column has two bins
    and a bin size of 57.6; the maximum, 264, has the index
    [floor(144 / 57.6) = 2], which is below 2.5 and so is not clamped, and
    names no bin: the branch throws. With the whole counts the user also
    reaches, the values are binned as the claim says: the values 1 to 10 in
    5 bins give the counts 2, 2, 2, 2, 2 with the boundaries of the
    scenario. *)
Theorem histogram_throws_on_fractional_bin_count :
  reachable (H := HostText) fractionalBinsApp
  /\ chartType fractionalBinsApp = histogram
  /\ histogramColumn (mapping fractionalBinsApp) = "Revenue"
  /\ histogramBins fractionalBinsApp = 2.5%float
  /\ (let values := numbersOf (map (fun r => getProp r "Revenue")
                                   (activeRows (rows fractionalBinsApp))) in
      let min := mathMin values in
      let max := mathMax values in
      let binCount := mathMax [1%float; histogramBins fractionalBinsApp] in
      let binSize := binSizeOf min max binCount in
      values = [120; 135; 155; 178; 205; 236; 264]%float
      /\ min = 120%float /\ max = 264%float /\ binCount = 2.5%float
      /\ binSize = (144 / 2.5)%float
      /\ arrayLength binCount = Some 2
      /\ mathFloor ((max - min) / binSize)%float = 2%float
      /\ PrimFloat.leb binCount 2 = false
      /\ binIndex min binSize binCount max = 2%float
      /\ indicesWithin min binSize binCount values 2 = false)
  /\ renderHistogram (H := HostText) fractionalBinsApp = Thrown
  /\ histogramOf (H := HostText) "Revenue" oneToTen 2.5 = Thrown
  /\ histogramOf (H := HostText) "Revenue" oneToTen 5
     = HistogramBars [mkBin "1–2.8" 2; mkBin "2.8–4.6" 2; mkBin "4.6–6.4" 2;
                      mkBin "6.4–8.2" 2; mkBin "8.2–10" 2]
  /\ binIndex 1 (binSizeOf 1 10 5) 5 10 = 4%float.
Proof.
  split; [exact fractionalBinsApp_reachable|].
  vm_compute. repeat split.
Qed.
